(** * Kyber / ML-KEM key encapsulation: the Fujisaki-Okamoto layer

    A shallow embedding of [kem/kyber/templates/pkg.templ.go], the template
    from which every Kyber and ML-KEM package of the library is generated.
    The template flag [.NIST] selects the standardized (FIPS 203) variant;
    without it the round-3 (pre-standard) variant is generated.

    The underlying CPA-secure encryption scheme ([pke/kyber/...]), the
    sponge functions ([internal/sha3]) and the error values of package
    [kem] live outside the template; they enter as interfaces. *)

From Stdlib Require Import String Strings.Byte.
From Stdlib Require Import ZArith List Bool Arith Lia DecimalString.
Import ListNotations.

Set Implicit Arguments.

(** ** Bytes *)

Definition byte : Type := Byte.byte.

Definition byte_to_Z (b : byte) : Z := Z.of_N (Byte.to_N b).

(** Conversion to Go's [byte]: the value modulo 256. *)
Definition byte_of_Z (v : Z) : byte :=
  match Byte.of_N (Z.to_N (v mod 256)) with
  | Some b => b
  | None => x00
  end.

(** [make([]byte, n)] and the zero value of [[n]byte]. *)
Definition make (n : nat) : list byte := repeat x00 n.

(** Go's built-in [copy(dst, src)]: overwrites the first
    [min(len(dst), len(src))] bytes of [dst]; the result is the new
    contents of [dst]. *)
Definition copy (dst src : list byte) : list byte :=
  firstn (length dst) src ++ skipn (length src) dst.

(** [bytes.Equal]. *)
Fixpoint bytes_Equal (a b : list byte) : bool :=
  match a, b with
  | [], [] => true
  | x :: a', y :: b' => Byte.eqb x y && bytes_Equal a' b'
  | _, _ => false
  end.

(** ** Package [crypto/subtle]

    Transcribed from the Go standard library: the comparison folds the
    XOR of the bytes with OR, the copy selects with two byte masks.
    Neither inspects the data with a conditional. *)
Module subtle.
Local Open Scope Z_scope.

(** [int((uint32(x^y) - 1) >> 31)] *)
Definition ConstantTimeByteEq (x y : Z) : Z :=
  Z.shiftr ((Z.lxor x y - 1) mod 2 ^ 32) 31.

(** The loop [v |= x[i] ^ y[i]]. *)
Fixpoint or_xor (v : Z) (x y : list byte) : Z :=
  match x, y with
  | a :: x', b :: y' =>
      or_xor (Z.lor v (Z.lxor (byte_to_Z a) (byte_to_Z b))) x' y'
  | _, _ => v
  end.

Definition ConstantTimeCompare (x y : list byte) : Z :=
  if negb (length x =? length y)%nat then 0
  else ConstantTimeByteEq (or_xor 0 x y) 0.

(** The loop [x[i] = x[i]&xmask | y[i]&ymask]. *)
Fixpoint mask_select (xmask ymask : Z) (x y : list byte) : list byte :=
  match x, y with
  | a :: x', b :: y' =>
      byte_of_Z (Z.lor (Z.land (byte_to_Z a) xmask)
                       (Z.land (byte_to_Z b) ymask))
      :: mask_select xmask ymask x' y'
  | _, _ => x
  end.

(** [ConstantTimeCopy(v, x, y)]: [None] is the panic on slices of
    different lengths, otherwise the new contents of [x]. *)
Definition ConstantTimeCopy (v : Z) (x y : list byte) : option (list byte) :=
  if negb (length x =? length y)%nat then None
  else
    let xmask := (v - 1) mod 256 in
    let ymask := Z.lnot (v - 1) mod 256 in
    Some (mask_select xmask ymask x y).

End subtle.

(** ** Errors, panics and the world *)

(** Modelled from the spec: package [kem], which declares the error
    values, is not among the sources.  The errors are the ones the
    template names, pairwise distinct as in the spec's taxonomy (size
    mismatch, validation failure, type mismatch); [ErrOther] stands for
    the errors of other packages: a failing entropy source, the encryption
    scheme's own key check. *)
Inductive error : Type :=
| ErrTypeMismatch
| ErrSeedSize
| ErrPubKeySize
| ErrCiphertextSize
| ErrPrivKeySize
| ErrPrivKey
| ErrOther (msg : string).

(** What a Go [panic] carries: a message, an error value, or the runtime's
    nil-pointer dereference. *)
Inductive panic_value : Type :=
| PanicString (msg : string)
| PanicError (e : error)
| PanicNilDeref.

Inductive result (A : Type) : Type :=
| Ok (a : A)
| Panic (p : panic_value).
Arguments Ok {A} a.
Arguments Panic {A} p.

(** One read of an entropy source either fills the whole buffer (byte [i]
    of the buffer is [f i]) or fails. *)
Inductive entropy : Type :=
| Fill (f : nat -> byte)
| Fail (e : error).

(** [sha3] state kinds: [sha3.New256], [sha3.New512], [sha3.NewShake256]. *)
Inductive Kind : Type := SHA3_256 | SHA3_512 | SHAKE256.

(** Calls into the collaborators, recorded in the order they happen: the
    entropy source, [sha3], the encryption scheme, and the two functions of
    [crypto/subtle].  An event names the call, not its arguments: the log is
    what the call sequence of a run looks like from outside. *)
Inductive Event : Type :=
| EvEntropy
| EvAbsorb (k : Kind)
| EvSqueeze (k : Kind)
| EvKeyGen
| EvEncrypt
| EvDecrypt
| EvConstantTimeCompare
| EvConstantTimeCopy.

(** The world a call runs in: the byte arrays behind the caller's slices,
    the process-wide entropy source [crypto/rand.Reader] (its [k]-th read
    has outcome [rng k]) and the log of collaborator calls, most recent
    first. *)
Record World : Type := mkWorld {
  mem : nat -> list byte;
  rng : nat -> entropy;
  rng_calls : nat;
  log : list Event
}.

(** A Go slice of caller-owned memory: backing array, offset, length. *)
Record slice : Type := mkSlice { base : nat; off : nat; len : nat }.

(** [s[lo:hi]].  Every slice expression of the template follows a length
    check that keeps it within bounds, so no bounds panic is modelled. *)
Definition sub (s : slice) (lo hi : nat) : slice :=
  {| base := base s; off := off s + lo; len := hi - lo |}.

Definition read_slice (m : nat -> list byte) (s : slice) : list byte :=
  firstn (len s) (skipn (off s) (m (base s))).

Definition write_slice (m : nat -> list byte) (s : slice) (v : list byte)
  : nat -> list byte :=
  fun b =>
    if (b =? base s)%nat then
      firstn (off s) (m b) ++ copy (read_slice m s) v
        ++ skipn (off s + len s) (m b)
    else m b.

(** The slice lies within its backing array. *)
Definition slice_ok (w : World) (s : slice) : Prop :=
  off s + len s <= length (mem w (base s)).

(** The world after the collaborator calls [evs] (in the order they
    happened), and after a write through a slice. *)
Definition logged (evs : list Event) (w : World) : World :=
  mkWorld (mem w) (rng w) (rng_calls w) (rev evs ++ log w).

Definition stored (s : slice) (v : list byte) (w : World) : World :=
  mkWorld (write_slice (mem w) s v) (rng w) (rng_calls w) (log w).

(** The world after one read of the process-wide entropy source. *)
Definition entropy_read (w : World) : World :=
  mkWorld (mem w) (rng w) (S (rng_calls w)) (EvEntropy :: log w).

(** ** The monad of calls: state and panics *)

Definition M (A : Type) : Type := World -> result A * World.

Definition ret {A} (a : A) : M A := fun w => (Ok a, w).

Definition bind {A B} (m : M A) (f : A -> M B) : M B :=
  fun w =>
    match m w with
    | (Ok a, w') => f a w'
    | (Panic p, w') => (Panic p, w')
    end.

Definition panic {A} (p : panic_value) : M A := fun w => (Panic p, w).

Declare Scope go_scope.
Delimit Scope go_scope with go.
Notation "x <- m ;; k" := (bind m (fun x => k))
  (at level 61, m at next level, right associativity) : go_scope.
Notation "' pat <- m ;; k" := (bind m (fun x => match x with pat => k end))
  (at level 61, pat pattern, m at next level, right associativity) : go_scope.
Notation "m ;; k" := (bind m (fun _ => k))
  (at level 61, right associativity) : go_scope.
Local Open Scope go_scope.

Definition emit (e : Event) : M unit :=
  fun w => (Ok tt, mkWorld (mem w) (rng w) (rng_calls w) (e :: log w)).

Definition load (s : slice) : M (list byte) :=
  fun w => (Ok (read_slice (mem w) s), w).

(** A write of [src] through the slice [dst], with the semantics of
    [copy(dst, src)]. *)
Definition store (dst : slice) (src : list byte) : M unit :=
  fun w => (Ok tt, mkWorld (write_slice (mem w) dst src) (rng w)
                     (rng_calls w) (log w)).

(** Dereference of a pointer that may be nil. *)
Definition deref {A} (p : option A) : M A :=
  match p with
  | Some a => ret a
  | None => panic PanicNilDeref
  end.

Definition isNil {A} (p : option A) : bool :=
  match p with Some _ => false | None => true end.

(** ** Package [io] and [crypto/rand] *)

(** An [io.Reader] handed to the library: the process-wide source or a
    reader of the caller, given by the outcome of the one read made of it. *)
Inductive Reader : Type :=
| cryptoRand_Reader
| ReaderOf (out : entropy).

Definition fill (f : nat -> byte) (n : nat) : list byte := map f (seq 0 n).

(** [io.ReadFull(r, buf)]: the new contents of [buf] and the error. *)
Definition io_ReadFull (r : Reader) (buf : list byte)
  : M (list byte * option error) :=
  match r with
  | cryptoRand_Reader =>
      fun w =>
        match rng w (rng_calls w) with
        | Fill f => (Ok (fill f (length buf), None), entropy_read w)
        | Fail e => (Ok (buf, Some e), entropy_read w)
        end
  | ReaderOf out =>
      emit EvEntropy ;;
      match out with
      | Fill f => ret (fill f (length buf), None)
      | Fail e => ret (buf, Some e)
      end
  end.

(** [crypto/rand.Read(b)] is [io.ReadFull(rand.Reader, b)]. *)
Definition cryptoRand_Read (b : list byte) : M (list byte * option error) :=
  io_ReadFull cryptoRand_Reader b.

(** The outcome of the one read [GenerateKeyPair] makes of its reader
    ([None] is the nil reader, replaced by the process-wide source), and
    the world after that read. *)
Definition reader_outcome (rand : option Reader) (w : World) : entropy :=
  match rand with
  | Some (ReaderOf out) => out
  | _ => rng w (rng_calls w)
  end.

Definition after_read (rand : option Reader) (w : World) : World :=
  match rand with
  | Some (ReaderOf _) => logged [EvEntropy] w
  | _ => entropy_read w
  end.

(** ** Package [internal/sha3] *)
Module sha3.

(** The sponge behind the three constructors: [squeeze k p n] is the
    first [n] output bytes after absorbing [p]. *)
Class Sponge : Type := {
  squeeze : Kind -> list byte -> nat -> list byte;
  squeeze_length : forall k p n, length (squeeze k p n) = n
}.

Record State : Type := mkState { kind : Kind; absorbed : list byte }.

Definition New256 : State := mkState SHA3_256 [].
Definition New512 : State := mkState SHA3_512 [].
Definition NewShake256 : State := mkState SHAKE256 [].

(** [h.Write(p)] *)
Definition Write (h : State) (p : list byte) : M State :=
  emit (EvAbsorb (kind h)) ;;
  ret (mkState (kind h) (absorbed h ++ p)).

(** [h.Read(out)] with [len(out) = n]: the bytes written to [out].  The
    targets that are arrays or halves of arrays have a static length. *)
Definition Read `{Sponge} (h : State) (n : nat) : M (list byte) :=
  emit (EvSqueeze (kind h)) ;;
  ret (squeeze (kind h) (absorbed h) n).

(** [h.Reset()] *)
Definition Reset (h : State) : State := mkState (kind h) [].

End sha3.

(** ** Package [pke/kyber/...], imported as [cpapke] *)
Module cpapke.

(** The CPA-secure scheme, with the sizes its Go types and length
    checks fix.  Methods with an output buffer are given by the bytes
    they write. *)
Class Scheme : Type := {
  PublicKey : Type;
  PrivateKey : Type;
  KeySeedSize : nat;
  CiphertextSize : nat;
  PublicKeySize : nat;
  PrivateKeySize : nat;
  derive : list byte -> PublicKey * PrivateKey;
  deriveMLKEM : list byte -> PublicKey * PrivateKey;
  encrypt : PublicKey -> list byte -> list byte -> list byte;
  decrypt : PrivateKey -> list byte -> list byte;
  packPublic : PublicKey -> list byte;
  packPrivate : PrivateKey -> list byte;
  unpackPublic : list byte -> PublicKey;
  unpackPublicMLKEM : list byte -> PublicKey * option error;
  unpackPrivate : list byte -> PrivateKey;
  equalPrivate : PrivateKey -> PrivateKey -> bool;
  encrypt_length : forall pk pt seed, length (encrypt pk pt seed) = CiphertextSize;
  decrypt_length : forall sk ct, length (decrypt sk ct) = 32;
  packPublic_length : forall pk, length (packPublic pk) = PublicKeySize;
  packPrivate_length : forall sk, length (packPrivate sk) = PrivateKeySize
}.

Section Methods.
Context `{Scheme}.

(** [cpapke.NewKeyFromSeed(seed)] *)
Definition NewKeyFromSeed (seed : list byte) : M (PublicKey * PrivateKey) :=
  emit EvKeyGen ;; ret (derive seed).

(** [cpapke.NewKeyFromSeedMLKEM(seed)] *)
Definition NewKeyFromSeedMLKEM (seed : list byte)
  : M (PublicKey * PrivateKey) :=
  emit EvKeyGen ;; ret (deriveMLKEM seed).

(** [pk.EncryptTo(ct, pt, seed)]: the bytes written to [ct]. *)
Definition EncryptTo (pk : PublicKey) (pt seed : list byte)
  : M (list byte) :=
  emit EvEncrypt ;; ret (encrypt pk pt seed).

(** [sk.DecryptTo(pt, ct)]: the bytes written to [pt]. *)
Definition DecryptTo (sk : PrivateKey) (ct : list byte) : M (list byte) :=
  emit EvDecrypt ;; ret (decrypt sk ct).
End Methods.

End cpapke.

(** ** The template [pkg.templ.go] *)
Section KEM.

Context `{SP : sha3.Sponge} `{PKE : cpapke.Scheme}.

(** The template flag [.NIST]: [true] generates ML-KEM (FIPS 203),
    [false] generates round-3 Kyber. *)
Variable NIST : bool.

Definition KeySeedSize : nat := cpapke.KeySeedSize + 32.
Definition EncapsulationSeedSize : nat := 32.
Definition SharedKeySize : nat := 32.
Definition CiphertextSize : nat := cpapke.CiphertextSize.
Definition PublicKeySize : nat := cpapke.PublicKeySize.
Definition PrivateKeySize : nat :=
  cpapke.PrivateKeySize + cpapke.PublicKeySize + 64.

(** [type PublicKey struct { pk *cpapke.PublicKey; hpk [32]byte }] *)
Record PublicKey : Type := mkPublicKey {
  pub_pk : option cpapke.PublicKey;
  pub_hpk : list byte
}.

(** [type PrivateKey struct { sk *cpapke.PrivateKey;
    pk *cpapke.PublicKey; hpk [32]byte; z [32]byte }] *)
Record PrivateKey : Type := mkPrivateKey {
  priv_sk : option cpapke.PrivateKey;
  priv_pk : option cpapke.PublicKey;
  priv_hpk : list byte;
  priv_z : list byte
}.

(** The zero values [var pk PublicKey] and [var sk PrivateKey]. *)
Definition PublicKey_zero : PublicKey := mkPublicKey None (make 32).
Definition PrivateKey_zero : PrivateKey :=
  mkPrivateKey None None (make 32) (make 32).

(** What the array types [[32]byte] guarantee. *)
Definition PublicKey_wf (pk : PublicKey) : Prop := length (pub_hpk pk) = 32.
Definition PrivateKey_wf (sk : PrivateKey) : Prop :=
  length (priv_hpk sk) = 32 /\ length (priv_z sk) = 32.

(** The three uses of the sponge: [sha3.New256] and [sha3.New512] read
    for their digest length, [sha3.NewShake256] read for [n] bytes. *)
Definition Hash256 (p : list byte) : list byte := sha3.squeeze SHA3_256 p 32.
Definition Hash512 (p : list byte) : list byte := sha3.squeeze SHA3_512 p 64.
Definition Shake256 (p : list byte) (n : nat) : list byte :=
  sha3.squeeze SHAKE256 p n.

(** Values of the interfaces [kem.PublicKey] and [kem.PrivateKey]: a key
    of this package or a key of another scheme. *)
Inductive kem_PublicKey : Type :=
| ThisPublicKey (pk : PublicKey)
| ForeignPublicKey.
Inductive kem_PrivateKey : Type :=
| ThisPrivateKey (sk : PrivateKey)
| ForeignPrivateKey.

(** [func NewKeyFromSeed(seed []byte)], returning pointers to a fresh
    public and private key. *)
Definition NewKeyFromSeed (seed : list byte) : M (PublicKey * PrivateKey) :=
  let sk := PrivateKey_zero in
  let pk := PublicKey_zero in
  if negb (length seed =? KeySeedSize) then
    panic (PanicString "seed must be of length KeySeedSize")
  else
    '(ppk, psk) <- (if NIST
                    then cpapke.NewKeyFromSeedMLKEM
                           (firstn cpapke.KeySeedSize seed)
                    else cpapke.NewKeyFromSeed
                           (firstn cpapke.KeySeedSize seed)) ;;
    let pk := mkPublicKey (Some ppk) (pub_hpk pk) in
    let sk := mkPrivateKey (Some psk) (priv_pk sk) (priv_hpk sk) (priv_z sk) in
    let sk := mkPrivateKey (priv_sk sk) (pub_pk pk) (priv_hpk sk) (priv_z sk) in
    let sk := mkPrivateKey (priv_sk sk) (priv_pk sk) (priv_hpk sk)
                (copy (priv_z sk) (skipn cpapke.KeySeedSize seed)) in
    (* Compute H(pk) *)
    p <- deref (priv_pk sk) ;;
    let ppk := copy (make cpapke.PublicKeySize) (cpapke.packPublic p) in
    let h := sha3.New256 in
    h <- sha3.Write h ppk ;;
    d <- sha3.Read h 32 ;;
    let sk := mkPrivateKey (priv_sk sk) (priv_pk sk) d (priv_z sk) in
    let pk := mkPublicKey (pub_pk pk) (copy (pub_hpk pk) (priv_hpk sk)) in
    ret (pk, sk).

(** [func GenerateKeyPair(rand io.Reader)], returning the two key
    pointers and an error. *)
Definition GenerateKeyPair (rand : option Reader)
  : M (option PublicKey * option PrivateKey * option error) :=
  let seed := make KeySeedSize in
  let rand := match rand with
              | None => cryptoRand_Reader
              | Some r => r
              end in
  '(seed, err) <- io_ReadFull rand seed ;;
  match err with
  | Some e => ret (None, None, Some e)
  | None =>
      '(pk, sk) <- NewKeyFromSeed seed ;;
      ret (Some pk, Some sk, None)
  end.

(** [func (pk *PublicKey) EncapsulateTo(ct, ss []byte, seed []byte)].
    [ct] and [ss] are written, [seed] is only read (before any write)
    and is passed as its contents; [None] is the nil slice. *)
Definition EncapsulateTo (pk : PublicKey) (ct ss : slice)
           (seed : option (list byte)) : M unit :=
  seed <- match seed with
          | None =>
              let seed := make EncapsulationSeedSize in
              '(seed, err) <- cryptoRand_Read seed ;;
              match err with
              | Some e => panic (PanicError e)
              | None => ret seed
              end
          | Some seed =>
              if negb (length seed =? EncapsulationSeedSize) then
                panic (PanicString
                         "seed must be of length EncapsulationSeedSize")
              else ret seed
          end ;;
  if negb (len ct =? CiphertextSize) then
    panic (PanicString "ct must be of length CiphertextSize")
  else if negb (len ss =? SharedKeySize) then
    panic (PanicString "ss must be of length SharedKeySize")
  else
    let m := make 32 in
    if NIST then
      let m := copy m seed in
      (* (K', r) = G(m ‖ H(pk)) *)
      let g := sha3.New512 in
      g <- sha3.Write g m ;;
      g <- sha3.Write g (pub_hpk pk) ;;
      kr <- sha3.Read g 64 ;;
      (* c = Kyber.CPAPKE.Enc(pk, m, r) *)
      p <- deref (pub_pk pk) ;;
      c <- cpapke.EncryptTo p m (skipn 32 kr) ;;
      store ct c ;;
      store ss (firstn SharedKeySize kr)
    else
      (* m = H(seed), the hash of shame *)
      let h := sha3.New256 in
      h <- sha3.Write h seed ;;
      m <- sha3.Read h 32 ;;
      (* (K', r) = G(m ‖ H(pk)) *)
      let g := sha3.New512 in
      g <- sha3.Write g m ;;
      g <- sha3.Write g (pub_hpk pk) ;;
      kr <- sha3.Read g 64 ;;
      (* c = Kyber.CPAPKE.Enc(pk, m, r) *)
      p <- deref (pub_pk pk) ;;
      c <- cpapke.EncryptTo p m (skipn 32 kr) ;;
      store ct c ;;
      (* Compute H(c) and put in second slot of kr, which will be (K', H(c)). *)
      let h := sha3.Reset h in
      c <- load (sub ct 0 CiphertextSize) ;;
      h <- sha3.Write h c ;;
      d <- sha3.Read h 32 ;;
      let kr := firstn 32 kr ++ d in
      (* K = KDF(K' ‖ H(c)) *)
      let kdf := sha3.NewShake256 in
      kdf <- sha3.Write kdf kr ;;
      d <- sha3.Read kdf SharedKeySize ;;
      store (sub ss 0 SharedKeySize) d.

(** A call of [subtle.ConstantTimeCompare]: recorded, then its value. *)
Definition subtle_ConstantTimeCompare (x y : list byte) : M Z :=
  emit EvConstantTimeCompare ;;
  ret (subtle.ConstantTimeCompare x y).

(** A call of [subtle.ConstantTimeCopy]: recorded, then the new contents
    of [x], or its panic. *)
Definition subtle_ConstantTimeCopy (v : Z) (x y : list byte)
  : M (list byte) :=
  emit EvConstantTimeCopy ;;
  match subtle.ConstantTimeCopy v x y with
  | Some x' => ret x'
  | None => panic (PanicString "subtle: slices have different lengths")
  end.

(** [func (sk *PrivateKey) DecapsulateTo(ss, ct []byte)].
    [ss] is written; [ct] is only read, and every read precedes the
    write to [ss], so it is passed as its contents. *)
Definition DecapsulateTo (sk : PrivateKey) (ss : slice) (ct : list byte)
  : M unit :=
  if negb (length ct =? CiphertextSize) then
    panic (PanicString "ct must be of length CiphertextSize")
  else if negb (len ss =? SharedKeySize) then
    panic (PanicString "ss must be of length SharedKeySize")
  else
    (* m' = Kyber.CPAPKE.Dec(sk, ct) *)
    s <- deref (priv_sk sk) ;;
    m2 <- cpapke.DecryptTo s ct ;;
    (* (K'', r') = G(m' ‖ H(pk)) *)
    let g := sha3.New512 in
    g <- sha3.Write g m2 ;;
    g <- sha3.Write g (priv_hpk sk) ;;
    kr2 <- sha3.Read g 64 ;;
    (* c' = Kyber.CPAPKE.Enc(pk, m', r') *)
    p <- deref (priv_pk sk) ;;
    ct2 <- cpapke.EncryptTo p m2 (skipn 32 kr2) ;;
    if NIST then
      (* Compute shared secret in case of rejection: ss₂ = PRF(z ‖ c) *)
      let prf := sha3.NewShake256 in
      prf <- sha3.Write prf (priv_z sk) ;;
      prf <- sha3.Write prf (firstn CiphertextSize ct) ;;
      ss2 <- sha3.Read prf SharedKeySize ;;
      (* Set ss2 to the real shared secret if c = c'. *)
      v <- subtle_ConstantTimeCompare ct ct2 ;;
      ss2 <- subtle_ConstantTimeCopy
               v
               ss2
               (firstn SharedKeySize kr2) ;;
      store ss ss2
    else
      (* Compute H(c) and put in second slot of kr2, which will be (K'', H(c)). *)
      let h := sha3.New256 in
      h <- sha3.Write h (firstn CiphertextSize ct) ;;
      d <- sha3.Read h 32 ;;
      let kr2 := firstn 32 kr2 ++ d in
      (* Replace K'' by  z in the first slot of kr2 if c ≠ c'. *)
      v <- subtle_ConstantTimeCompare ct ct2 ;;
      k <- subtle_ConstantTimeCopy
             (1 - v)
             (firstn 32 kr2)
             (priv_z sk) ;;
      let kr2 := k ++ skipn 32 kr2 in
      (* K = KDF(K''/z, H(c)) *)
      let kdf := sha3.NewShake256 in
      kdf <- sha3.Write kdf kr2 ;;
      d <- sha3.Read kdf (len ss) ;;
      store ss d.

(** [func (sk *PrivateKey) Pack(buf []byte)] *)
Definition PrivateKey_Pack (sk : PrivateKey) (buf : slice) : M unit :=
  if negb (len buf =? PrivateKeySize) then
    panic (PanicString "buf must be of length PrivateKeySize")
  else
    s <- deref (priv_sk sk) ;;
    store (sub buf 0 cpapke.PrivateKeySize) (cpapke.packPrivate s) ;;
    let buf := sub buf cpapke.PrivateKeySize (len buf) in
    p <- deref (priv_pk sk) ;;
    store (sub buf 0 cpapke.PublicKeySize) (cpapke.packPublic p) ;;
    let buf := sub buf cpapke.PublicKeySize (len buf) in
    store buf (priv_hpk sk) ;;
    let buf := sub buf 32 (len buf) in
    store buf (priv_z sk).

(** [func (sk *PrivateKey) Unpack(buf []byte)], with result [error] in
    the standardized variant and no result in the pre-standard one
    (modelled as the nil error).  The receiver is updated in place: the
    call returns its new value.  [buf] is only read. *)
Definition PrivateKey_Unpack (sk : PrivateKey) (buf : list byte)
  : M (PrivateKey * option error) :=
  if NIST then
    if negb (length buf =? PrivateKeySize) then
      ret (sk, Some ErrPrivKeySize)
    else
      let sk := mkPrivateKey
                  (Some (cpapke.unpackPrivate
                           (firstn cpapke.PrivateKeySize buf)))
                  (priv_pk sk) (priv_hpk sk) (priv_z sk) in
      let buf := skipn cpapke.PrivateKeySize buf in
      let sk := mkPrivateKey (priv_sk sk)
                  (Some (cpapke.unpackPublic
                           (firstn cpapke.PublicKeySize buf)))
                  (priv_hpk sk) (priv_z sk) in
      let h := sha3.New256 in
      h <- sha3.Write h (firstn cpapke.PublicKeySize buf) ;;
      hpk <- sha3.Read h 32 ;;
      let buf := skipn cpapke.PublicKeySize buf in
      let sk := mkPrivateKey (priv_sk sk) (priv_pk sk)
                  (copy (priv_hpk sk) (firstn 32 buf)) (priv_z sk) in
      let sk := mkPrivateKey (priv_sk sk) (priv_pk sk) (priv_hpk sk)
                  (copy (priv_z sk) (skipn 32 buf)) in
      if negb (bytes_Equal hpk (priv_hpk sk)) then
        ret (sk, Some ErrPrivKey)
      else ret (sk, None)
  else
    if negb (length buf =? PrivateKeySize) then
      panic (PanicString "buf must be of length PrivateKeySize")
    else
      let sk := mkPrivateKey
                  (Some (cpapke.unpackPrivate
                           (firstn cpapke.PrivateKeySize buf)))
                  (priv_pk sk) (priv_hpk sk) (priv_z sk) in
      let buf := skipn cpapke.PrivateKeySize buf in
      let sk := mkPrivateKey (priv_sk sk)
                  (Some (cpapke.unpackPublic
                           (firstn cpapke.PublicKeySize buf)))
                  (priv_hpk sk) (priv_z sk) in
      let buf := skipn cpapke.PublicKeySize buf in
      let sk := mkPrivateKey (priv_sk sk) (priv_pk sk)
                  (copy (priv_hpk sk) (firstn 32 buf)) (priv_z sk) in
      let sk := mkPrivateKey (priv_sk sk) (priv_pk sk) (priv_hpk sk)
                  (copy (priv_z sk) (skipn 32 buf)) in
      ret (sk, None).

(** [func (pk *PublicKey) Pack(buf []byte)] *)
Definition PublicKey_Pack (pk : PublicKey) (buf : slice) : M unit :=
  if negb (len buf =? PublicKeySize) then
    panic (PanicString "buf must be of length PublicKeySize")
  else
    p <- deref (pub_pk pk) ;;
    store buf (cpapke.packPublic p).

(** [func (pk *PublicKey) Unpack(buf []byte)], with result [error] in
    the standardized variant only, as for the private key. *)
Definition PublicKey_Unpack (pk : PublicKey) (buf : list byte)
  : M (PublicKey * option error) :=
  if NIST then
    if negb (length buf =? PublicKeySize) then
      ret (pk, Some ErrPubKeySize)
    else
      let '(p, err) := cpapke.unpackPublicMLKEM buf in
      let pk := mkPublicKey (Some p) (pub_hpk pk) in
      match err with
      | Some e => ret (pk, Some e)
      | None =>
          (* Compute cached H(pk) *)
          let h := sha3.New256 in
          h <- sha3.Write h buf ;;
          d <- sha3.Read h 32 ;;
          let pk := mkPublicKey (pub_pk pk) d in
          ret (pk, None)
      end
  else
    if negb (length buf =? PublicKeySize) then
      panic (PanicString "buf must be of length PublicKeySize")
    else
      let pk := mkPublicKey (Some (cpapke.unpackPublic buf)) (pub_hpk pk) in
      (* Compute cached H(pk) *)
      let h := sha3.New256 in
      h <- sha3.Write h buf ;;
      d <- sha3.Read h 32 ;;
      let pk := mkPublicKey (pub_pk pk) d in
      ret (pk, None).

(** [func (sk *PrivateKey) Equal(other kem.PrivateKey) bool] *)
Definition PrivateKey_Equal (sk : PrivateKey) (other : kem_PrivateKey)
  : M bool :=
  match other with
  | ForeignPrivateKey => ret false
  | ThisPrivateKey oth =>
      if isNil (priv_pk sk) && isNil (priv_pk oth) then ret true
      else if isNil (priv_pk sk) || isNil (priv_pk oth) then ret false
      else if negb (bytes_Equal (priv_hpk sk) (priv_hpk oth)) then ret false
      else
        (* the right operand of [||], evaluated when the left is false *)
        v <- subtle_ConstantTimeCompare (priv_z sk) (priv_z oth) ;;
        if negb (v =? 1)%Z then ret false
        else
          a <- deref (priv_sk sk) ;;
          b <- deref (priv_sk oth) ;;
          ret (cpapke.equalPrivate a b)
  end.

(** [func (pk *PublicKey) Equal(other kem.PublicKey) bool] *)
Definition PublicKey_Equal (pk : PublicKey) (other : kem_PublicKey)
  : M bool :=
  match other with
  | ForeignPublicKey => ret false
  | ThisPublicKey oth =>
      if isNil (pub_pk pk) && isNil (pub_pk oth) then ret true
      else if isNil (pub_pk pk) || isNil (pub_pk oth) then ret false
      else ret (bytes_Equal (pub_hpk pk) (pub_hpk oth))
  end.

(** [func (sk *PrivateKey) Public() kem.PublicKey] *)
Definition Public (sk : PrivateKey) : PublicKey :=
  let pk := PublicKey_zero in
  let pk := mkPublicKey (priv_pk sk) (pub_hpk pk) in
  mkPublicKey (pub_pk pk) (copy (pub_hpk pk) (priv_hpk sk)).

(** *** What the methods compute, in the specification's terms *)

(** The generator the variant uses. *)
Definition keygen (seed : list byte) : cpapke.PublicKey * cpapke.PrivateKey :=
  if NIST then cpapke.deriveMLKEM seed else cpapke.derive seed.

(** The key pair [NewKeyFromSeed] returns for a seed of length
    [KeySeedSize]. *)
Definition KeyPairOf (seed : list byte) : PublicKey * PrivateKey :=
  let '(ppk, psk) := keygen (firstn cpapke.KeySeedSize seed) in
  let hpk := Hash256 (cpapke.packPublic ppk) in
  (mkPublicKey (Some ppk) hpk,
   mkPrivateKey (Some psk) (Some ppk) hpk (skipn cpapke.KeySeedSize seed)).

(** Encapsulation as the specification words it: the message, the digest
    [(K', r)], the ciphertext and the shared key. *)
Definition Encapsulate_spec (p : cpapke.PublicKey) (hpk seed : list byte)
  : list byte * list byte :=
  let m := if NIST then seed else Hash256 seed in
  let kr := Hash512 (m ++ hpk) in
  let c := cpapke.encrypt p m (skipn 32 kr) in
  let K' := firstn SharedKeySize kr in
  (c, if NIST then K' else Shake256 (K' ++ Hash256 c) SharedKeySize).

(** Decapsulation as the specification words it: decrypt, re-derive,
    re-encrypt, then accept or reject. *)
Definition Decapsulate_spec (s : cpapke.PrivateKey) (p : cpapke.PublicKey)
           (hpk z ct : list byte) : list byte :=
  let m' := cpapke.decrypt s ct in
  let kr := Hash512 (m' ++ hpk) in
  let ct' := cpapke.encrypt p m' (skipn 32 kr) in
  if NIST then
    if bytes_Equal ct ct' then firstn SharedKeySize kr
    else Shake256 (z ++ ct) SharedKeySize
  else
    let first := if bytes_Equal ct ct' then firstn 32 kr else z in
    Shake256 (first ++ Hash256 ct) SharedKeySize.

(** The collaborator calls of one encapsulation and of one decapsulation,
    in order. *)
Definition encaps_events : list Event :=
  if NIST then
    [EvAbsorb SHA3_512; EvAbsorb SHA3_512; EvSqueeze SHA3_512; EvEncrypt]
  else
    [EvAbsorb SHA3_256; EvSqueeze SHA3_256;
     EvAbsorb SHA3_512; EvAbsorb SHA3_512; EvSqueeze SHA3_512; EvEncrypt;
     EvAbsorb SHA3_256; EvSqueeze SHA3_256;
     EvAbsorb SHAKE256; EvSqueeze SHAKE256].

Definition decaps_events : list Event :=
  if NIST then
    [EvDecrypt;
     EvAbsorb SHA3_512; EvAbsorb SHA3_512; EvSqueeze SHA3_512; EvEncrypt;
     EvAbsorb SHAKE256; EvAbsorb SHAKE256; EvSqueeze SHAKE256;
     EvConstantTimeCompare; EvConstantTimeCopy]
  else
    [EvDecrypt;
     EvAbsorb SHA3_512; EvAbsorb SHA3_512; EvSqueeze SHA3_512; EvEncrypt;
     EvAbsorb SHA3_256; EvSqueeze SHA3_256;
     EvConstantTimeCompare; EvConstantTimeCopy;
     EvAbsorb SHAKE256; EvSqueeze SHAKE256].

(** The assumption on the encryption scheme under which the KEM is
    correct: decryption inverts encryption for this key pair, on 32-byte
    messages and 32-byte coins. *)
Definition DecryptInvertsEncrypt (kp : cpapke.PublicKey * cpapke.PrivateKey)
  : Prop :=
  forall m r, length m = 32 -> length r = 32 ->
    cpapke.decrypt (snd kp) (cpapke.encrypt (fst kp) m r) = m.

(** The fields [PrivateKey.Unpack] reads from a buffer laid out as
    [PKE-private ‖ PKE-public ‖ hpk ‖ z]. *)
Definition packed_sk (buf : list byte) : list byte :=
  firstn cpapke.PrivateKeySize buf.
Definition packed_pk (buf : list byte) : list byte :=
  firstn cpapke.PublicKeySize (skipn cpapke.PrivateKeySize buf).
Definition packed_hpk (buf : list byte) : list byte :=
  firstn 32 (skipn cpapke.PublicKeySize (skipn cpapke.PrivateKeySize buf)).
Definition packed_z (buf : list byte) : list byte :=
  skipn 32 (skipn cpapke.PublicKeySize (skipn cpapke.PrivateKeySize buf)).

Definition PrivateKey_of_bytes (buf : list byte) : PrivateKey :=
  mkPrivateKey (Some (cpapke.unpackPrivate (packed_sk buf)))
               (Some (cpapke.unpackPublic (packed_pk buf)))
               (packed_hpk buf) (packed_z buf).

(** The invariant of the cached hash: the key holds a public key, and
    [hpk] is the hash of its packed encoding. *)
Definition hpk_cached (pk : option cpapke.PublicKey) (hpk : list byte)
  : Prop :=
  exists p, pk = Some p /\ hpk = Hash256 (cpapke.packPublic p).

(** Assumptions on the encryption scheme's serialization, for one key:
    unpacking the packed public key gives the key back (and, in the
    standardized variant, passes the normalization check); unpacking the
    packed private key gives a key [Equal] to it. *)
Definition PublicRoundTrip (p : cpapke.PublicKey) : Prop :=
  if NIST
  then cpapke.unpackPublicMLKEM (cpapke.packPublic p) = (p, None)
  else cpapke.unpackPublic (cpapke.packPublic p) = p.

Definition PrivateRoundTrip (s : cpapke.PrivateKey) : Prop :=
  cpapke.equalPrivate (cpapke.unpackPrivate (cpapke.packPrivate s)) s = true.

End KEM.

(** ** A small instance

    A sponge and an encryption scheme simple enough to run, used to
    evaluate the template on concrete inputs: the sponge is a checksum,
    the scheme masks the message with the first key byte and appends two
    bytes of its coins.  Keys are two bytes, ciphertexts 34. *)
Module Toy.

Definition byte_xor (a b : byte) : byte :=
  byte_of_Z (Z.lxor (byte_to_Z a) (byte_to_Z b)).

Definition checksum (init : Z) (p : list byte) : Z :=
  fold_left (fun acc b => (acc * 33 + byte_to_Z b) mod 65521)%Z p init.

Definition tag (k : Kind) : Z :=
  match k with SHA3_256 => 1 | SHA3_512 => 2 | SHAKE256 => 3 end.

Definition squeeze (k : Kind) (p : list byte) (n : nat) : list byte :=
  map (fun i => byte_of_Z (checksum (tag k) p * (Z.of_nat i + 1) + Z.of_nat i))
      (seq 0 n).

Lemma toy_squeeze_length (k : Kind) (p : list byte) (n : nat) :
  length (squeeze k p n) = n.
Proof. unfold squeeze. now rewrite length_map, length_seq. Qed.

#[export] Instance sponge : sha3.Sponge :=
  {| sha3.squeeze := squeeze;
     sha3.squeeze_length := toy_squeeze_length |}.

Definition derive (seed : list byte) : list byte * list byte :=
  let k := copy (make 2) seed in (k, k).

Definition deriveMLKEM (seed : list byte) : list byte * list byte :=
  let k := copy (make 2) (rev seed) in (k, k).

Definition encrypt (pk pt coins : list byte) : list byte :=
  copy (make 34) (map (byte_xor (hd x00 pk)) pt ++ firstn 2 coins).

Definition decrypt (sk ct : list byte) : list byte :=
  copy (make 32) (map (byte_xor (hd x00 sk)) (firstn 32 ct)).

Definition pack (k : list byte) : list byte := copy (make 2) k.

Definition unpack (buf : list byte) : list byte := buf.

(** An encoding whose first byte is [0xff] is not normalized. *)
Definition unpackMLKEM (buf : list byte) : list byte * option error :=
  (buf, if Byte.eqb (hd x00 buf) xff
        then Some (ErrOther "public key not normalized") else None).

Lemma toy_fixed_length (n : nat) (src : list byte) :
  length (copy (make n) src) = n.
Proof.
  unfold copy, make.
  rewrite length_app, length_firstn, length_skipn, repeat_length. lia.
Qed.

#[export] Instance pke : cpapke.Scheme :=
  {| cpapke.PublicKey := list byte;
     cpapke.PrivateKey := list byte;
     cpapke.KeySeedSize := 2;
     cpapke.CiphertextSize := 34;
     cpapke.PublicKeySize := 2;
     cpapke.PrivateKeySize := 2;
     cpapke.derive := derive;
     cpapke.deriveMLKEM := deriveMLKEM;
     cpapke.encrypt := encrypt;
     cpapke.decrypt := decrypt;
     cpapke.packPublic := pack;
     cpapke.packPrivate := pack;
     cpapke.unpackPublic := unpack;
     cpapke.unpackPublicMLKEM := unpackMLKEM;
     cpapke.unpackPrivate := unpack;
     cpapke.equalPrivate := bytes_Equal;
     cpapke.encrypt_length := fun pk pt coins => toy_fixed_length 34 _;
     cpapke.decrypt_length := fun sk ct => toy_fixed_length 32 _;
     cpapke.packPublic_length := fun pk => toy_fixed_length 2 pk;
     cpapke.packPrivate_length := fun sk => toy_fixed_length 2 sk |}.

(** A world whose backing arrays hold 100 zero bytes each and whose
    entropy source works; and one whose entropy source fails. *)
Definition world : World :=
  {| mem := fun _ => make 100;
     rng := fun k => Fill (fun i => byte_of_Z (Z.of_nat (7 * k + i)));
     rng_calls := 0;
     log := [] |}.

Definition starved : World :=
  {| mem := fun _ => make 100;
     rng := fun _ => Fail (ErrOther "entropy source failed");
     rng_calls := 0;
     log := [] |}.

(** Three disjoint caller buffers. *)
Definition ct_buf : slice := {| base := 0; off := 0; len := 34 |}.
Definition ss_buf : slice := {| base := 1; off := 0; len := 32 |}.
Definition ss_buf2 : slice := {| base := 2; off := 4; len := 32 |}.
Definition key_buf : slice := {| base := 3; off := 0; len := 68 |}.
Definition pub_buf : slice := {| base := 4; off := 0; len := 2 |}.

(** The seeds [0, 1, 2, ...] of the two seed lengths. *)
Definition counting (n : nat) : list byte :=
  map (fun i => byte_of_Z (Z.of_nat i)) (seq 0 n).

(** The key pair of each variant for the seed 0, 1, ..., 33, and the
    encryption-scheme key inside it. *)
Definition keys (nist : bool) : PublicKey * PrivateKey :=
  KeyPairOf nist (counting 34).

Definition inner (nist : bool) : list byte :=
  if nist then [x01; x00] else [x00; x01].

(** The round trip of both keys through [Pack] and [Unpack], on the key
    pair of the variant. *)
Definition round_trip (nist : bool) : Prop :=
  exists pk sk w1,
    NewKeyFromSeed nist (counting 34) world = (Ok (pk, sk), w1)
    /\ (exists w2 w3 sk',
           PrivateKey_Pack sk key_buf w1 = (Ok tt, w2)
           /\ PrivateKey_Unpack nist PrivateKey_zero
                (read_slice (mem w2) key_buf) w2 = (Ok (sk', None), w3)
           /\ PrivateKey_Equal sk' (ThisPrivateKey sk) w3
              = (Ok true, logged [EvConstantTimeCompare] w3))
    /\ (exists w2 w3 pk',
           PublicKey_Pack pk pub_buf w1 = (Ok tt, w2)
           /\ PublicKey_Unpack nist PublicKey_zero
                (read_slice (mem w2) pub_buf) w2 = (Ok (pk', None), w3)
           /\ PublicKey_Equal pk' (ThisPublicKey pk) w3 = (Ok true, w3)
           /\ forall ct ss eseed w4,
                EncapsulateTo nist pk' ct ss eseed w4
                = EncapsulateTo nist pk ct ss eseed w4).

(** Every construction path run once: the two generators, and the two
    [Unpack] methods on fixed buffers. *)
Definition construction_paths (nist : bool) : Prop :=
    (exists pk sk w',
        NewKeyFromSeed nist (counting 34) world = (Ok (pk, sk), w')
        /\ hpk_cached (pub_pk pk) (pub_hpk pk)
        /\ hpk_cached (priv_pk sk) (priv_hpk sk))
    /\ (exists r w',
           GenerateKeyPair nist None world = (Ok r, w')
           /\ forall pk sk, r = (Some pk, Some sk, None) ->
                hpk_cached (pub_pk pk) (pub_hpk pk)
                /\ hpk_cached (priv_pk sk) (priv_hpk sk))
    /\ (exists pk' err w',
           PublicKey_Unpack nist PublicKey_zero [x01; x00] world
           = (Ok (pk', err), w')
           /\ (err = None ->
               exists p, pub_pk pk' = Some p
                         /\ pub_hpk pk' = Hash256 [x01; x00]
                         /\ (cpapke.packPublic p = [x01; x00] ->
                             hpk_cached (pub_pk pk') (pub_hpk pk'))))
    /\ (exists sk' err w',
           PrivateKey_Unpack true PrivateKey_zero (make 68) world
           = (Ok (sk', err), w')
           /\ (err = None ->
               exists p, priv_pk sk' = Some p
                         /\ priv_hpk sk' = Hash256 (packed_pk (make 68))
                         /\ (cpapke.packPublic p = packed_pk (make 68) ->
                             hpk_cached (priv_pk sk') (priv_hpk sk'))))
    /\ (exists sk',
           PrivateKey_Unpack false PrivateKey_zero (make 68) world
           = (Ok (sk', None), world)
           /\ priv_hpk sk' = packed_hpk (make 68)).

End Toy.

(** ** The scheme interface of the template

    The methods below the line [Boilerplate down below for the KEM scheme
    API] of [pkg.templ.go]: they allocate the buffers themselves and turn
    wrong sizes and wrong key types into error values. *)

(** What a method returns for a result of interface type [kem.PublicKey]
    or [kem.PrivateKey]: the nil interface, or an interface holding a
    pointer of this package, which may itself be the nil pointer. *)
Inductive returned (A : Type) : Type :=
| NilInterface
| Pointer (p : option A).
Arguments NilInterface {A}.
Arguments Pointer {A} p.

(** The world after [make([]byte, n)] (or the declaration of a local array
    [[n]byte] that is then sliced) put a fresh array of [n] zero bytes at
    the address [b]. *)
Definition allocated (b n : nat) (w : World) : World :=
  mkWorld (fun a => if (a =? b)%nat then make n else mem w a)
          (rng w) (rng_calls w) (log w).

(** [make([]byte, n)] for a slice that is handed to a method which writes
    through it; [b] is the address the allocator chooses. *)
Definition alloc (b n : nat) : M slice :=
  fun w => (Ok (mkSlice b 0 n), allocated b n w).

Section Facade.

Context `{SP : sha3.Sponge} `{PKE : cpapke.Scheme}.
Variable NIST : bool.

(** [func (sk *PrivateKey) MarshalBinary() ([]byte, error)]: the contents
    of the returned slice, and the error. *)
Definition PrivateKey_MarshalBinary (b : nat) (sk : PrivateKey)
  : M (list byte * option error) :=
  r <- alloc b PrivateKeySize ;;
  PrivateKey_Pack sk r ;;
  v <- load r ;;
  ret (v, None).

(** [func (pk *PublicKey) MarshalBinary() ([]byte, error)] *)
Definition PublicKey_MarshalBinary (b : nat) (pk : PublicKey)
  : M (list byte * option error) :=
  r <- alloc b PublicKeySize ;;
  PublicKey_Pack pk r ;;
  v <- load r ;;
  ret (v, None).

(** [func (s *scheme) GenerateKeyPair() (kem.PublicKey, kem.PrivateKey, error)]:
    the three results of [GenerateKeyPair(cryptoRand.Reader)], the two
    pointers converted to the interface types. *)
Definition scheme_GenerateKeyPair
  : M (returned PublicKey * returned PrivateKey * option error) :=
  '(pk, sk, err) <- GenerateKeyPair NIST (Some cryptoRand_Reader) ;;
  ret (Pointer pk, Pointer sk, err).

(** [func (s *scheme) DeriveKeyPair(seed []byte) (kem.PublicKey, kem.PrivateKey)] *)
Definition scheme_DeriveKeyPair (seed : list byte)
  : M (returned PublicKey * returned PrivateKey) :=
  if negb (length seed =? KeySeedSize) then
    panic (PanicError ErrSeedSize)
  else
    '(pk, sk) <- NewKeyFromSeed NIST seed ;;
    ret (Pointer (Some pk), Pointer (Some sk)).

(** [func (s *scheme) Encapsulate(pk kem.PublicKey) (ct, ss []byte, err error)].
    [b_ct] and [b_ss] are the addresses of the two arrays it makes; the
    results are the contents of the returned slices ([None] for nil).
    [ForeignPublicKey] is any [pk] whose type assertion fails. *)
Definition scheme_Encapsulate (b_ct b_ss : nat) (pk : kem_PublicKey)
  : M (option (list byte) * option (list byte) * option error) :=
  ct <- alloc b_ct CiphertextSize ;;
  ss <- alloc b_ss SharedKeySize ;;
  match pk with
  | ForeignPublicKey => ret (None, None, Some ErrTypeMismatch)
  | ThisPublicKey pub =>
      EncapsulateTo NIST pub ct ss None ;;
      c <- load ct ;;
      k <- load ss ;;
      ret (Some c, Some k, None)
  end.

(** [func (s *scheme) EncapsulateDeterministically(pk kem.PublicKey,
    seed []byte) (ct, ss []byte, err error)].  The nil seed has length 0. *)
Definition scheme_EncapsulateDeterministically (b_ct b_ss : nat)
           (pk : kem_PublicKey) (seed : option (list byte))
  : M (option (list byte) * option (list byte) * option error) :=
  let n := match seed with Some s => length s | None => 0 end in
  if negb (n =? EncapsulationSeedSize) then
    ret (None, None, Some ErrSeedSize)
  else
    ct <- alloc b_ct CiphertextSize ;;
    ss <- alloc b_ss SharedKeySize ;;
    match pk with
    | ForeignPublicKey => ret (None, None, Some ErrTypeMismatch)
    | ThisPublicKey pub =>
        EncapsulateTo NIST pub ct ss seed ;;
        c <- load ct ;;
        k <- load ss ;;
        ret (Some c, Some k, None)
    end.

(** [func (s *scheme) Decapsulate(sk kem.PrivateKey, ct []byte) ([]byte, error)] *)
Definition scheme_Decapsulate (b_ss : nat) (sk : kem_PrivateKey)
           (ct : list byte) : M (option (list byte) * option error) :=
  if negb (length ct =? CiphertextSize) then
    ret (None, Some ErrCiphertextSize)
  else
    match sk with
    | ForeignPrivateKey => ret (None, Some ErrTypeMismatch)
    | ThisPrivateKey priv =>
        ss <- alloc b_ss SharedKeySize ;;
        DecapsulateTo NIST priv ss ct ;;
        k <- load ss ;;
        ret (Some k, None)
    end.

(** [func (s *scheme) UnmarshalBinaryPublicKey(buf []byte) (kem.PublicKey, error)] *)
Definition scheme_UnmarshalBinaryPublicKey (buf : list byte)
  : M (returned PublicKey * option error) :=
  let r := PublicKey_zero in
  if NIST then
    '(r, err) <- PublicKey_Unpack NIST r buf ;;
    match err with
    | Some e => ret (NilInterface, Some e)
    | None => ret (Pointer (Some r), None)
    end
  else
    if negb (length buf =? PublicKeySize) then
      ret (NilInterface, Some ErrPubKeySize)
    else
      '(r, _) <- PublicKey_Unpack NIST r buf ;;
      ret (Pointer (Some r), None).

(** [func (s *scheme) UnmarshalBinaryPrivateKey(buf []byte) (kem.PrivateKey, error)] *)
Definition scheme_UnmarshalBinaryPrivateKey (buf : list byte)
  : M (returned PrivateKey * option error) :=
  if negb (length buf =? PrivateKeySize) then
    ret (NilInterface, Some ErrPrivKeySize)
  else
    let r := PrivateKey_zero in
    if NIST then
      '(r, err) <- PrivateKey_Unpack NIST r buf ;;
      match err with
      | Some e => ret (NilInterface, Some e)
      | None => ret (Pointer (Some r), None)
      end
    else
      '(r, _) <- PrivateKey_Unpack NIST r buf ;;
      ret (Pointer (Some r), None).

(** Two memories agree outside a slice: on every other array, and on the
    bytes of its array before and after it. *)
Definition same_outside (s : slice) (m m' : nat -> list byte) : Prop :=
  (forall b, b <> base s -> m' b = m b)
  /\ firstn (off s) (m' (base s)) = firstn (off s) (m (base s))
  /\ skipn (off s + len s) (m' (base s))
     = skipn (off s + len s) (m (base s)).

End Facade.

(** * Secret sharing

    [secretsharing/ss.go]: Shamir's secret sharing over the scalars of a
    group of prime order, with Feldman's commitments.  The packages [group]
    and [math/polynomial] it imports are not among the sources: they are
    parameters, with the operations [ss.go] calls. *)

(** ** Go's [uint] and [int]

    On a 64-bit platform [uint] arithmetic wraps modulo 2^64 and the
    conversions [int(u)] and [uint(i)] reinterpret the 64 bits. *)
Definition uint_add (a b : Z) : Z := ((a + b) mod 2 ^ 64)%Z.

Definition int_of_uint (u : Z) : Z :=
  (if u <? 2 ^ 63 then u else u - 2 ^ 64)%Z.

Definition uint_of_int (i : Z) : Z := (i mod 2 ^ 64)%Z.

(** [%v] of a [uint]: its decimal digits. *)
Definition decimal (u : Z) : string :=
  NilZero.string_of_uint (N.to_uint (Z.to_N u)).

(** The panics of the Go runtime carry an error value. *)
Definition runtime_error (msg : string) : panic_value :=
  PanicError (ErrOther ("runtime error: " ++ msg)).

(** [make([]T, n)] for [n] of type [uint]: the length of the new slice, or
    the panic for a length that is not an [int].  Exhaustion of memory is
    outside the model. *)
Definition makeslice (n : Z) : result nat :=
  if (n <? 2 ^ 63)%Z then Ok (Z.to_nat n)
  else Panic (runtime_error "makeslice: len out of range").

(** Package [group], as [ss.go] uses it: scalars and elements of one group
    of prime order, written additively, with its generator.  Scalars and
    elements are modelled by their values: [Copy] and [Set] are the
    identity, and an operation [r.Op(x, y)] that stores its result in the
    receiver [r] is the function of [x] and [y].  The laws are those of a
    group in which [MulGen(a)] is [a] times the generator; [IsEqual] need
    not be the equality of representations. *)
Module group.

Class Group : Type := {
  Scalar : Type;
  Element : Type;
  (** [g.NewScalar()]: the scalar zero *)
  NewScalar : Scalar;
  (** [s.SetUint64(n)] *)
  Scalar_SetUint64 : Z -> Scalar;
  Scalar_IsZero : Scalar -> bool;
  Scalar_Add : Scalar -> Scalar -> Scalar;
  Scalar_Mul : Scalar -> Scalar -> Scalar;
  (** [g.NewElement()] *)
  NewElement : Element;
  (** [e.MulGen(s)] *)
  Element_MulGen : Scalar -> Element;
  (** [e.Mul(x, s)]: [s] times [x] *)
  Element_Mul : Element -> Scalar -> Element;
  (** [e.Add(x, y)] *)
  Element_Add : Element -> Element -> Element;
  Element_IsEqual : Element -> Element -> bool;
  IsEqual_refl : forall a, Element_IsEqual a a = true;
  IsEqual_sym : forall a b,
    Element_IsEqual a b = true -> Element_IsEqual b a = true;
  IsEqual_trans : forall a b c,
    Element_IsEqual a b = true -> Element_IsEqual b c = true ->
    Element_IsEqual a c = true;
  Add_IsEqual : forall a a' b,
    Element_IsEqual a a' = true ->
    Element_IsEqual (Element_Add a b) (Element_Add a' b) = true;
  Mul_IsEqual : forall a a' x,
    Element_IsEqual a a' = true ->
    Element_IsEqual (Element_Mul a x) (Element_Mul a' x) = true;
  MulGen_Add : forall a b,
    Element_IsEqual (Element_Add (Element_MulGen a) (Element_MulGen b))
                    (Element_MulGen (Scalar_Add a b)) = true;
  MulGen_Mul : forall a x,
    Element_IsEqual (Element_Mul (Element_MulGen a) x)
                    (Element_MulGen (Scalar_Mul a x)) = true
}.

(** [s.Copy()] *)
Definition Scalar_Copy `{Group} (s : Scalar) : Scalar := s.

(** [e.Set(x)] *)
Definition Element_Set `{Group} (x : Element) : Element := x.

End group.

(** Package [math/polynomial], as [ss.go] uses it.  [Degree] is a [uint];
    [NewLagrangePolynomial] may panic. *)
Module polynomial.

Class Polynomials `{G : group.Group} : Type := {
  Polynomial : Type;
  Degree : Polynomial -> Z;
  Coefficient : Polynomial -> Z -> group.Scalar;
  Evaluate : Polynomial -> group.Scalar -> group.Scalar;
  LagrangePolynomial : Type;
  NewLagrangePolynomial :
    list group.Scalar -> list group.Scalar -> result LagrangePolynomial;
  LagrangePolynomial_Evaluate :
    LagrangePolynomial -> group.Scalar -> group.Scalar
}.

End polynomial.

Module secretsharing.

Import group polynomial.

Section SS.

Context `{G : group.Group} `{P : @polynomial.Polynomials G}.

(** [type Share struct]; both scalars are present (not nil). *)
Record Share : Type := mkShare {
  ID : Scalar;
  Value : Scalar
}.

(** [type SecretCommitment = []group.Element] *)
Definition SecretCommitment : Type := list Element.

(** [type SecretSharing struct]; its field [g] is the group [G]. *)
Record SecretSharing : Type := mkSecretSharing {
  t : Z;
  poly : Polynomial
}.

(** [func errThreshold(t, n uint) error] *)
Definition errThreshold (t n : Z) : error :=
  ErrOther ("secretsharing: number of shares (n=" ++ decimal n
            ++ ") must be above the threshold (t=" ++ decimal t ++ ")").

(** [func (ss SecretSharing) ShareWithID(id group.Scalar) Share] *)
Definition SecretSharing_ShareWithID (ss : SecretSharing) (id : Scalar)
  : result Share :=
  if Scalar_IsZero id then
    Panic (PanicString "secretsharing: id cannot be zero")
  else
    Ok {| ID := Scalar_Copy id; Value := Evaluate (poly ss) id |}.

(** The iterations [i], [i+1], ..., [i+k-1] of the loop of [Share]: each
    sets [id] to [uint64(i + 1)] and stores [ss.ShareWithID(id)], which
    holds a copy of [id]. *)
Fixpoint Share_loop (ss : SecretSharing) (i k : nat) : result (list Share) :=
  match k with
  | O => Ok []
  | S k' =>
      let id := Scalar_SetUint64 (Z.of_nat i + 1) in
      match SecretSharing_ShareWithID ss id with
      | Panic p => Panic p
      | Ok s =>
          match Share_loop ss (S i) k' with
          | Panic p => Panic p
          | Ok rest => Ok (s :: rest)
          end
      end
  end.

(** [func (ss SecretSharing) Share(n uint) []Share] *)
Definition SecretSharing_Share (ss : SecretSharing) (n : Z)
  : result (list Share) :=
  match makeslice n with
  | Panic p => Panic p
  | Ok k => Share_loop ss 0 k
  end.

(** [func (ss SecretSharing) CommitSecret() SecretCommitment] *)
Definition SecretSharing_CommitSecret (ss : SecretSharing)
  : result SecretCommitment :=
  match makeslice (uint_add (Degree (poly ss)) 1) with
  | Panic p => Panic p
  | Ok n =>
      Ok (map (fun i => Element_MulGen (Coefficient (poly ss) (Z.of_nat i)))
              (seq 0 n))
  end.

(** The iterations [i-1], ..., [0] of the loop of [Verify]:
    [sum.Mul(sum, s.ID); sum.Add(sum, c[i])]. *)
Fixpoint Verify_loop (c : SecretCommitment) (id : Scalar) (i : nat)
         (sum : Element) : Element :=
  match i with
  | O => sum
  | S j =>
      Verify_loop c id j
        (Element_Add (Element_Mul sum id) (nth j c NewElement))
  end.

(** [func Verify(t uint, s Share, c SecretCommitment) bool] *)
Definition Verify (t : Z) (s : Share) (c : SecretCommitment) : result bool :=
  if negb (Z.of_nat (length c) =? int_of_uint (uint_add t 1))%Z then
    Ok false
  else if Scalar_IsZero (ID s) then
    Ok false
  else
    match length c with
    | O => Panic (runtime_error "index out of range [-1]")
    | S lc =>
        let sum := Element_Set (nth lc c NewElement) in
        let sum := Verify_loop c (ID s) lc sum in
        let polI := Element_MulGen (Value s) in
        Ok (Element_IsEqual polI sum)
    end.

(** [func Recover(t uint, shares []Share) (secret group.Scalar, err error)] *)
Definition Recover (t : Z) (shares : list Share)
  : result (option Scalar * option error) :=
  let l := Z.of_nat (length shares) in
  if (l <=? int_of_uint t)%Z then
    Ok (None, Some (errThreshold t (uint_of_int l)))
  else
    match makeslice (uint_add t 1) with
    | Panic p => Panic p
    | Ok n =>
        let x := map ID (firstn n shares) in
        let px := map Value (firstn n shares) in
        match NewLagrangePolynomial x px with
        | Panic p => Panic p
        | Ok l =>
            match shares with
            | [] =>
                Panic (runtime_error "index out of range [0] with length 0")
            | _ :: _ =>
                let zero := NewScalar in
                Ok (Some (LagrangePolynomial_Evaluate l zero), None)
            end
        end
    end.

(** *** What a polynomial evaluates to

    The value at [x] of the polynomial whose coefficients are
    [coef 0], ..., [coef i] once [acc] holds the leading one: Horner's rule
    in the scalars. *)
Fixpoint Horner (coef : nat -> Scalar) (x : Scalar) (i : nat) (acc : Scalar)
  : Scalar :=
  match i with
  | O => acc
  | S j => Horner coef x j (Scalar_Add (Scalar_Mul acc x) (coef j))
  end.

Definition value_at (p : Polynomial) (x : Scalar) : Scalar :=
  let d := Z.to_nat (Degree p) in
  Horner (fun j => Coefficient p (Z.of_nat j)) x d
         (Coefficient p (Z.of_nat d)).

(** [p.Evaluate(x)] is the value at [x] of the polynomial with the
    coefficients [p.Coefficient(0)], ..., [p.Coefficient(p.Degree())]. *)
Definition Evaluates (p : Polynomial) (x : Scalar) : Prop :=
  Evaluate p x = value_at p x.

(** The interpolation through the points [(x, p(x))] for [x] in [xs] is
    built without a panic and agrees with [p] at zero. *)
Definition InterpolatesAtZero (p : Polynomial) (xs : list Scalar) : Prop :=
  exists l,
    NewLagrangePolynomial xs (map (Evaluate p) xs) = Ok l
    /\ LagrangePolynomial_Evaluate l NewScalar = Evaluate p NewScalar.

End SS.

End secretsharing.

(** ** A small group

    The integers modulo 101 under addition, with 3 as the generator, and
    polynomials over them as lists of coefficients, lowest first. *)
Module ToyGroup.

Local Open Scope Z_scope.

Definition q : Z := 101.

Definition is_equal (a b : Z) : bool := (a mod q =? b mod q).

Lemma is_equal_refl (a : Z) : is_equal a a = true.
Proof. apply Z.eqb_refl. Qed.

Lemma is_equal_sym (a b : Z) : is_equal a b = true -> is_equal b a = true.
Proof. unfold is_equal. rewrite !Z.eqb_eq. congruence. Qed.

Lemma is_equal_trans (a b c : Z) :
  is_equal a b = true -> is_equal b c = true -> is_equal a c = true.
Proof. unfold is_equal. rewrite !Z.eqb_eq. congruence. Qed.

Definition add (a b : Z) : Z := (a + b) mod q.
Definition mul (a x : Z) : Z := (a * x) mod q.
Definition mulgen (a : Z) : Z := (3 * a) mod q.

Lemma add_is_equal (a a' b : Z) :
  is_equal a a' = true -> is_equal (add a b) (add a' b) = true.
Proof.
  unfold is_equal, add. rewrite !Z.eqb_eq. intros E.
  rewrite !Z.mod_mod by discriminate.
  rewrite (Z.add_mod a b), (Z.add_mod a' b) by discriminate.
  now rewrite E.
Qed.

Lemma mul_is_equal (a a' x : Z) :
  is_equal a a' = true -> is_equal (mul a x) (mul a' x) = true.
Proof.
  unfold is_equal, mul. rewrite !Z.eqb_eq. intros E.
  rewrite !Z.mod_mod by discriminate.
  rewrite (Z.mul_mod a x), (Z.mul_mod a' x) by discriminate.
  now rewrite E.
Qed.

Lemma mulgen_add (a b : Z) :
  is_equal (add (mulgen a) (mulgen b)) (mulgen (add a b)) = true.
Proof.
  unfold is_equal, add, mulgen. rewrite Z.eqb_eq.
  rewrite !Z.mod_mod by discriminate.
  rewrite <- Z.add_mod by discriminate.
  rewrite Z.mul_mod_idemp_r by discriminate.
  f_equal. ring.
Qed.

Lemma mulgen_mul (a x : Z) :
  is_equal (mul (mulgen a) x) (mulgen (mul a x)) = true.
Proof.
  unfold is_equal, mul, mulgen. rewrite Z.eqb_eq.
  rewrite !Z.mod_mod by discriminate.
  rewrite Z.mul_mod_idemp_l, Z.mul_mod_idemp_r by discriminate.
  f_equal. ring.
Qed.

#[export] Instance Zq : group.Group :=
  {| group.Scalar := Z;
     group.Element := Z;
     group.NewScalar := 0;
     group.Scalar_SetUint64 := fun n => n mod q;
     group.Scalar_IsZero := fun a => a mod q =? 0;
     group.Scalar_Add := add;
     group.Scalar_Mul := mul;
     group.NewElement := 0;
     group.Element_MulGen := mulgen;
     group.Element_Mul := mul;
     group.Element_Add := add;
     group.Element_IsEqual := is_equal;
     group.IsEqual_refl := is_equal_refl;
     group.IsEqual_sym := is_equal_sym;
     group.IsEqual_trans := is_equal_trans;
     group.Add_IsEqual := add_is_equal;
     group.Mul_IsEqual := mul_is_equal;
     group.MulGen_Add := mulgen_add;
     group.MulGen_Mul := mulgen_mul |}.

(** The inverse modulo [q], by Fermat's little theorem. *)
Definition inv (a : Z) : Z := (a ^ (q - 2)) mod q.

(** Lagrange's formula at [z] for the points [pts]. *)
Definition basis (pts : list (Z * Z)) (xi z : Z) : Z :=
  fold_right
    (fun pt acc =>
       if fst pt mod q =? xi mod q then acc
       else (acc * ((z - fst pt) * inv (xi - fst pt))) mod q)
    1 pts.

Definition interpolate (pts : list (Z * Z)) (z : Z) : Z :=
  fold_right (fun pt acc => (acc + snd pt * basis pts (fst pt) z) mod q)
             0 pts.

Fixpoint distinct (xs : list Z) : bool :=
  match xs with
  | [] => true
  | x :: r => negb (existsb (fun y => x mod q =? y mod q) r) && distinct r
  end.

Definition lagrange (x y : list Z) : result (list (Z * Z)) :=
  if negb (length x =? length y)%nat then
    Panic (PanicString "lagrange: invalid length")
  else if negb (distinct x) then
    Panic (PanicString "lagrange: x[i] must be different")
  else Ok (combine x y).

#[export] Instance polys : polynomial.Polynomials :=
  {| polynomial.Polynomial := list Z;
     polynomial.Degree := fun p => Z.of_nat (length p - 1);
     polynomial.Coefficient := fun p n => nth (Z.to_nat n) p 0;
     polynomial.Evaluate :=
       fun p x => fold_right (fun c acc => (acc * x + c) mod q) 0 p;
     polynomial.LagrangePolynomial := list (Z * Z);
     polynomial.NewLagrangePolynomial := lagrange;
     polynomial.LagrangePolynomial_Evaluate := interpolate |}.

(** The sharing of the secret 42 with threshold 2, by the polynomial
    42 + 7 x + 13 x^2. *)
Definition sharing : secretsharing.SecretSharing :=
  secretsharing.mkSecretSharing 2 [42; 7; 13].

Definition share (id v : Z) : secretsharing.Share :=
  @secretsharing.mkShare Zq id v.

End ToyGroup.

(** * Proofs *)

Unset Implicit Arguments.

(** *** Facts about bytes *)

Lemma byte_to_Z_range (b : byte) : (0 <= byte_to_Z b < 256)%Z.
Proof.
  unfold byte_to_Z. pose proof (Byte.to_N_bounded b). lia.
Qed.

Lemma byte_of_to_Z (b : byte) : byte_of_Z (byte_to_Z b) = b.
Proof.
  unfold byte_of_Z. pose proof (byte_to_Z_range b) as R.
  rewrite Z.mod_small by exact R.
  unfold byte_to_Z. rewrite N2Z.id, Byte.of_to_N. reflexivity.
Qed.

Lemma byte_to_Z_inj (a b : byte) : byte_to_Z a = byte_to_Z b -> a = b.
Proof.
  intros E. rewrite <- (byte_of_to_Z a), <- (byte_of_to_Z b), E. reflexivity.
Qed.

Lemma bytes_Equal_spec (a b : list byte) : bytes_Equal a b = true <-> a = b.
Proof.
  revert b; induction a as [|x a IH]; intros [|y b]; simpl;
    try (split; [discriminate | congruence]); try tauto.
  rewrite andb_true_iff, IH. split.
  - intros [E ->]. apply Byte.byte_dec_bl in E. now subst.
  - intros E; injection E as -> ->. split; [apply Byte.byte_dec_lb|]; reflexivity.
Qed.

Lemma bytes_Equal_refl (a : list byte) : bytes_Equal a a = true.
Proof. now apply bytes_Equal_spec. Qed.

Lemma copy_length (dst src : list byte) : length (copy dst src) = length dst.
Proof.
  unfold copy. rewrite length_app, length_firstn, length_skipn. lia.
Qed.

Lemma copy_same_length (dst src : list byte) :
  length dst = length src -> copy dst src = src.
Proof.
  intros E. unfold copy. rewrite E, firstn_all, skipn_all2 by lia.
  apply app_nil_r.
Qed.

Lemma make_length (n : nat) : length (make n) = n.
Proof. apply repeat_length. Qed.

(** *** The documented contracts of [crypto/subtle] *)

Lemma byte_bits_high (x n : Z) :
  (0 <= x < 256 -> 8 <= n -> Z.testbit x n = false)%Z.
Proof.
  intros Hx Hn. rewrite <- (Z.mod_small x (2 ^ 8)) by (change (2 ^ 8)%Z with 256%Z; lia).
  apply Z.mod_pow2_bits_high. lia.
Qed.

Lemma byte_of_bits (x : Z) :
  (0 <= x -> (forall n, 8 <= n -> Z.testbit x n = false) -> 0 <= x < 256)%Z.
Proof.
  intros Hx Hb. split; [exact Hx|].
  assert (E : (x mod 2 ^ 8 = x)%Z).
  { apply Z.bits_inj'. intros n Hn.
    destruct (Z.lt_ge_cases n 8) as [Lt|Ge].
    - apply Z.mod_pow2_bits_low. exact Lt.
    - rewrite Z.mod_pow2_bits_high by lia. symmetry. apply Hb. exact Ge. }
  rewrite <- E. change 256%Z with (2 ^ 8)%Z. apply Z.mod_pos_bound. lia.
Qed.

Lemma lor_byte_range (v d : Z) :
  (0 <= v < 256 -> 0 <= d < 256 -> 0 <= Z.lor v d < 256)%Z.
Proof.
  intros Hv Hd. apply byte_of_bits.
  - apply Z.lor_nonneg; lia.
  - intros n Hn. rewrite Z.lor_spec, !byte_bits_high by assumption. reflexivity.
Qed.

Lemma lxor_byte_range (a b : byte) :
  (0 <= Z.lxor (byte_to_Z a) (byte_to_Z b) < 256)%Z.
Proof.
  pose proof (byte_to_Z_range a) as Ra. pose proof (byte_to_Z_range b) as Rb.
  apply byte_of_bits.
  - apply Z.lxor_nonneg. lia.
  - intros n Hn. rewrite Z.lxor_spec, !byte_bits_high by assumption. reflexivity.
Qed.

Lemma or_xor_range (x y : list byte) (v : Z) :
  (0 <= v < 256 -> 0 <= subtle.or_xor v x y < 256)%Z.
Proof.
  revert y v; induction x as [|a x IH]; intros [|b y] v Hv; simpl; try exact Hv.
  apply IH. apply lor_byte_range; [exact Hv | apply lxor_byte_range].
Qed.

Lemma or_xor_zero (x y : list byte) (v : Z) :
  length x = length y -> (0 <= v < 256)%Z ->
  subtle.or_xor v x y = 0%Z <-> v = 0%Z /\ x = y.
Proof.
  revert y v; induction x as [|a x IH]; intros [|b y] v L Hv; simpl in *;
    try discriminate.
  - tauto.
  - injection L as L.
    rewrite IH by (try apply lor_byte_range; try apply lxor_byte_range; assumption).
    rewrite Z.lor_eq_0_iff, Z.lxor_eq_0_iff. split.
    + intros [[Hv0 Hab] ->]. apply byte_to_Z_inj in Hab. now subst.
    + intros [Hv0 E]. injection E as -> ->. tauto.
Qed.

Lemma ConstantTimeByteEq_zero (v : Z) :
  (0 <= v < 256)%Z ->
  subtle.ConstantTimeByteEq v 0 = if (v =? 0)%Z then 1%Z else 0%Z.
Proof.
  intros Hv. unfold subtle.ConstantTimeByteEq. rewrite Z.lxor_0_r.
  destruct (Z.eqb_spec v 0) as [->|Hn].
  - reflexivity.
  - rewrite Z.mod_small by lia. rewrite Z.shiftr_div_pow2 by lia.
    apply Z.div_small. lia.
Qed.

(** [ConstantTimeCompare] returns 1 if the two slices have equal contents
    and 0 otherwise. *)
Lemma ConstantTimeCompare_spec (x y : list byte) :
  subtle.ConstantTimeCompare x y = if bytes_Equal x y then 1%Z else 0%Z.
Proof.
  unfold subtle.ConstantTimeCompare.
  destruct (Nat.eqb_spec (length x) (length y)) as [L|L]; simpl.
  - rewrite ConstantTimeByteEq_zero by (apply or_xor_range; lia).
    destruct (Z.eqb_spec (subtle.or_xor 0 x y) 0) as [E|E].
    + apply or_xor_zero in E; [|exact L|lia]. destruct E as [_ ->].
      now rewrite bytes_Equal_refl.
    + destruct (bytes_Equal x y) eqn:B; [|reflexivity].
      apply bytes_Equal_spec in B. exfalso. apply E.
      apply or_xor_zero; [exact L|lia|]. now split.
  - destruct (bytes_Equal x y) eqn:B; [|reflexivity].
    apply bytes_Equal_spec in B. now subst.
Qed.

Lemma ConstantTimeCompare_same (x : list byte) :
  subtle.ConstantTimeCompare x x = 1%Z.
Proof. now rewrite ConstantTimeCompare_spec, bytes_Equal_refl. Qed.

Lemma mask_select_take (x y : list byte) :
  length x = length y -> subtle.mask_select 0 255 x y = y.
Proof.
  revert y; induction x as [|a x IH]; intros [|b y] L; simpl in *;
    try discriminate; [reflexivity|].
  injection L as L. rewrite IH by exact L. f_equal.
  rewrite Z.land_0_r, Z.lor_0_l.
  change 255%Z with (Z.ones 8). rewrite Z.land_ones by lia.
  change (2 ^ 8)%Z with 256%Z.
  rewrite Z.mod_small by apply byte_to_Z_range. apply byte_of_to_Z.
Qed.

Lemma mask_select_keep (x y : list byte) :
  subtle.mask_select 255 0 x y = x.
Proof.
  revert y; induction x as [|a x IH]; intros [|b y]; simpl;
    try reflexivity.
  rewrite IH. f_equal.
  rewrite Z.land_0_r, Z.lor_0_r.
  change 255%Z with (Z.ones 8). rewrite Z.land_ones by lia.
  change (2 ^ 8)%Z with 256%Z.
  rewrite Z.mod_small by apply byte_to_Z_range. apply byte_of_to_Z.
Qed.

(** [ConstantTimeCopy] copies the contents of [y] into [x] if [v = 1] and
    leaves [x] unchanged if [v = 0]. *)
Lemma ConstantTimeCopy_1 (x y : list byte) :
  length x = length y -> subtle.ConstantTimeCopy 1 x y = Some y.
Proof.
  intros L. unfold subtle.ConstantTimeCopy.
  rewrite (proj2 (Nat.eqb_eq _ _) L). simpl negb. cbv iota.
  change ((1 - 1) mod 256)%Z with 0%Z.
  change (Z.lnot (1 - 1) mod 256)%Z with 255%Z.
  now rewrite mask_select_take.
Qed.

Lemma ConstantTimeCopy_0 (x y : list byte) :
  length x = length y -> subtle.ConstantTimeCopy 0 x y = Some x.
Proof.
  intros L. unfold subtle.ConstantTimeCopy.
  rewrite (proj2 (Nat.eqb_eq _ _) L). simpl negb. cbv iota.
  change ((0 - 1) mod 256)%Z with 255%Z.
  change (Z.lnot (0 - 1) mod 256)%Z with 0%Z.
  now rewrite mask_select_keep.
Qed.

(** *** Lists: exact prefixes and suffixes *)

Lemma firstn_app_exact (A : Type) (l r : list A) (n : nat) :
  length l = n -> firstn n (l ++ r) = l.
Proof.
  intros <-. rewrite firstn_app, Nat.sub_diag, firstn_all. simpl.
  apply app_nil_r.
Qed.

Lemma skipn_app_exact (A : Type) (l r : list A) (n : nat) :
  length l = n -> skipn n (l ++ r) = r.
Proof.
  intros <-. rewrite skipn_app, Nat.sub_diag, skipn_all. reflexivity.
Qed.

Lemma firstn_app_plus (A : Type) (l r : list A) (k n : nat) :
  length l = k -> firstn (k + n) (l ++ r) = l ++ firstn n r.
Proof. intros <-. apply firstn_app_2. Qed.

Lemma copy_prefix (dst src : list byte) :
  length src <= length dst -> copy dst src = src ++ skipn (length src) dst.
Proof.
  intros L. unfold copy. now rewrite firstn_all2 by exact L.
Qed.

(** The contents of a slice after a write of [v] through its part
    [lo .. lo+n]. *)
Definition splice (R : list byte) (lo n : nat) (v : list byte) : list byte :=
  firstn lo R ++ copy (firstn n (skipn lo R)) v ++ skipn (lo + n) R.

Lemma splice_at (P X S v : list byte) (lo n : nat) :
  length P = lo -> length X = n ->
  splice (P ++ X ++ S) lo n v = P ++ copy X v ++ S.
Proof.
  intros LP LX. unfold splice.
  rewrite (firstn_app_exact _ P _ _ LP), (skipn_app_exact _ P _ _ LP).
  rewrite (firstn_app_exact _ X _ _ LX).
  replace (skipn (lo + n) (P ++ X ++ S)) with S; [reflexivity|].
  rewrite app_assoc. symmetry. apply skipn_app_exact.
  rewrite length_app. lia.
Qed.

(** *** Slices and memory *)

Lemma read_slice_length (w : World) (s : slice) :
  slice_ok w s -> length (read_slice (mem w) s) = len s.
Proof.
  unfold slice_ok, read_slice. intros Hs.
  rewrite length_firstn, length_skipn. lia.
Qed.

Lemma write_slice_length (m : nat -> list byte) (s : slice) (v : list byte) b :
  off s + len s <= length (m (base s)) ->
  length (write_slice m s v b) = length (m b).
Proof.
  intros Hs. unfold write_slice.
  destruct (Nat.eqb_spec b (base s)) as [->|]; [|reflexivity].
  rewrite !length_app, copy_length, length_firstn, length_skipn.
  unfold read_slice. rewrite length_firstn, length_skipn. lia.
Qed.

Lemma read_write_same (m : nat -> list byte) (s : slice) (v : list byte) :
  off s + len s <= length (m (base s)) -> length v = len s ->
  read_slice (write_slice m s v) s = v.
Proof.
  intros Hs Hv. unfold read_slice at 1. unfold write_slice.
  rewrite Nat.eqb_refl.
  assert (Hr : length (read_slice m s) = len s).
  { unfold read_slice. rewrite length_firstn, length_skipn. lia. }
  rewrite skipn_app_exact by (rewrite length_firstn; lia).
  rewrite firstn_app_exact by (rewrite copy_length; exact Hr).
  apply copy_same_length. congruence.
Qed.

Lemma read_write_other (m : nat -> list byte) (s s' : slice) (v : list byte) :
  base s' <> base s -> read_slice (write_slice m s v) s' = read_slice m s'.
Proof.
  intros Hb. unfold read_slice, write_slice.
  destruct (Nat.eqb_spec (base s') (base s)); [contradiction | reflexivity].
Qed.

Lemma sub_whole (s : slice) : sub s 0 (len s) = s.
Proof.
  destruct s as [b o l]. unfold sub; simpl. f_equal; lia.
Qed.

(** Writing through a part [s[lo:lo+n]] of a slice, seen from the slice. *)
Lemma read_write_sub (m : nat -> list byte) (s : slice) (lo n : nat)
      (v : list byte) :
  off s + len s <= length (m (base s)) -> lo + n <= len s ->
  read_slice (write_slice m (mkSlice (base s) (off s + lo) n) v) s
  = splice (read_slice m s) lo n v.
Proof.
  intros Hs Hn. unfold splice. unfold read_slice at 1. unfold write_slice; simpl.
  rewrite Nat.eqb_refl. unfold read_slice; simpl.
  set (arr := m (base s)) in *.
  assert (Harr : arr = firstn (off s) arr ++ firstn lo (skipn (off s) arr)
                  ++ firstn n (skipn (off s + lo) arr)
                  ++ skipn (off s + lo + n) arr).
  { rewrite <- (firstn_skipn (off s) arr) at 1. f_equal.
    rewrite <- (firstn_skipn lo (skipn (off s) arr)) at 1. f_equal.
    rewrite skipn_skipn, (Nat.add_comm lo).
    rewrite <- (firstn_skipn n (skipn (off s + lo) arr)) at 1. f_equal.
    now rewrite skipn_skipn, (Nat.add_comm n). }
  set (A := firstn (off s) arr) in *.
  set (B := firstn lo (skipn (off s) arr)) in *.
  set (C := firstn n (skipn (off s + lo) arr)) in *.
  set (D := skipn (off s + lo + n) arr) in *.
  assert (LA : length A = off s) by (subst A; rewrite length_firstn; lia).
  assert (LB : length B = lo)
    by (subst B; rewrite length_firstn, length_skipn; lia).
  assert (LC : length C = n)
    by (subst C; rewrite length_firstn, length_skipn; lia).
  assert (E1 : firstn (off s + lo) arr = A ++ B).
  { rewrite Harr, app_assoc. apply firstn_app_exact.
    rewrite length_app; lia. }
  assert (E2 : firstn (len s) (skipn (off s) arr)
               = B ++ C ++ firstn (len s - lo - n) D).
  { rewrite Harr at 1. rewrite skipn_app_exact by exact LA.
    replace (len s) with (lo + (n + (len s - lo - n))) at 1 by lia.
    rewrite firstn_app_plus by exact LB.
    f_equal. rewrite firstn_app_plus by exact LC. reflexivity. }
  rewrite E1, E2. clear E1 E2 Harr.
  set (D' := firstn (len s - lo - n) D).
  (* the right-hand side *)
  rewrite (firstn_app_exact _ B _ _ LB), (skipn_app_exact _ B _ _ LB).
  rewrite (firstn_app_exact _ C _ _ LC).
  replace (skipn (lo + n) (B ++ C ++ D')) with D'.
  2:{ rewrite app_assoc. symmetry. apply skipn_app_exact.
      rewrite length_app; lia. }
  (* the left-hand side *)
  rewrite <- app_assoc, (skipn_app_exact _ A _ _ LA).
  replace (len s) with (lo + (n + (len s - lo - n))) at 1 by lia.
  rewrite (firstn_app_plus _ B _ _ _ LB). f_equal.
  apply firstn_app_plus. rewrite copy_length. exact LC.
Qed.

(** *** Running calls *)

Lemma write_sub_ok (m : nat -> list byte) (s : slice) (lo n : nat)
      (v : list byte) :
  off s + len s <= length (m (base s)) -> lo + n <= len s ->
  read_slice (write_slice m (mkSlice (base s) (off s + lo) n) v) s
  = splice (read_slice m s) lo n v
  /\ off s + len s
     <= length (write_slice m (mkSlice (base s) (off s + lo) n) v (base s)).
Proof.
  intros Hs Hn. split.
  - now apply read_write_sub.
  - rewrite write_slice_length; simpl; lia.
Qed.

(** The layout a private key is packed in, as four writes into a buffer
    [R] of [a + b + 64] bytes: [a] bytes at 0, [b] bytes at [a], then a
    32-byte copy into the remaining 64 and a 32-byte copy into the last
    32. *)
Lemma pack_layout (R A B H Z : list byte) (a b : nat) :
  length R = a + b + 64 ->
  length A = a -> length B = b -> length H = 32 -> length Z = 32 ->
  splice (splice (splice (splice R 0 a A) a b B) (a + b) 64 H)
         (a + b + 32) 32 Z
  = A ++ B ++ H ++ Z.
Proof.
  intros LR LA LB LH LZ.
  set (Xa := firstn a R).
  set (Xb := firstn b (skipn a R)).
  set (Xh := firstn 32 (skipn (a + b) R)).
  set (Xz := skipn (a + b + 32) R).
  assert (ER : R = Xa ++ Xb ++ Xh ++ Xz).
  { unfold Xa, Xb, Xh, Xz.
    rewrite <- (firstn_skipn a R) at 1. f_equal.
    rewrite <- (firstn_skipn b (skipn a R)) at 1. f_equal.
    rewrite skipn_skipn, (Nat.add_comm b a).
    rewrite <- (firstn_skipn 32 (skipn (a + b) R)) at 1. f_equal.
    now rewrite skipn_skipn, (Nat.add_comm 32). }
  assert (La : length Xa = a) by (unfold Xa; rewrite length_firstn; lia).
  assert (Lb : length Xb = b)
    by (unfold Xb; rewrite length_firstn, length_skipn; lia).
  assert (Lh : length Xh = 32)
    by (unfold Xh; rewrite length_firstn, length_skipn; lia).
  assert (Lz : length Xz = 32) by (unfold Xz; rewrite length_skipn; lia).
  rewrite ER. clear ER.
  (* the encryption key *)
  change (Xa ++ Xb ++ Xh ++ Xz) with ([] ++ Xa ++ (Xb ++ Xh ++ Xz)).
  rewrite (splice_at [] Xa _ A 0 a eq_refl La).
  rewrite (copy_same_length Xa A) by congruence.
  cbn [app].
  (* the public key *)
  rewrite (splice_at A Xb _ B a b LA Lb).
  rewrite (copy_same_length Xb B) by congruence.
  (* H(pk), copied into the 64 bytes that remain *)
  replace (A ++ B ++ Xh ++ Xz) with ((A ++ B) ++ (Xh ++ Xz) ++ [])
    by (now rewrite app_nil_r, <- !app_assoc).
  rewrite (splice_at (A ++ B) (Xh ++ Xz) [] H (a + b) 64)
    by (rewrite length_app; lia).
  rewrite (copy_prefix (Xh ++ Xz) H) by (rewrite length_app; lia).
  rewrite LH, (skipn_app_exact _ Xh Xz 32 Lh).
  (* z *)
  replace ((A ++ B) ++ (H ++ Xz) ++ []) with ((A ++ B ++ H) ++ Xz ++ [])
    by (now rewrite !app_nil_r, <- !app_assoc).
  rewrite (splice_at (A ++ B ++ H) Xz [] Z (a + b + 32) 32)
    by (rewrite ?length_app; lia).
  rewrite (copy_same_length Xz Z) by congruence.
  now rewrite app_nil_r, <- !app_assoc.
Qed.

Lemma slice_ok_logged (evs : list Event) (w : World) (s : slice) :
  slice_ok (logged evs w) s <-> slice_ok w s.
Proof. reflexivity. Qed.

Lemma slice_ok_stored (s s' : slice) (v : list byte) (w : World) :
  slice_ok w s -> slice_ok w s' -> slice_ok (stored s v w) s'.
Proof.
  unfold slice_ok, stored; simpl. intros Hs Hs'.
  now rewrite write_slice_length.
Qed.

Lemma read_stored_same (s : slice) (v : list byte) (w : World) :
  slice_ok w s -> length v = len s ->
  read_slice (mem (stored s v w)) s = v.
Proof. intros Hs Hv. simpl. now apply read_write_same. Qed.

Lemma read_stored_other (s s' : slice) (v : list byte) (w : World) :
  base s' <> base s ->
  read_slice (mem (stored s v w)) s' = read_slice (mem w) s'.
Proof. intros Hb. simpl. now apply read_write_other. Qed.

Section KEM_Proofs.

Context `{SP : sha3.Sponge} `{PKE : cpapke.Scheme}.
Variable NIST : bool.

Local Arguments firstn : simpl never.
Local Arguments skipn : simpl never.
Local Arguments make : simpl never.
Local Arguments copy : simpl never.
Local Arguments Z.sub : simpl never.
Local Arguments subtle_ConstantTimeCopy : simpl never.
Local Arguments subtle.ConstantTimeCompare : simpl never.

Lemma KeySeedSize_split (seed : list byte) :
  length seed = KeySeedSize -> length (skipn cpapke.KeySeedSize seed) = 32.
Proof. unfold KeySeedSize. intros L. rewrite length_skipn. lia. Qed.

Lemma Hash256_length (p : list byte) : length (Hash256 p) = 32.
Proof. apply sha3.squeeze_length. Qed.

Lemma Hash512_length (p : list byte) : length (Hash512 p) = 64.
Proof. apply sha3.squeeze_length. Qed.

Lemma Shake256_length (p : list byte) (n : nat) : length (Shake256 p n) = n.
Proof. apply sha3.squeeze_length. Qed.

Lemma copy_array (n : nat) (src : list byte) :
  length src = n -> copy (make n) src = src.
Proof. intros L. apply copy_same_length. now rewrite make_length. Qed.

Lemma NewKeyFromSeed_run (seed : list byte) (w : World) :
  length seed = KeySeedSize ->
  NewKeyFromSeed NIST seed w
  = (Ok (KeyPairOf NIST seed),
     logged [EvKeyGen; EvAbsorb SHA3_256; EvSqueeze SHA3_256] w).
Proof.
  intros L. unfold NewKeyFromSeed, KeyPairOf, keygen.
  rewrite L, Nat.eqb_refl. simpl negb. cbv iota.
  pose proof (KeySeedSize_split seed L) as Lz.
  destruct NIST;
    [unfold cpapke.NewKeyFromSeedMLKEM | unfold cpapke.NewKeyFromSeed];
    unfold bind; simpl;
    match goal with |- context [let '(_, _) := ?kp in _] => destruct kp as [ppk psk] end;
    simpl; unfold ret, logged; simpl;
    rewrite (copy_array _ (cpapke.packPublic ppk))
      by apply cpapke.packPublic_length;
    fold (Hash256 (cpapke.packPublic ppk));
    rewrite (copy_array _ (Hash256 _)) by apply Hash256_length;
    rewrite (copy_array _ (skipn _ seed)) by exact Lz;
    reflexivity.
Qed.

Lemma KeyPairOf_wf (seed : list byte) :
  length seed = KeySeedSize ->
  PublicKey_wf (fst (KeyPairOf NIST seed))
  /\ PrivateKey_wf (snd (KeyPairOf NIST seed)).
Proof.
  intros L. unfold KeyPairOf.
  destruct (keygen NIST (firstn cpapke.KeySeedSize seed)) as [ppk psk]; simpl.
  unfold PublicKey_wf, PrivateKey_wf; simpl.
  rewrite Hash256_length, (KeySeedSize_split seed L). auto.
Qed.

Lemma EncapsulateTo_run (pk : PublicKey) (p : cpapke.PublicKey)
      (ct ss : slice) (seed : list byte) (w : World) :
  pub_pk pk = Some p ->
  length seed = EncapsulationSeedSize ->
  len ct = CiphertextSize -> len ss = SharedKeySize ->
  slice_ok w ct ->
  EncapsulateTo NIST pk ct ss (Some seed) w
  = (Ok tt,
     stored ss (snd (Encapsulate_spec NIST p (pub_hpk pk) seed))
       (stored ct (fst (Encapsulate_spec NIST p (pub_hpk pk) seed))
          (logged (encaps_events NIST) w))).
Proof.
  intros Hp Ls Lct Lss Hct.
  unfold EncapsulateTo, Encapsulate_spec, encaps_events.
  rewrite Ls, Lct, Lss, !Nat.eqb_refl.
  destruct NIST.
  - unfold bind. simpl. rewrite Hp. simpl.
    rewrite (copy_array _ seed) by exact Ls. reflexivity.
  - unfold bind. simpl. rewrite Hp. simpl.
    fold (Hash256 seed). fold (Hash512 (Hash256 seed ++ pub_hpk pk)).
    set (c := cpapke.encrypt p _ _).
    replace (sub ct 0 CiphertextSize) with ct
      by (rewrite <- Lct; symmetry; apply sub_whole).
    replace (sub ss 0 SharedKeySize) with ss
      by (rewrite <- Lss; symmetry; apply sub_whole).
    rewrite read_write_same
      by (try exact Hct; unfold c; rewrite cpapke.encrypt_length; auto).
    reflexivity.
Qed.

Lemma subtle_ConstantTimeCompare_run (x y : list byte) (w : World) :
  subtle_ConstantTimeCompare x y w
  = (Ok (if bytes_Equal x y then 1%Z else 0%Z),
     logged [EvConstantTimeCompare] w).
Proof.
  unfold subtle_ConstantTimeCompare, bind, emit, ret, logged.
  now rewrite ConstantTimeCompare_spec.
Qed.

Lemma subtle_ConstantTimeCopy_run (b : bool) (x y : list byte) (w : World) :
  length x = length y ->
  subtle_ConstantTimeCopy (if b then 1%Z else 0%Z) x y w
  = (Ok (if b then y else x), logged [EvConstantTimeCopy] w).
Proof.
  intros L. unfold subtle_ConstantTimeCopy, bind, emit.
  destruct b; [rewrite ConstantTimeCopy_1 | rewrite ConstantTimeCopy_0];
    auto.
Qed.

Lemma DecapsulateTo_run (sk : PrivateKey) (s : cpapke.PrivateKey)
      (p : cpapke.PublicKey) (ss : slice) (ct : list byte) (w : World) :
  priv_sk sk = Some s -> priv_pk sk = Some p ->
  length (priv_z sk) = 32 ->
  length ct = CiphertextSize -> len ss = SharedKeySize ->
  DecapsulateTo NIST sk ss ct w
  = (Ok tt,
     stored ss (Decapsulate_spec NIST s p (priv_hpk sk) (priv_z sk) ct)
       (logged (decaps_events NIST) w)).
Proof.
  intros Hs Hp Lz Lct Lss.
  unfold DecapsulateTo, Decapsulate_spec, decaps_events.
  rewrite Lct, Lss, !Nat.eqb_refl. rewrite Hs, Hp. simpl negb. cbv iota.
  set (m' := cpapke.decrypt s ct).
  destruct NIST.
  - unfold bind. simpl.
    fold m'. fold (Hash512 (m' ++ priv_hpk sk)).
    set (kr := Hash512 (m' ++ priv_hpk sk)).
    set (ct' := cpapke.encrypt p m' (skipn 32 kr)).
    assert (Lkr : length (firstn 32 kr) = 32)
      by (unfold kr; rewrite length_firstn, Hash512_length; reflexivity).
    rewrite <- Lct, firstn_all.
    fold (Shake256 (priv_z sk ++ ct) SharedKeySize).
    rewrite ConstantTimeCompare_spec.
    rewrite subtle_ConstantTimeCopy_run
      by (rewrite Shake256_length; symmetry; exact Lkr).
    destruct (bytes_Equal ct ct'); reflexivity.
  - unfold bind. simpl.
    fold m'. fold (Hash512 (m' ++ priv_hpk sk)).
    set (kr := Hash512 (m' ++ priv_hpk sk)).
    set (ct' := cpapke.encrypt p m' (skipn 32 kr)).
    assert (Lkr : length (firstn 32 kr) = 32)
      by (unfold kr; rewrite length_firstn, Hash512_length; reflexivity).
    rewrite <- Lct, firstn_all. fold (Hash256 ct).
    rewrite ConstantTimeCompare_spec.
    rewrite (firstn_app_exact _ _ _ _ Lkr).
    replace (1 - (if bytes_Equal ct ct' then 1 else 0))%Z
      with (if negb (bytes_Equal ct ct') then 1%Z else 0%Z)
      by (destruct (bytes_Equal ct ct'); reflexivity).
    rewrite subtle_ConstantTimeCopy_run by (rewrite Lz; exact Lkr).
    simpl. rewrite (skipn_app_exact _ _ _ _ Lkr).
    destruct (bytes_Equal ct ct'); reflexivity.
Qed.

Lemma Encapsulate_spec_lengths (p : cpapke.PublicKey) (hpk seed : list byte) :
  length (fst (Encapsulate_spec NIST p hpk seed)) = CiphertextSize
  /\ length (snd (Encapsulate_spec NIST p hpk seed)) = SharedKeySize.
Proof.
  unfold Encapsulate_spec; simpl. split.
  - apply cpapke.encrypt_length.
  - destruct NIST.
    + rewrite length_firstn, Hash512_length. reflexivity.
    + apply Shake256_length.
Qed.

Lemma Decapsulate_spec_length (s : cpapke.PrivateKey) (p : cpapke.PublicKey)
      (hpk z ct : list byte) :
  length (Decapsulate_spec NIST s p hpk z ct) = SharedKeySize.
Proof.
  unfold Decapsulate_spec.
  destruct NIST; [|apply Shake256_length].
  destruct (bytes_Equal _ _); [|apply Shake256_length].
  rewrite length_firstn, Hash512_length. reflexivity.
Qed.

(** Reading the two buffers back after an encapsulation. *)
Lemma EncapsulateTo_reads (pk : PublicKey) (p : cpapke.PublicKey)
      (ct ss : slice) (seed : list byte) (w : World) :
  pub_pk pk = Some p ->
  length seed = EncapsulationSeedSize ->
  len ct = CiphertextSize -> len ss = SharedKeySize ->
  slice_ok w ct -> slice_ok w ss -> base ct <> base ss ->
  exists w',
    EncapsulateTo NIST pk ct ss (Some seed) w = (Ok tt, w')
    /\ read_slice (mem w') ct = fst (Encapsulate_spec NIST p (pub_hpk pk) seed)
    /\ read_slice (mem w') ss = snd (Encapsulate_spec NIST p (pub_hpk pk) seed)
    /\ (forall s, slice_ok w s -> slice_ok w' s).
Proof.
  intros Hp Ls Lct Lss Hct Hss Hne.
  destruct (Encapsulate_spec_lengths p (pub_hpk pk) seed) as [Lc Lk].
  eexists. split; [apply (EncapsulateTo_run pk p ct ss seed w Hp Ls Lct Lss Hct)|].
  assert (Hct1 : slice_ok (logged (encaps_events NIST) w) ct) by exact Hct.
  assert (Hss1 : slice_ok (logged (encaps_events NIST) w) ss) by exact Hss.
  split; [|split].
  - rewrite read_stored_other by exact Hne.
    apply read_stored_same; [exact Hct1 | congruence].
  - apply read_stored_same; [|congruence].
    apply slice_ok_stored; assumption.
  - intros s Hs. apply slice_ok_stored.
    + apply slice_ok_stored; assumption.
    + apply slice_ok_stored; [exact Hct1 | exact Hs].
Qed.

(** C5: with a 32-byte seed, EncapsulateTo takes the message to be the seed
    (standardized) or Hash256 of the seed (pre-standard), derives
    (K', r) = Hash512(m ‖ hpk), writes Encrypt(pk, m, r) to ct, and writes to
    ss the first SharedKeySize bytes of the digest (standardized) or
    SHAKE256(K' ‖ Hash256(ciphertext)) (pre-standard). *)
Theorem EncapsulateTo_computes (pk : PublicKey) (p : cpapke.PublicKey)
        (ct ss : slice) (seed : list byte) (w : World) :
  pub_pk pk = Some p ->
  length seed = 32 ->
  len ct = CiphertextSize -> len ss = SharedKeySize ->
  slice_ok w ct -> slice_ok w ss -> base ct <> base ss ->
  let m := if NIST then seed else Hash256 seed in
  let kr := Hash512 (m ++ pub_hpk pk) in
  let c := cpapke.encrypt p m (skipn 32 kr) in
  let K' := firstn SharedKeySize kr in
  exists w',
    EncapsulateTo NIST pk ct ss (Some seed) w = (Ok tt, w')
    /\ read_slice (mem w') ct = c
    /\ read_slice (mem w') ss
       = (if NIST then K' else Shake256 (K' ++ Hash256 c) SharedKeySize).
Proof.
  intros Hp Ls Lct Lss Hct Hss Hne m kr c K'.
  destruct (EncapsulateTo_reads pk p ct ss seed w Hp Ls Lct Lss Hct Hss Hne)
    as (w' & Hrun & Rct & Rss & _).
  exists w'. repeat split; assumption.
Qed.

(** Reading the output buffer back after a decapsulation. *)
Lemma DecapsulateTo_reads (sk : PrivateKey) (s : cpapke.PrivateKey)
      (p : cpapke.PublicKey) (ss : slice) (ct : list byte) (w : World) :
  priv_sk sk = Some s -> priv_pk sk = Some p ->
  length (priv_z sk) = 32 ->
  length ct = CiphertextSize -> len ss = SharedKeySize -> slice_ok w ss ->
  exists w',
    DecapsulateTo NIST sk ss ct w = (Ok tt, w')
    /\ read_slice (mem w') ss
       = Decapsulate_spec NIST s p (priv_hpk sk) (priv_z sk) ct
    /\ log w' = rev (decaps_events NIST) ++ log w
    /\ rng_calls w' = rng_calls w.
Proof.
  intros Hs Hp Lz Lct Lss Hss.
  eexists. split; [apply (DecapsulateTo_run sk s p ss ct w Hs Hp Lz Lct Lss)|].
  split; [|split; reflexivity].
  apply read_stored_same; [exact Hss|].
  rewrite Decapsulate_spec_length. congruence.
Qed.


(** C3: DecapsulateTo is a function of the private key and the ciphertext
    alone: for any ciphertext of length CiphertextSize, valid or not, two
    calls (whatever the worlds and output buffers they run in) succeed and
    write the same SharedKeySize bytes, and consume no randomness. *)
Theorem DecapsulateTo_deterministic (sk : PrivateKey) (s : cpapke.PrivateKey)
        (p : cpapke.PublicKey) (ct : list byte) (ss1 ss2 : slice)
        (w1 w2 : World) :
  priv_sk sk = Some s -> priv_pk sk = Some p ->
  length (priv_z sk) = 32 ->
  length ct = CiphertextSize ->
  len ss1 = SharedKeySize -> len ss2 = SharedKeySize ->
  slice_ok w1 ss1 -> slice_ok w2 ss2 ->
  exists w1' w2',
    DecapsulateTo NIST sk ss1 ct w1 = (Ok tt, w1')
    /\ DecapsulateTo NIST sk ss2 ct w2 = (Ok tt, w2')
    /\ read_slice (mem w1') ss1 = read_slice (mem w2') ss2
    /\ length (read_slice (mem w1') ss1) = SharedKeySize
    /\ rng_calls w1' = rng_calls w1 /\ rng_calls w2' = rng_calls w2.
Proof.
  intros Hs Hp Lz Lct L1 L2 H1 H2.
  destruct (DecapsulateTo_reads sk s p ss1 ct w1 Hs Hp Lz Lct L1 H1)
    as (w1' & R1 & V1 & _ & C1).
  destruct (DecapsulateTo_reads sk s p ss2 ct w2 Hs Hp Lz Lct L2 H2)
    as (w2' & R2 & V2 & _ & C2).
  exists w1', w2'. repeat split; try assumption.
  - congruence.
  - rewrite V1. apply Decapsulate_spec_length.
Qed.

(** The Fujisaki-Okamoto argument on the values: re-encryption of the
    decrypted message reproduces the ciphertext, so it is accepted. *)
Lemma Decapsulate_spec_Encapsulate_spec (p : cpapke.PublicKey)
      (s : cpapke.PrivateKey) (hpk z seed : list byte) :
  DecryptInvertsEncrypt (p, s) -> length seed = 32 ->
  Decapsulate_spec NIST s p hpk z (fst (Encapsulate_spec NIST p hpk seed))
  = snd (Encapsulate_spec NIST p hpk seed).
Proof.
  intros Hdec Ls. unfold Decapsulate_spec, Encapsulate_spec. cbv zeta.
  cbn [fst snd].
  set (m := if NIST then seed else Hash256 seed).
  assert (Lm : length m = 32)
    by (unfold m; destruct NIST; [exact Ls | apply Hash256_length]).
  set (kr := Hash512 (m ++ hpk)).
  assert (Lr : length (skipn 32 kr) = 32)
    by (unfold kr; rewrite length_skipn, Hash512_length; reflexivity).
  pose proof (Hdec m (skipn 32 kr) Lm Lr) as E. cbn [fst snd] in E.
  rewrite E.
  rewrite bytes_Equal_refl.
  destruct NIST; reflexivity.
Qed.

(** C1: for the key pair NewKeyFromSeed derives from a seed of length
    KeySeedSize and an encapsulation seed of length EncapsulationSeedSize,
    DecapsulateTo on the ciphertext written by EncapsulateTo writes exactly
    the shared key EncapsulateTo wrote, in both variants, provided decryption
    inverts encryption for the underlying key pair. *)
Theorem DecapsulateTo_EncapsulateTo (seed eseed : list byte)
        (ct ss ss' : slice) (w : World) :
  length seed = KeySeedSize ->
  length eseed = EncapsulationSeedSize ->
  len ct = CiphertextSize -> len ss = SharedKeySize ->
  len ss' = SharedKeySize ->
  slice_ok w ct -> slice_ok w ss -> slice_ok w ss' ->
  base ct <> base ss ->
  DecryptInvertsEncrypt (keygen NIST (firstn cpapke.KeySeedSize seed)) ->
  exists pk sk w1 w2 w3,
    NewKeyFromSeed NIST seed w = (Ok (pk, sk), w1)
    /\ EncapsulateTo NIST pk ct ss (Some eseed) w1 = (Ok tt, w2)
    /\ DecapsulateTo NIST sk ss' (read_slice (mem w2) ct) w2 = (Ok tt, w3)
    /\ read_slice (mem w3) ss' = read_slice (mem w2) ss.
Proof.
  intros Lseed Le Lct Lss Lss' Hct Hss Hss' Hne Hdec.
  pose proof (NewKeyFromSeed_run seed w Lseed) as Hgen.
  pose proof (KeySeedSize_split seed Lseed) as Lz.
  unfold KeyPairOf in Hgen.
  destruct (keygen NIST (firstn cpapke.KeySeedSize seed)) as [ppk psk].
  set (hpk := Hash256 (cpapke.packPublic ppk)) in *.
  set (pk := mkPublicKey (Some ppk) hpk) in *.
  set (sk := mkPrivateKey (Some psk) (Some ppk) hpk
               (skipn cpapke.KeySeedSize seed)) in *.
  set (w1 := logged [EvKeyGen; EvAbsorb SHA3_256; EvSqueeze SHA3_256] w) in *.
  destruct (EncapsulateTo_reads pk ppk ct ss eseed w1
              eq_refl Le Lct Lss Hct Hss Hne)
    as (w2 & Henc & Rct & Rss & Hok).
  assert (Lc : length (read_slice (mem w2) ct) = CiphertextSize)
    by (rewrite Rct; apply Encapsulate_spec_lengths).
  destruct (DecapsulateTo_reads sk psk ppk ss' (read_slice (mem w2) ct) w2
              eq_refl eq_refl Lz Lc Lss' (Hok ss' Hss'))
    as (w3 & Hdecaps & Rss' & _).
  exists pk, sk, w1, w2, w3. repeat split; try assumption.
  rewrite Rss', Rss, Rct. simpl.
  apply Decapsulate_spec_Encapsulate_spec; assumption.
Qed.

(** C10: PrivateKey.Equal answers true as soon as both embedded public-key
    pointers are nil, whatever the sk, hpk and z fields hold; in particular
    two zero-value private keys compare equal. *)
Theorem PrivateKey_Equal_nil_pk (s1 s2 : option cpapke.PrivateKey)
        (hpk1 z1 hpk2 z2 : list byte) (w : World) :
  PrivateKey_Equal (mkPrivateKey s1 None hpk1 z1)
    (ThisPrivateKey (mkPrivateKey s2 None hpk2 z2)) w = (Ok true, w)
  /\ PrivateKey_Equal PrivateKey_zero (ThisPrivateKey PrivateKey_zero) w
     = (Ok true, w).
Proof. split; reflexivity. Qed.

Lemma PrivateKey_Pack_run (sk : PrivateKey) (s : cpapke.PrivateKey)
      (p : cpapke.PublicKey) (buf : slice) (w : World) :
  priv_sk sk = Some s -> priv_pk sk = Some p -> PrivateKey_wf sk ->
  len buf = PrivateKeySize -> slice_ok w buf ->
  exists w',
    PrivateKey_Pack sk buf w = (Ok tt, w')
    /\ read_slice (mem w') buf
       = cpapke.packPrivate s ++ cpapke.packPublic p
           ++ priv_hpk sk ++ priv_z sk
    /\ log w' = log w.
Proof.
  intros Hs Hp [Lh Lz] Lbuf Hbuf.
  unfold PrivateKey_Pack. rewrite Lbuf, Nat.eqb_refl, Hs, Hp.
  unfold bind. simpl.
  eexists. split; [reflexivity|]. split; [|reflexivity]. simpl.
  set (a := cpapke.PrivateKeySize). set (b := cpapke.PublicKeySize).
  assert (EP : PrivateKeySize = a + b + 64) by reflexivity.
  unfold slice_ok in Hbuf. rewrite Lbuf, EP in Hbuf.
  replace (sub buf 0 a) with (mkSlice (base buf) (off buf + 0) a)
    by (unfold sub; f_equal; lia).
  replace (sub (sub buf a PrivateKeySize) 0 b)
    with (mkSlice (base buf) (off buf + a) b)
    by (unfold sub; simpl; f_equal; lia).
  replace (sub (sub buf a PrivateKeySize) b (PrivateKeySize - a))
    with (mkSlice (base buf) (off buf + (a + b)) 64)
    by (unfold sub; simpl; f_equal; lia).
  replace (sub (mkSlice (base buf) (off buf + (a + b)) 64) 32
             (PrivateKeySize - a - b))
    with (mkSlice (base buf) (off buf + (a + b + 32)) 32)
    by (unfold sub; simpl; f_equal; lia).
  assert (H0 : off buf + len buf <= length (mem w (base buf)))
    by (rewrite Lbuf, EP; exact Hbuf).
  assert (LR : length (read_slice (mem w) buf) = a + b + 64).
  { unfold read_slice. rewrite length_firstn, length_skipn. lia. }
  destruct (write_sub_ok (mem w) buf 0 a (cpapke.packPrivate s) H0)
    as [R1 H1]; [lia|].
  destruct (write_sub_ok _ buf a b (cpapke.packPublic p) H1)
    as [R2 H2]; [lia|].
  destruct (write_sub_ok _ buf (a + b) 64 (priv_hpk sk) H2)
    as [R3 H3]; [lia|].
  destruct (write_sub_ok _ buf (a + b + 32) 32 (priv_z sk) H3)
    as [R4 _]; [lia|].
  rewrite R4, R3, R2, R1.
  apply pack_layout; try assumption.
  - apply cpapke.packPrivate_length.
  - apply cpapke.packPublic_length.
Qed.

Lemma PublicKey_Pack_run (pk : PublicKey) (p : cpapke.PublicKey)
      (buf : slice) (w : World) :
  pub_pk pk = Some p -> len buf = PublicKeySize -> slice_ok w buf ->
  exists w',
    PublicKey_Pack pk buf w = (Ok tt, w')
    /\ read_slice (mem w') buf = cpapke.packPublic p
    /\ log w' = log w.
Proof.
  intros Hp Lbuf Hbuf. unfold PublicKey_Pack.
  rewrite Lbuf, Nat.eqb_refl, Hp. unfold bind. simpl.
  eexists. split; [reflexivity|]. split; [|reflexivity]. simpl.
  apply read_write_same; [exact Hbuf|].
  rewrite cpapke.packPublic_length. now rewrite Lbuf.
Qed.

Lemma packed_lengths (buf : list byte) :
  length buf = PrivateKeySize ->
  length (packed_hpk buf) = 32 /\ length (packed_z buf) = 32.
Proof.
  unfold PrivateKeySize, packed_hpk, packed_z. intros L.
  rewrite length_firstn, !length_skipn. lia.
Qed.

Lemma PrivateKey_Unpack_run_std (sk : PrivateKey) (buf : list byte)
      (w : World) :
  length buf = PrivateKeySize -> PrivateKey_wf sk ->
  PrivateKey_Unpack true sk buf w
  = (Ok (PrivateKey_of_bytes buf,
         if bytes_Equal (Hash256 (packed_pk buf)) (packed_hpk buf)
         then None else Some ErrPrivKey),
     logged [EvAbsorb SHA3_256; EvSqueeze SHA3_256] w).
Proof.
  intros L [Lh Lz]. destruct (packed_lengths buf L) as [Lph Lpz].
  unfold PrivateKey_Unpack. rewrite L, Nat.eqb_refl.
  unfold bind. simpl.
  fold (packed_sk buf) (packed_pk buf) (packed_hpk buf) (packed_z buf).
  fold (Hash256 (packed_pk buf)).
  rewrite (copy_same_length (priv_hpk sk) (packed_hpk buf)) by congruence.
  rewrite (copy_same_length (priv_z sk) (packed_z buf)) by congruence.
  destruct (bytes_Equal _ _); reflexivity.
Qed.

Lemma PrivateKey_Unpack_run_pre (sk : PrivateKey) (buf : list byte)
      (w : World) :
  length buf = PrivateKeySize -> PrivateKey_wf sk ->
  PrivateKey_Unpack false sk buf w = (Ok (PrivateKey_of_bytes buf, None), w).
Proof.
  intros L [Lh Lz]. destruct (packed_lengths buf L) as [Lph Lpz].
  unfold PrivateKey_Unpack. rewrite L, Nat.eqb_refl. simpl.
  fold (packed_sk buf) (packed_pk buf) (packed_hpk buf) (packed_z buf).
  rewrite (copy_same_length (priv_hpk sk) (packed_hpk buf)) by congruence.
  rewrite (copy_same_length (priv_z sk) (packed_z buf)) by congruence.
  reflexivity.
Qed.

(** C6: in the standardized variant PrivateKey.Unpack, on a buffer of
    length PrivateKeySize, hashes the embedded packed public key and returns
    kem.ErrPrivKey exactly when that hash differs from the embedded hpk bytes
    (a buffer of another length gets the distinct error kem.ErrPrivKeySize);
    in the pre-standard variant no hash is computed and every buffer of
    length PrivateKeySize is unpacked as it is. *)
Theorem PrivateKey_Unpack_validation (sk : PrivateKey) (buf : list byte)
        (w : World) :
  length buf = PrivateKeySize -> PrivateKey_wf sk ->
  (exists err w',
      PrivateKey_Unpack true sk buf w = (Ok (PrivateKey_of_bytes buf, err), w')
      /\ (err = Some ErrPrivKey <-> Hash256 (packed_pk buf) <> packed_hpk buf)
      /\ (err = None <-> Hash256 (packed_pk buf) = packed_hpk buf)
      /\ log w' = EvSqueeze SHA3_256 :: EvAbsorb SHA3_256 :: log w)
  /\ ErrPrivKey <> ErrPrivKeySize
  /\ (forall short, length short <> PrivateKeySize ->
        PrivateKey_Unpack true sk short w = (Ok (sk, Some ErrPrivKeySize), w))
  /\ PrivateKey_Unpack false sk buf w = (Ok (PrivateKey_of_bytes buf, None), w).
Proof.
  intros L Hwf. split; [|split; [|split]].
  - eexists. eexists. split; [apply PrivateKey_Unpack_run_std; assumption|].
    destruct (bytes_Equal (Hash256 (packed_pk buf)) (packed_hpk buf)) eqn:E.
    + apply bytes_Equal_spec in E.
      repeat split; try discriminate; try congruence.
    + assert (N : Hash256 (packed_pk buf) <> packed_hpk buf).
      { intros Q. apply bytes_Equal_spec in Q. congruence. }
      repeat split; try discriminate; try congruence; try contradiction.
  - discriminate.
  - intros short Hs. unfold PrivateKey_Unpack.
    apply Nat.eqb_neq in Hs. rewrite Hs. reflexivity.
  - apply PrivateKey_Unpack_run_pre; assumption.
Qed.

Lemma PublicKey_Unpack_run_std (pk : PublicKey) (buf : list byte)
      (w : World) :
  length buf = PublicKeySize ->
  PublicKey_Unpack true pk buf w
  = match cpapke.unpackPublicMLKEM buf with
    | (p, Some e) => (Ok (mkPublicKey (Some p) (pub_hpk pk), Some e), w)
    | (p, None) =>
        (Ok (mkPublicKey (Some p) (Hash256 buf), None),
         logged [EvAbsorb SHA3_256; EvSqueeze SHA3_256] w)
    end.
Proof.
  intros L. unfold PublicKey_Unpack. rewrite L, Nat.eqb_refl. simpl.
  destruct (cpapke.unpackPublicMLKEM buf) as [p [e|]]; reflexivity.
Qed.

Lemma PublicKey_Unpack_run_pre (pk : PublicKey) (buf : list byte)
      (w : World) :
  length buf = PublicKeySize ->
  PublicKey_Unpack false pk buf w
  = (Ok (mkPublicKey (Some (cpapke.unpackPublic buf)) (Hash256 buf), None),
     logged [EvAbsorb SHA3_256; EvSqueeze SHA3_256] w).
Proof.
  intros L. unfold PublicKey_Unpack. rewrite L, Nat.eqb_refl. reflexivity.
Qed.

(** Unpacking the packed public key of a key pair gives the key back. *)
Lemma PublicKey_Unpack_packed (pk0 : PublicKey) (p : cpapke.PublicKey)
      (w : World) :
  PublicRoundTrip NIST p ->
  PublicKey_Unpack NIST pk0 (cpapke.packPublic p) w
  = (Ok (mkPublicKey (Some p) (Hash256 (cpapke.packPublic p)), None),
     logged [EvAbsorb SHA3_256; EvSqueeze SHA3_256] w).
Proof.
  unfold PublicRoundTrip. intros Hrt.
  destruct NIST.
  - rewrite PublicKey_Unpack_run_std by apply cpapke.packPublic_length.
    now rewrite Hrt.
  - rewrite PublicKey_Unpack_run_pre by apply cpapke.packPublic_length.
    now rewrite Hrt.
Qed.

(** Unpacking a packed private key: the fields come back, the embedded
    hash passes the check of the standardized variant. *)
Lemma PrivateKey_Unpack_packed (sk0 : PrivateKey) (s : cpapke.PrivateKey)
      (p : cpapke.PublicKey) (z : list byte) (w : World) :
  PrivateKey_wf sk0 -> length z = 32 ->
  let hpk := Hash256 (cpapke.packPublic p) in
  exists w',
    PrivateKey_Unpack NIST sk0
      (cpapke.packPrivate s ++ cpapke.packPublic p ++ hpk ++ z) w
    = (Ok (mkPrivateKey (Some (cpapke.unpackPrivate (cpapke.packPrivate s)))
             (Some (cpapke.unpackPublic (cpapke.packPublic p))) hpk z,
           None), w').
Proof.
  intros Hwf Lz hpk.
  set (buf := cpapke.packPrivate s ++ cpapke.packPublic p ++ hpk ++ z).
  assert (Lh : length hpk = 32) by apply Hash256_length.
  assert (L : length buf = PrivateKeySize).
  { unfold buf, PrivateKeySize.
    rewrite !length_app, cpapke.packPrivate_length, cpapke.packPublic_length.
    lia. }
  assert (E1 : packed_sk buf = cpapke.packPrivate s).
  { apply firstn_app_exact, cpapke.packPrivate_length. }
  assert (E2 : skipn cpapke.PrivateKeySize buf
               = cpapke.packPublic p ++ hpk ++ z).
  { apply skipn_app_exact, cpapke.packPrivate_length. }
  assert (E3 : packed_pk buf = cpapke.packPublic p).
  { unfold packed_pk. rewrite E2.
    apply firstn_app_exact, cpapke.packPublic_length. }
  assert (E4 : skipn cpapke.PublicKeySize (skipn cpapke.PrivateKeySize buf)
               = hpk ++ z).
  { rewrite E2. apply skipn_app_exact, cpapke.packPublic_length. }
  assert (E5 : packed_hpk buf = hpk).
  { unfold packed_hpk. rewrite E4. now apply firstn_app_exact. }
  assert (E6 : packed_z buf = z).
  { unfold packed_z. rewrite E4. now apply skipn_app_exact. }
  destruct NIST.
  - rewrite PrivateKey_Unpack_run_std by assumption.
    unfold PrivateKey_of_bytes. rewrite E1, E3, E5, E6.
    fold hpk. rewrite bytes_Equal_refl. eexists. reflexivity.
  - rewrite PrivateKey_Unpack_run_pre by assumption.
    unfold PrivateKey_of_bytes. rewrite E1, E3, E5, E6.
    eexists. reflexivity.
Qed.

(** C7: for the key pair derived from a seed of length KeySeedSize,
    unpacking what PrivateKey.Pack wrote gives a private key Equal to the
    original, unpacking what PublicKey.Pack wrote gives a public key Equal to
    the original, and EncapsulateTo on the unpacked public key behaves as on
    the original; the encryption scheme's own keys are assumed to survive
    its Pack and Unpack. *)
Theorem Unpack_Pack_identity (seed : list byte) (sk0 : PrivateKey)
        (pk0 : PublicKey) (buf pbuf : slice) (w : World) :
  length seed = KeySeedSize ->
  len buf = PrivateKeySize -> slice_ok w buf ->
  len pbuf = PublicKeySize -> slice_ok w pbuf ->
  PrivateKey_wf sk0 ->
  PublicRoundTrip NIST (fst (keygen NIST (firstn cpapke.KeySeedSize seed))) ->
  PrivateRoundTrip (snd (keygen NIST (firstn cpapke.KeySeedSize seed))) ->
  exists pk sk w1,
    NewKeyFromSeed NIST seed w = (Ok (pk, sk), w1)
    /\ (exists w2 w3 sk',
           PrivateKey_Pack sk buf w1 = (Ok tt, w2)
           /\ PrivateKey_Unpack NIST sk0 (read_slice (mem w2) buf) w2
              = (Ok (sk', None), w3)
           /\ PrivateKey_Equal sk' (ThisPrivateKey sk) w3
              = (Ok true, logged [EvConstantTimeCompare] w3))
    /\ (exists w2 w3 pk',
           PublicKey_Pack pk pbuf w1 = (Ok tt, w2)
           /\ PublicKey_Unpack NIST pk0 (read_slice (mem w2) pbuf) w2
              = (Ok (pk', None), w3)
           /\ PublicKey_Equal pk' (ThisPublicKey pk) w3 = (Ok true, w3)
           /\ forall ct ss eseed w4,
                EncapsulateTo NIST pk' ct ss eseed w4
                = EncapsulateTo NIST pk ct ss eseed w4).
Proof.
  intros Lseed Lbuf Hbuf Lpbuf Hpbuf Hwf0 Hpub Hpriv.
  pose proof (NewKeyFromSeed_run seed w Lseed) as Hgen.
  pose proof (KeySeedSize_split seed Lseed) as Lz.
  unfold KeyPairOf in Hgen.
  destruct (keygen NIST (firstn cpapke.KeySeedSize seed)) as [ppk psk].
  cbn [fst snd] in Hpub, Hpriv.
  set (hpk := Hash256 (cpapke.packPublic ppk)) in *.
  set (pk := mkPublicKey (Some ppk) hpk) in *.
  set (sk := mkPrivateKey (Some psk) (Some ppk) hpk
               (skipn cpapke.KeySeedSize seed)) in *.
  set (w1 := logged [EvKeyGen; EvAbsorb SHA3_256; EvSqueeze SHA3_256] w) in *.
  exists pk, sk, w1. split; [exact Hgen|]. split.
  - destruct (PrivateKey_Pack_run sk psk ppk buf w1) as (w2 & Hpack & R & _);
      try reflexivity; try assumption.
    { split; [apply Hash256_length | exact Lz]. }
    destruct (PrivateKey_Unpack_packed sk0 psk ppk
                (skipn cpapke.KeySeedSize seed) w2 Hwf0 Lz) as (w3 & Hun).
    exists w2, w3. eexists. split; [exact Hpack|]. split.
    + rewrite R. exact Hun.
    + unfold PrivateKey_Equal. simpl.
      rewrite bytes_Equal_refl. cbn [negb]. unfold bind.
      rewrite subtle_ConstantTimeCompare_run, bytes_Equal_refl. simpl.
      unfold ret. unfold PrivateRoundTrip in Hpriv. now rewrite Hpriv.
  - destruct (PublicKey_Pack_run pk ppk pbuf w1) as (w2 & Hpack & R & _);
      try reflexivity; try assumption.
    exists w2. eexists. exists pk.
    split; [exact Hpack|]. split; [|split].
    + rewrite R. apply PublicKey_Unpack_packed. exact Hpub.
    + unfold PublicKey_Equal. simpl. now rewrite bytes_Equal_refl.
    + reflexivity.
Qed.

Lemma KeyPairOf_cached (seed : list byte) :
  hpk_cached (pub_pk (fst (KeyPairOf NIST seed)))
             (pub_hpk (fst (KeyPairOf NIST seed)))
  /\ hpk_cached (priv_pk (snd (KeyPairOf NIST seed)))
                (priv_hpk (snd (KeyPairOf NIST seed))).
Proof.
  unfold KeyPairOf.
  destruct (keygen NIST (firstn cpapke.KeySeedSize seed)) as [ppk psk].
  simpl. split; exists ppk; split; reflexivity.
Qed.

Lemma fill_length (f : nat -> byte) (n : nat) : length (fill f n) = n.
Proof. unfold fill. now rewrite length_map, length_seq. Qed.

Lemma GenerateKeyPair_run (rand : option Reader) (w : World) :
  GenerateKeyPair NIST rand w
  = match reader_outcome rand w with
    | Fail e => (Ok (None, None, Some e), after_read rand w)
    | Fill f =>
        let kp := KeyPairOf NIST (fill f KeySeedSize) in
        (Ok (Some (fst kp), Some (snd kp), None),
         logged [EvKeyGen; EvAbsorb SHA3_256; EvSqueeze SHA3_256]
           (after_read rand w))
    end.
Proof.
  unfold GenerateKeyPair, reader_outcome, after_read.
  destruct rand as [[|[f|e]]|]; unfold bind, io_ReadFull; simpl;
    try destruct (rng w (rng_calls w)) as [f|e]; simpl;
    try reflexivity;
    rewrite make_length;
    rewrite NewKeyFromSeed_run by apply fill_length;
    destruct (KeyPairOf NIST (fill f KeySeedSize)) as [pk sk];
    reflexivity.
Qed.

(** C4, as the code has it: the keys NewKeyFromSeed and GenerateKeyPair
    return hold hpk = Hash256 of the packed encoding of their public key, in
    both variants.  PublicKey.Unpack, and the standardized PrivateKey.Unpack
    when it returns no error, store the Hash256 of the public-key bytes of
    the buffer, which is the hash of the packed key whenever the encryption
    scheme packs the unpacked key back to those bytes.  The pre-standard
    PrivateKey.Unpack stores the hpk bytes of the buffer as they are. *)
Theorem hpk_cached_by_construction (seed pbuf kbuf : list byte)
        (rand : option Reader) (pk0 : PublicKey) (sk0 : PrivateKey)
        (w : World) :
  length seed = KeySeedSize ->
  length pbuf = PublicKeySize ->
  length kbuf = PrivateKeySize -> PrivateKey_wf sk0 ->
  (exists pk sk w',
      NewKeyFromSeed NIST seed w = (Ok (pk, sk), w')
      /\ hpk_cached (pub_pk pk) (pub_hpk pk)
      /\ hpk_cached (priv_pk sk) (priv_hpk sk))
  /\ (exists r w',
         GenerateKeyPair NIST rand w = (Ok r, w')
         /\ forall pk sk, r = (Some pk, Some sk, None) ->
              hpk_cached (pub_pk pk) (pub_hpk pk)
              /\ hpk_cached (priv_pk sk) (priv_hpk sk))
  /\ (exists pk' err w',
         PublicKey_Unpack NIST pk0 pbuf w = (Ok (pk', err), w')
         /\ (err = None ->
             exists p, pub_pk pk' = Some p
                       /\ pub_hpk pk' = Hash256 pbuf
                       /\ (cpapke.packPublic p = pbuf ->
                           hpk_cached (pub_pk pk') (pub_hpk pk'))))
  /\ (exists sk' err w',
         PrivateKey_Unpack true sk0 kbuf w = (Ok (sk', err), w')
         /\ (err = None ->
             exists p, priv_pk sk' = Some p
                       /\ priv_hpk sk' = Hash256 (packed_pk kbuf)
                       /\ (cpapke.packPublic p = packed_pk kbuf ->
                           hpk_cached (priv_pk sk') (priv_hpk sk'))))
  /\ (exists sk',
         PrivateKey_Unpack false sk0 kbuf w = (Ok (sk', None), w)
         /\ priv_hpk sk' = packed_hpk kbuf).
Proof.
  intros Lseed Lp Lk Hwf. repeat apply conj.
  - rewrite NewKeyFromSeed_run by exact Lseed.
    destruct (KeyPairOf_cached seed) as [Hpk Hsk].
    destruct (KeyPairOf NIST seed) as [pk sk].
    exists pk, sk. eexists. split; [reflexivity|]. split; assumption.
  - rewrite GenerateKeyPair_run.
    destruct (reader_outcome rand w) as [f|e].
    + eexists. eexists. split; [reflexivity|].
      intros pk sk E. injection E as <- <-. apply KeyPairOf_cached.
    + eexists. eexists. split; [reflexivity|]. intros pk sk E. discriminate.
  - destruct NIST.
    + rewrite PublicKey_Unpack_run_std by exact Lp.
      destruct (cpapke.unpackPublicMLKEM pbuf) as [p [e|]].
      * eexists. eexists. eexists. split; [reflexivity|]. discriminate.
      * eexists. eexists. eexists. split; [reflexivity|]. intros _.
        exists p. repeat split. intros E. exists p. now rewrite E.
    + rewrite PublicKey_Unpack_run_pre by exact Lp.
      eexists. eexists. eexists. split; [reflexivity|]. intros _.
      eexists. repeat split. intros E. eexists. now rewrite E.
  - rewrite PrivateKey_Unpack_run_std by assumption.
    eexists. eexists. eexists. split; [reflexivity|]. intros E.
    destruct (bytes_Equal (Hash256 (packed_pk kbuf)) (packed_hpk kbuf)) eqn:B;
      [|discriminate].
    apply bytes_Equal_spec in B.
    eexists. split; [reflexivity|]. split; [simpl; congruence|].
    intros Q. eexists. split; [reflexivity|]. simpl. rewrite Q. congruence.
  - rewrite PrivateKey_Unpack_run_pre by assumption.
    eexists. split; reflexivity.
Qed.

(** With a nil seed, EncapsulateTo first reads the process-wide entropy
    source: on a failure it panics with the error, otherwise it goes on as
    with the bytes read. *)
Lemma EncapsulateTo_nil_seed (pk : PublicKey) (ct ss : slice) (w : World) :
  EncapsulateTo NIST pk ct ss None w
  = match rng w (rng_calls w) with
    | Fail e => (Panic (PanicError e), entropy_read w)
    | Fill f =>
        EncapsulateTo NIST pk ct ss (Some (fill f EncapsulationSeedSize))
          (entropy_read w)
    end.
Proof.
  unfold EncapsulateTo, cryptoRand_Read, io_ReadFull.
  unfold bind at 1. unfold bind at 1.
  destruct (rng w (rng_calls w)) as [f|e]; [|reflexivity].
  unfold bind at 2. rewrite make_length, fill_length, Nat.eqb_refl.
  reflexivity.
Qed.



(** C9, as the code has it: when the process-wide entropy source fails,
    GenerateKeyPair with a nil reader returns the error as a value, with no
    keys, and EncapsulateTo with a nil seed panics with that error; in both
    the only thing done is the failed read: no key is derived, nothing is
    hashed or encrypted, and no buffer is written. *)
Theorem entropy_failure (e : error) (pk : PublicKey) (ct ss : slice)
        (w : World) :
  rng w (rng_calls w) = Fail e ->
  GenerateKeyPair NIST None w = (Ok (None, None, Some e), entropy_read w)
  /\ EncapsulateTo NIST pk ct ss None w
     = (Panic (PanicError e), entropy_read w).
Proof.
  intros Hfail. split.
  - rewrite GenerateKeyPair_run. simpl. now rewrite Hfail.
  - rewrite EncapsulateTo_nil_seed. now rewrite Hfail.
Qed.

(** Outside the hypotheses of C2 and C3: a private key whose sk pointer is
    nil makes DecapsulateTo panic on the dereference, before anything is
    computed or written. *)
Remark DecapsulateTo_nil_sk (sk : PrivateKey) (ss : slice) (ct : list byte)
       (w : World) :
  priv_sk sk = None ->
  length ct = CiphertextSize -> len ss = SharedKeySize ->
  DecapsulateTo NIST sk ss ct w = (Panic PanicNilDeref, w).
Proof.
  intros Hs Lct Lss. unfold DecapsulateTo.
  rewrite Lct, Lss, !Nat.eqb_refl, Hs. reflexivity.
Qed.

(** Encapsulation with a given seed is deterministic: two calls with the
    same public key and seed, in whatever worlds and buffers, write the same
    ciphertext and the same shared key, and read no entropy. *)
Theorem EncapsulateTo_deterministic (pk : PublicKey) (p : cpapke.PublicKey)
        (seed : list byte) (ct1 ss1 ct2 ss2 : slice) (w1 w2 : World) :
  pub_pk pk = Some p ->
  length seed = EncapsulationSeedSize ->
  len ct1 = CiphertextSize -> len ss1 = SharedKeySize ->
  len ct2 = CiphertextSize -> len ss2 = SharedKeySize ->
  slice_ok w1 ct1 -> slice_ok w1 ss1 -> base ct1 <> base ss1 ->
  slice_ok w2 ct2 -> slice_ok w2 ss2 -> base ct2 <> base ss2 ->
  exists w1' w2',
    EncapsulateTo NIST pk ct1 ss1 (Some seed) w1 = (Ok tt, w1')
    /\ EncapsulateTo NIST pk ct2 ss2 (Some seed) w2 = (Ok tt, w2')
    /\ read_slice (mem w1') ct1 = read_slice (mem w2') ct2
    /\ read_slice (mem w1') ss1 = read_slice (mem w2') ss2
    /\ rng_calls w1' = rng_calls w1 /\ rng_calls w2' = rng_calls w2.
Proof.
  intros Hp Ls Lc1 Ls1 Lc2 Ls2 Hc1 Hs1 N1 Hc2 Hs2 N2.
  destruct (EncapsulateTo_reads pk p ct1 ss1 seed w1 Hp Ls Lc1 Ls1 Hc1 Hs1 N1)
    as (w1' & R1 & C1 & K1 & _).
  destruct (EncapsulateTo_reads pk p ct2 ss2 seed w2 Hp Ls Lc2 Ls2 Hc2 Hs2 N2)
    as (w2' & R2 & C2 & K2 & _).
  exists w1', w2'. split; [exact R1|]. split; [exact R2|].
  split; [congruence|]. split; [congruence|].
  rewrite (EncapsulateTo_run pk p ct1 ss1 seed w1 Hp Ls Lc1 Ls1 Hc1) in R1.
  rewrite (EncapsulateTo_run pk p ct2 ss2 seed w2 Hp Ls Lc2 Ls2 Hc2) in R2.
  injection R1 as <-. injection R2 as <-. split; reflexivity.
Qed.

(** NewKeyFromSeed on a seed of length KeySeedSize returns a private key
    that holds the very public key of the returned public key, the same
    hpk, and the last 32 bytes of the seed as z; on any other length it
    panics before the key generator is called. *)
Theorem NewKeyFromSeed_shape (seed : list byte) (w : World) :
  (length seed = KeySeedSize ->
   exists pk sk w',
     NewKeyFromSeed NIST seed w = (Ok (pk, sk), w')
     /\ priv_pk sk = pub_pk pk
     /\ pub_pk pk
        = Some (fst (keygen NIST (firstn cpapke.KeySeedSize seed)))
     /\ priv_sk sk
        = Some (snd (keygen NIST (firstn cpapke.KeySeedSize seed)))
     /\ priv_hpk sk = pub_hpk pk
     /\ priv_z sk = skipn cpapke.KeySeedSize seed
     /\ length (priv_z sk) = 32)
  /\ (length seed <> KeySeedSize ->
      NewKeyFromSeed NIST seed w
      = (Panic (PanicString "seed must be of length KeySeedSize"), w)).
Proof.
  split.
  - intros L. rewrite (NewKeyFromSeed_run seed w L). unfold KeyPairOf.
    destruct (keygen NIST (firstn cpapke.KeySeedSize seed)) as [ppk psk].
    eexists. eexists. eexists. split; [reflexivity|]. simpl.
    repeat split. apply KeySeedSize_split. exact L.
  - intros L. unfold NewKeyFromSeed.
    apply Nat.eqb_neq in L. rewrite L. reflexivity.
Qed.

(** Pack refuses a buffer of the wrong length before writing anything:
    both Pack methods panic with the world untouched. *)
Theorem Pack_bad_size (sk : PrivateKey) (pk : PublicKey) (buf pbuf : slice)
        (w : World) :
  len buf <> PrivateKeySize -> len pbuf <> PublicKeySize ->
  PrivateKey_Pack sk buf w
  = (Panic (PanicString "buf must be of length PrivateKeySize"), w)
  /\ PublicKey_Pack pk pbuf w
     = (Panic (PanicString "buf must be of length PublicKeySize"), w).
Proof.
  intros L1 L2. unfold PrivateKey_Pack, PublicKey_Pack.
  apply Nat.eqb_neq in L1, L2. rewrite L1, L2. split; reflexivity.
Qed.

End KEM_Proofs.

(** *** The small instance *)

Import Toy.

Lemma byte_to_of_Z (v : Z) : (0 <= v < 256)%Z -> byte_to_Z (byte_of_Z v) = v.
Proof.
  intros Hv. unfold byte_of_Z, byte_to_Z. rewrite Z.mod_small by exact Hv.
  destruct (Byte.of_N (Z.to_N v)) as [b|] eqn:E.
  - apply Byte.to_of_N in E. rewrite E. apply Z2N.id. lia.
  - apply Byte.of_N_None_iff in E. lia.
Qed.

Lemma toy_xor_involutive (a b : byte) :
  Toy.byte_xor a (Toy.byte_xor a b) = b.
Proof.
  unfold Toy.byte_xor.
  rewrite byte_to_of_Z by apply lxor_byte_range.
  rewrite <- Z.lxor_assoc, Z.lxor_nilpotent, Z.lxor_0_l.
  apply byte_of_to_Z.
Qed.

Lemma toy_mask_involutive (a : byte) (m : list byte) :
  map (Toy.byte_xor a) (map (Toy.byte_xor a) m) = m.
Proof.
  induction m as [|b m IH]; simpl; [reflexivity|].
  now rewrite toy_xor_involutive, IH.
Qed.

(** Decryption inverts encryption for every key pair of the instance. *)
Lemma toy_decrypt_encrypt (k : list byte) :
  DecryptInvertsEncrypt (PKE := Toy.pke) (k, k).
Proof.
  intros m r Lm Lr. simpl. unfold Toy.decrypt, Toy.encrypt.
  assert (L2 : length (firstn 2 r) = 2) by (rewrite length_firstn; lia).
  rewrite (copy_same_length (make 34))
    by (rewrite make_length, length_app, length_map; lia).
  rewrite firstn_app_exact by (rewrite length_map; exact Lm).
  rewrite toy_mask_involutive.
  apply copy_same_length. now rewrite make_length.
Qed.

(** C1, run for both variants on the seeds 0, 1, 2, ... *)
Lemma DecapsulateTo_EncapsulateTo_witness :
  (exists pk sk w1 w2 w3,
      NewKeyFromSeed true (Toy.counting 34) Toy.world = (Ok (pk, sk), w1)
      /\ EncapsulateTo true pk Toy.ct_buf Toy.ss_buf
           (Some (Toy.counting 32)) w1 = (Ok tt, w2)
      /\ DecapsulateTo true sk Toy.ss_buf2
           (read_slice (mem w2) Toy.ct_buf) w2 = (Ok tt, w3)
      /\ read_slice (mem w3) Toy.ss_buf2 = read_slice (mem w2) Toy.ss_buf)
  /\ (exists pk sk w1 w2 w3,
      NewKeyFromSeed false (Toy.counting 34) Toy.world = (Ok (pk, sk), w1)
      /\ EncapsulateTo false pk Toy.ct_buf Toy.ss_buf
           (Some (Toy.counting 32)) w1 = (Ok tt, w2)
      /\ DecapsulateTo false sk Toy.ss_buf2
           (read_slice (mem w2) Toy.ct_buf) w2 = (Ok tt, w3)
      /\ read_slice (mem w3) Toy.ss_buf2 = read_slice (mem w2) Toy.ss_buf).
Proof.
  split.
  - apply (@DecapsulateTo_EncapsulateTo Toy.sponge Toy.pke true);
      try reflexivity; try (vm_compute; lia); try discriminate.
    apply toy_decrypt_encrypt.
  - apply (@DecapsulateTo_EncapsulateTo Toy.sponge Toy.pke false);
      try reflexivity; try (vm_compute; lia); try discriminate.
    apply toy_decrypt_encrypt.
Defined.


(** C3, run on the rejected ciphertext in two different worlds and
    output buffers. *)
Lemma DecapsulateTo_deterministic_witness :
  exists w1' w2',
    DecapsulateTo false (snd (Toy.keys false)) Toy.ss_buf (make 34) Toy.world
    = (Ok tt, w1')
    /\ DecapsulateTo false (snd (Toy.keys false)) Toy.ss_buf2 (make 34)
         Toy.starved = (Ok tt, w2')
    /\ read_slice (mem w1') Toy.ss_buf = read_slice (mem w2') Toy.ss_buf2
    /\ length (read_slice (mem w1') Toy.ss_buf) = SharedKeySize
    /\ rng_calls w1' = rng_calls Toy.world
    /\ rng_calls w2' = rng_calls Toy.starved.
Proof.
  apply (@DecapsulateTo_deterministic Toy.sponge Toy.pke false
           (snd (Toy.keys false)) (Toy.inner false) (Toy.inner false));
    try reflexivity; vm_compute; lia.
Defined.

(** C5, run for both variants. *)
Lemma EncapsulateTo_computes_witness :
  (exists w',
      EncapsulateTo true (fst (Toy.keys true)) Toy.ct_buf Toy.ss_buf
        (Some (Toy.counting 32)) Toy.world = (Ok tt, w')
      /\ read_slice (mem w') Toy.ct_buf
         = fst (Encapsulate_spec true (Toy.inner true)
                  (pub_hpk (fst (Toy.keys true))) (Toy.counting 32))
      /\ read_slice (mem w') Toy.ss_buf
         = snd (Encapsulate_spec true (Toy.inner true)
                  (pub_hpk (fst (Toy.keys true))) (Toy.counting 32)))
  /\ (exists w',
      EncapsulateTo false (fst (Toy.keys false)) Toy.ct_buf Toy.ss_buf
        (Some (Toy.counting 32)) Toy.world = (Ok tt, w')
      /\ read_slice (mem w') Toy.ct_buf
         = fst (Encapsulate_spec false (Toy.inner false)
                  (pub_hpk (fst (Toy.keys false))) (Toy.counting 32))
      /\ read_slice (mem w') Toy.ss_buf
         = snd (Encapsulate_spec false (Toy.inner false)
                  (pub_hpk (fst (Toy.keys false))) (Toy.counting 32))).
Proof.
  split.
  - apply (@EncapsulateTo_computes Toy.sponge Toy.pke true
             (fst (Toy.keys true)) (Toy.inner true));
      try reflexivity; try discriminate; vm_compute; lia.
  - apply (@EncapsulateTo_computes Toy.sponge Toy.pke false
             (fst (Toy.keys false)) (Toy.inner false));
      try reflexivity; try discriminate; vm_compute; lia.
Defined.

(** C6, run on a buffer of 68 zero bytes, whose embedded hash does not
    match. *)
Lemma PrivateKey_Unpack_validation_witness :
  (exists err w',
      PrivateKey_Unpack true PrivateKey_zero (make 68) Toy.world
      = (Ok (PrivateKey_of_bytes (make 68), err), w')
      /\ (err = Some ErrPrivKey
          <-> Hash256 (packed_pk (make 68)) <> packed_hpk (make 68))
      /\ (err = None
          <-> Hash256 (packed_pk (make 68)) = packed_hpk (make 68))
      /\ log w' = EvSqueeze SHA3_256 :: EvAbsorb SHA3_256 :: log Toy.world)
  /\ ErrPrivKey <> ErrPrivKeySize
  /\ (forall short, length short <> PrivateKeySize ->
        PrivateKey_Unpack true PrivateKey_zero short Toy.world
        = (Ok (PrivateKey_zero, Some ErrPrivKeySize), Toy.world))
  /\ PrivateKey_Unpack false PrivateKey_zero (make 68) Toy.world
     = (Ok (PrivateKey_of_bytes (make 68), None), Toy.world).
Proof.
  apply (@PrivateKey_Unpack_validation Toy.sponge Toy.pke
           PrivateKey_zero (make 68) Toy.world).
  - reflexivity.
  - split; reflexivity.
Defined.

(** The buffer of zeros is refused by the standardized variant. *)
Example PrivateKey_Unpack_zeros_refused :
  match fst (PrivateKey_Unpack true PrivateKey_zero (make 68) Toy.world) with
  | Ok (_, err) => err
  | Panic _ => None
  end = Some ErrPrivKey.
Proof. vm_compute. reflexivity. Qed.

(** C7, run for both variants. *)
Lemma Unpack_Pack_identity_witness :
  Toy.round_trip true /\ Toy.round_trip false.
Proof.
  split.
  - apply (@Unpack_Pack_identity Toy.sponge Toy.pke true (Toy.counting 34)
             PrivateKey_zero PublicKey_zero Toy.key_buf Toy.pub_buf Toy.world);
      try reflexivity; try (vm_compute; lia); split; reflexivity.
  - apply (@Unpack_Pack_identity Toy.sponge Toy.pke false (Toy.counting 34)
             PrivateKey_zero PublicKey_zero Toy.key_buf Toy.pub_buf Toy.world);
      try reflexivity; try (vm_compute; lia); split; reflexivity.
Defined.

(** C4 as amended, run for both variants. *)
Lemma hpk_cached_by_construction_witness :
  Toy.construction_paths true /\ Toy.construction_paths false.
Proof.
  split.
  - apply (@hpk_cached_by_construction Toy.sponge Toy.pke true
             (Toy.counting 34) [x01; x00] (make 68) None
             PublicKey_zero PrivateKey_zero Toy.world);
      try reflexivity. split; reflexivity.
  - apply (@hpk_cached_by_construction Toy.sponge Toy.pke false
             (Toy.counting 34) [x01; x00] (make 68) None
             PublicKey_zero PrivateKey_zero Toy.world);
      try reflexivity. split; reflexivity.
Defined.

(** C4 as stated fails: the pre-standard PrivateKey.Unpack accepts a
    buffer whose hpk bytes (zeros) are not the hash of its public key. *)
Lemma hpk_not_cached_after_Unpack :
  exists sk',
    PrivateKey_Unpack false PrivateKey_zero (make 68) Toy.world
    = (Ok (sk', None), Toy.world)
    /\ priv_pk sk' = Some [x00; x00]
    /\ cpapke.packPublic (cpapke.unpackPublic [x00; x00]) = [x00; x00]
    /\ bytes_Equal (priv_hpk sk') (Hash256 (cpapke.packPublic [x00; x00]))
       = false
    /\ ~ hpk_cached (priv_pk sk') (priv_hpk sk').
Proof.
  exists (PrivateKey_of_bytes (make 68)).
  assert (E2 : priv_pk (PrivateKey_of_bytes (make 68)) = Some [x00; x00])
    by (vm_compute; reflexivity).
  assert (E3 : bytes_Equal (priv_hpk (PrivateKey_of_bytes (make 68)))
                 (Hash256 (cpapke.packPublic [x00; x00])) = false)
    by (vm_compute; reflexivity).
  split; [|split; [exact E2|split; [vm_compute; reflexivity|split]]].
  - apply PrivateKey_Unpack_run_pre; [reflexivity | split; reflexivity].
  - exact E3.
  - intros (p & Ep & Eh). rewrite E2 in Ep. injection Ep as <-.
    apply bytes_Equal_spec in Eh. congruence.
Qed.



(** C9, as amended, run in the world whose entropy source fails. *)
Lemma entropy_failure_witness :
  GenerateKeyPair true None Toy.starved
  = (Ok (None, None, Some (ErrOther "entropy source failed")),
     entropy_read Toy.starved)
  /\ EncapsulateTo true (fst (Toy.keys true)) Toy.ct_buf Toy.ss_buf None
       Toy.starved
     = (Panic (PanicError (ErrOther "entropy source failed")),
        entropy_read Toy.starved).
Proof.
  apply (@entropy_failure Toy.sponge Toy.pke true
           (ErrOther "entropy source failed")).
  reflexivity.
Defined.

(** C9 as stated fails: EncapsulateTo with a nil seed panics when the
    entropy source fails; it has no error result to return. *)
Lemma EncapsulateTo_panics_on_entropy_failure :
  fst (EncapsulateTo true (fst (Toy.keys true)) Toy.ct_buf Toy.ss_buf None
         Toy.starved)
  = Panic (PanicError (ErrOther "entropy source failed"))
  /\ forall r, fst (EncapsulateTo true (fst (Toy.keys true)) Toy.ct_buf
                      Toy.ss_buf None Toy.starved) <> Ok r.
Proof.
  split; [vm_compute; reflexivity|].
  intros r. vm_compute. discriminate.
Qed.

(** Determinism of encapsulation, run in two worlds. *)
Lemma EncapsulateTo_deterministic_witness :
  exists w1' w2',
    EncapsulateTo false (fst (Toy.keys false)) Toy.ct_buf Toy.ss_buf
      (Some (Toy.counting 32)) Toy.world = (Ok tt, w1')
    /\ EncapsulateTo false (fst (Toy.keys false)) Toy.ct_buf Toy.ss_buf2
         (Some (Toy.counting 32)) Toy.starved = (Ok tt, w2')
    /\ read_slice (mem w1') Toy.ct_buf = read_slice (mem w2') Toy.ct_buf
    /\ read_slice (mem w1') Toy.ss_buf = read_slice (mem w2') Toy.ss_buf2
    /\ rng_calls w1' = rng_calls Toy.world
    /\ rng_calls w2' = rng_calls Toy.starved.
Proof.
  apply (@EncapsulateTo_deterministic Toy.sponge Toy.pke false
           (fst (Toy.keys false)) (Toy.inner false));
    try reflexivity; try discriminate; vm_compute; lia.
Defined.

(** Pack on buffers of the wrong length. *)
Lemma Pack_bad_size_witness :
  PrivateKey_Pack (snd (Toy.keys true)) Toy.pub_buf Toy.world
  = (Panic (PanicString "buf must be of length PrivateKeySize"), Toy.world)
  /\ PublicKey_Pack (fst (Toy.keys true)) Toy.key_buf Toy.world
     = (Panic (PanicString "buf must be of length PublicKeySize"), Toy.world).
Proof.
  apply (@Pack_bad_size Toy.pke (snd (Toy.keys true))
           (fst (Toy.keys true)) Toy.pub_buf Toy.key_buf Toy.world);
    vm_compute; discriminate.
Defined.

(** The tamper scenario: the last bit of an honest ciphertext is flipped;
    decapsulation still returns, with a key that differs from the one
    encapsulation produced. *)
Example tampered_ciphertext_rejected :
  forallb (fun nist =>
    match EncapsulateTo nist (fst (Toy.keys nist)) Toy.ct_buf Toy.ss_buf
            (Some (Toy.counting 32)) Toy.world with
    | (Ok _, w2) =>
        let ct := read_slice (mem w2) Toy.ct_buf in
        let bad := firstn 33 ct
                   ++ [Toy.byte_xor x01 (last ct x00)] in
        match DecapsulateTo nist (snd (Toy.keys nist)) Toy.ss_buf2 bad w2,
              DecapsulateTo nist (snd (Toy.keys nist)) Toy.ss_buf2 ct w2 with
        | (Ok _, w3), (Ok _, w3') =>
            negb (bytes_Equal (read_slice (mem w3) Toy.ss_buf2)
                              (read_slice (mem w2) Toy.ss_buf))
            && bytes_Equal (read_slice (mem w3') Toy.ss_buf2)
                           (read_slice (mem w2) Toy.ss_buf)
            && (length (read_slice (mem w3) Toy.ss_buf2) =? 32)
        | _, _ => false
        end
    | _ => false
    end) [true; false] = true.
Proof. vm_compute. reflexivity. Qed.

(** The shape of the derived key pair, and the panic on a short seed. *)
Lemma NewKeyFromSeed_shape_witness :
  (exists pk sk w',
      NewKeyFromSeed true (Toy.counting 34) Toy.world = (Ok (pk, sk), w')
      /\ priv_pk sk = pub_pk pk
      /\ pub_pk pk = Some (fst (keygen true (firstn 2 (Toy.counting 34))))
      /\ priv_sk sk = Some (snd (keygen true (firstn 2 (Toy.counting 34))))
      /\ priv_hpk sk = pub_hpk pk
      /\ priv_z sk = skipn 2 (Toy.counting 34)
      /\ length (priv_z sk) = 32)
  /\ NewKeyFromSeed true (Toy.counting 33) Toy.world
     = (Panic (PanicString "seed must be of length KeySeedSize"), Toy.world).
Proof.
  split.
  - apply (proj1 (@NewKeyFromSeed_shape Toy.sponge Toy.pke true
                    (Toy.counting 34) Toy.world)).
    reflexivity.
  - apply (proj2 (@NewKeyFromSeed_shape Toy.sponge Toy.pke true
                    (Toy.counting 33) Toy.world)).
    vm_compute. discriminate.
Defined.

(** * The scheme interface *)

(** *** Allocation *)

Lemma slice_ok_alloc (b n : nat) (w : World) :
  slice_ok (allocated b n w) (mkSlice b 0 n).
Proof.
  unfold slice_ok, allocated; simpl. rewrite Nat.eqb_refl, make_length. lia.
Qed.

Lemma slice_ok_allocated (b n : nat) (s : slice) (w : World) :
  base s <> b -> slice_ok w s -> slice_ok (allocated b n w) s.
Proof.
  unfold slice_ok, allocated; simpl. intros Hb Hs.
  destruct (Nat.eqb_spec (base s) b); [contradiction | exact Hs].
Qed.

(** A write through a part of a slice leaves the bytes around the slice
    as they were. *)
Lemma write_slice_within (m : nat -> list byte) (s s' : slice)
      (v : list byte) :
  off s + len s <= length (m (base s)) ->
  base s' = base s -> off s <= off s' ->
  off s' + len s' <= off s + len s ->
  same_outside s m (write_slice m s' v).
Proof.
  intros Hs Hb Hlo Hhi. unfold same_outside, write_slice.
  rewrite Hb, Nat.eqb_refl. repeat split.
  - intros b Hne. destruct (Nat.eqb_spec b (base s)); [contradiction|].
    reflexivity.
  - rewrite firstn_app, length_firstn.
    replace (off s - Nat.min (off s') (length (m (base s)))) with 0 by lia.
    rewrite firstn_firstn. simpl. rewrite app_nil_r.
    f_equal. lia.
  - set (arr := m (base s)) in *.
    assert (Lr : length (read_slice m s') = len s').
    { unfold read_slice. rewrite Hb. fold arr.
      rewrite length_firstn, length_skipn. lia. }
    rewrite app_assoc, skipn_app.
    rewrite (skipn_all2 (firstn (off s') arr ++ copy (read_slice m s') v))
      by (rewrite length_app, length_firstn, copy_length, Lr; lia).
    rewrite length_app, length_firstn, copy_length, Lr. simpl.
    rewrite skipn_skipn. f_equal. lia.
Qed.

Lemma same_outside_refl (s : slice) (m : nat -> list byte) :
  same_outside s m m.
Proof. repeat split. Qed.

Lemma same_outside_trans (s : slice) (m1 m2 m3 : nat -> list byte) :
  same_outside s m1 m2 -> same_outside s m2 m3 -> same_outside s m1 m3.
Proof.
  intros (A1 & B1 & C1) (A2 & B2 & C2). repeat split.
  - intros b Hb. now rewrite A2, A1.
  - congruence.
  - congruence.
Qed.

Lemma write_sub_step (m : nat -> list byte) (s : slice) (lo n : nat)
      (v : list byte) :
  off s + len s <= length (m (base s)) -> lo + n <= len s ->
  read_slice (write_slice m (mkSlice (base s) (off s + lo) n) v) s
  = splice (read_slice m s) lo n v
  /\ off s + len s
     <= length (write_slice m (mkSlice (base s) (off s + lo) n) v (base s))
  /\ same_outside s m (write_slice m (mkSlice (base s) (off s + lo) n) v).
Proof.
  intros Hs Hn.
  destruct (write_sub_ok m s lo n v Hs Hn) as [R L].
  split; [exact R|]. split; [exact L|].
  apply write_slice_within; simpl; try lia; exact Hs.
Qed.

Section Facade_Proofs.

Context `{SP : sha3.Sponge} `{PKE : cpapke.Scheme}.
Variable NIST : bool.

Local Arguments firstn : simpl never.
Local Arguments skipn : simpl never.
Local Arguments make : simpl never.
Local Arguments copy : simpl never.

(** PrivateKey.Pack, on a key with both pointers set and a buffer of
    PrivateKeySize bytes, leaves in the buffer the packed private key of the
    encryption scheme, its packed public key, hpk and z, in this order, and
    changes no byte outside the buffer; it reads no entropy and calls no
    hash. *)
Theorem PrivateKey_Pack_layout (sk : PrivateKey) (s : cpapke.PrivateKey)
        (p : cpapke.PublicKey) (buf : slice) (w : World) :
  priv_sk sk = Some s -> priv_pk sk = Some p -> PrivateKey_wf sk ->
  len buf = PrivateKeySize -> slice_ok w buf ->
  exists w',
    PrivateKey_Pack sk buf w = (Ok tt, w')
    /\ read_slice (mem w') buf
       = cpapke.packPrivate s ++ cpapke.packPublic p
           ++ priv_hpk sk ++ priv_z sk
    /\ same_outside buf (mem w) (mem w')
    /\ log w' = log w /\ rng_calls w' = rng_calls w.
Proof.
  intros Hs Hp [Lh Lz] Lbuf Hbuf.
  unfold PrivateKey_Pack. rewrite Lbuf, Nat.eqb_refl, Hs, Hp.
  unfold bind. simpl.
  eexists. split; [reflexivity|]. simpl.
  set (a := cpapke.PrivateKeySize). set (b := cpapke.PublicKeySize).
  assert (EP : PrivateKeySize = a + b + 64) by reflexivity.
  unfold slice_ok in Hbuf. rewrite Lbuf, EP in Hbuf.
  replace (sub buf 0 a) with (mkSlice (base buf) (off buf + 0) a)
    by (unfold sub; f_equal; lia).
  replace (sub (sub buf a PrivateKeySize) 0 b)
    with (mkSlice (base buf) (off buf + a) b)
    by (unfold sub; simpl; f_equal; lia).
  replace (sub (sub buf a PrivateKeySize) b (PrivateKeySize - a))
    with (mkSlice (base buf) (off buf + (a + b)) 64)
    by (unfold sub; simpl; f_equal; lia).
  replace (sub (mkSlice (base buf) (off buf + (a + b)) 64) 32
             (PrivateKeySize - a - b))
    with (mkSlice (base buf) (off buf + (a + b + 32)) 32)
    by (unfold sub; simpl; f_equal; lia).
  assert (H0 : off buf + len buf <= length (mem w (base buf)))
    by (rewrite Lbuf, EP; exact Hbuf).
  assert (LR : length (read_slice (mem w) buf) = a + b + 64).
  { unfold read_slice. rewrite length_firstn, length_skipn. lia. }
  destruct (write_sub_step (mem w) buf 0 a (cpapke.packPrivate s) H0)
    as (R1 & H1 & F1); [lia|].
  destruct (write_sub_step _ buf a b (cpapke.packPublic p) H1)
    as (R2 & H2 & F2); [lia|].
  destruct (write_sub_step _ buf (a + b) 64 (priv_hpk sk) H2)
    as (R3 & H3 & F3); [lia|].
  destruct (write_sub_step _ buf (a + b + 32) 32 (priv_z sk) H3)
    as (R4 & _ & F4); [lia|].
  split; [|split; [|split; reflexivity]].
  - rewrite R4, R3, R2, R1.
    apply pack_layout; try assumption.
    + apply cpapke.packPrivate_length.
    + apply cpapke.packPublic_length.
  - eapply same_outside_trans; [|exact F4].
    eapply same_outside_trans; [|exact F3].
    eapply same_outside_trans; [exact F1 | exact F2].
Qed.

(** EncapsulateTo and DecapsulateTo write nowhere but through their
    output slices: every other array, and the bytes before and after ct
    and ss in their own arrays, are as before the call; with a seed given
    no entropy is read. *)
Theorem writes_stay_inside (pk : PublicKey) (p : cpapke.PublicKey)
        (sk : PrivateKey) (s : cpapke.PrivateKey) (q : cpapke.PublicKey)
        (ct ss ss' : slice) (seed ctv : list byte) (w : World) :
  pub_pk pk = Some p ->
  priv_sk sk = Some s -> priv_pk sk = Some q -> length (priv_z sk) = 32 ->
  length seed = EncapsulationSeedSize -> length ctv = CiphertextSize ->
  len ct = CiphertextSize -> len ss = SharedKeySize ->
  len ss' = SharedKeySize ->
  slice_ok w ct -> slice_ok w ss -> slice_ok w ss' ->
  base ct <> base ss ->
  (exists w',
      EncapsulateTo NIST pk ct ss (Some seed) w = (Ok tt, w')
      /\ (forall b, b <> base ct -> b <> base ss -> mem w' b = mem w b)
      /\ firstn (off ct) (mem w' (base ct)) = firstn (off ct) (mem w (base ct))
      /\ skipn (off ct + len ct) (mem w' (base ct))
         = skipn (off ct + len ct) (mem w (base ct))
      /\ firstn (off ss) (mem w' (base ss)) = firstn (off ss) (mem w (base ss))
      /\ skipn (off ss + len ss) (mem w' (base ss))
         = skipn (off ss + len ss) (mem w (base ss))
      /\ rng_calls w' = rng_calls w)
  /\ (exists w',
         DecapsulateTo NIST sk ss' ctv w = (Ok tt, w')
         /\ same_outside ss' (mem w) (mem w')
         /\ rng_calls w' = rng_calls w).
Proof.
  intros Hp Hs Hq Lz Lseed Lctv Lct Lss Lss' Hct Hss Hss' Hne. split.
  - rewrite (EncapsulateTo_run NIST pk p ct ss seed w Hp Lseed Lct Lss Hct).
    eexists. split; [reflexivity|].
    unfold stored, logged; cbn [mem rng_calls].
    set (c := fst (Encapsulate_spec NIST p (pub_hpk pk) seed)).
    set (k := snd (Encapsulate_spec NIST p (pub_hpk pk) seed)).
    assert (F1 : same_outside ct (mem w) (write_slice (mem w) ct c)).
    { apply write_slice_within; try lia; exact Hct. }
    assert (Hss1 : off ss + len ss
                   <= length (write_slice (mem w) ct c (base ss))).
    { rewrite write_slice_length; [exact Hss | exact Hct]. }
    assert (F2 : same_outside ss (write_slice (mem w) ct c)
                   (write_slice (write_slice (mem w) ct c) ss k)).
    { apply write_slice_within; try lia; exact Hss1. }
    destruct F1 as (A1 & B1 & C1). destruct F2 as (A2 & B2 & C2).
    repeat split.
    + intros b Hb1 Hb2. now rewrite A2, A1.
    + rewrite A2 by exact Hne. exact B1.
    + rewrite A2 by exact Hne. exact C1.
    + rewrite B2. rewrite A1 by (intros E; apply Hne; now rewrite E).
      reflexivity.
    + rewrite C2. rewrite A1 by (intros E; apply Hne; now rewrite E).
      reflexivity.
  - rewrite (DecapsulateTo_run NIST sk s q ss' ctv w Hs Hq Lz Lctv Lss').
    eexists. split; [reflexivity|]. simpl. split; [|reflexivity].
    apply write_slice_within; try lia; exact Hss'.
Qed.

Lemma scheme_DeriveKeyPair_run (seed : list byte) (w : World) :
  length seed = KeySeedSize ->
  scheme_DeriveKeyPair NIST seed w
  = (Ok (Pointer (Some (fst (KeyPairOf NIST seed))),
         Pointer (Some (snd (KeyPairOf NIST seed)))),
     logged [EvKeyGen; EvAbsorb SHA3_256; EvSqueeze SHA3_256] w).
Proof.
  intros L. unfold scheme_DeriveKeyPair. rewrite L, Nat.eqb_refl.
  unfold bind. simpl. rewrite (NewKeyFromSeed_run NIST seed w L).
  destruct (KeyPairOf NIST seed) as [pk sk]. reflexivity.
Qed.

Lemma scheme_EncapsulateDeterministically_run (b_ct b_ss : nat)
      (pk : PublicKey) (p : cpapke.PublicKey) (seed : list byte)
      (w : World) :
  pub_pk pk = Some p -> length seed = EncapsulationSeedSize ->
  b_ct <> b_ss ->
  exists w',
    scheme_EncapsulateDeterministically NIST b_ct b_ss (ThisPublicKey pk)
      (Some seed) w
    = (Ok (Some (fst (Encapsulate_spec NIST p (pub_hpk pk) seed)),
           Some (snd (Encapsulate_spec NIST p (pub_hpk pk) seed)), None),
       w')
    /\ rng_calls w' = rng_calls w
    /\ log w' = rev (encaps_events NIST) ++ log w
    /\ forall b, b <> b_ct -> b <> b_ss -> mem w' b = mem w b.
Proof.
  intros Hp Ls Hne. unfold scheme_EncapsulateDeterministically.
  rewrite Ls, Nat.eqb_refl. cbn [negb].
  unfold bind, alloc. cbv beta iota.
  set (w1 := allocated b_ss SharedKeySize
               (allocated b_ct CiphertextSize w)).
  set (ct := mkSlice b_ct 0 CiphertextSize).
  set (ss := mkSlice b_ss 0 SharedKeySize).
  assert (Hct : slice_ok w1 ct).
  { apply slice_ok_allocated; [exact Hne | apply slice_ok_alloc]. }
  assert (Hss : slice_ok w1 ss) by apply slice_ok_alloc.
  destruct (EncapsulateTo_reads NIST pk p ct ss seed w1 Hp Ls
              eq_refl eq_refl Hct Hss Hne) as (w2 & Hrun & Rct & Rss & _).
  pose proof (EncapsulateTo_run NIST pk p ct ss seed w1 Hp Ls
                eq_refl eq_refl Hct) as Hrun2.
  rewrite Hrun in Hrun2. injection Hrun2 as Ew2.
  rewrite Hrun. unfold load, ret. rewrite Rct, Rss.
  exists w2. split; [reflexivity|]. rewrite Ew2.
  split; [reflexivity|]. split; [reflexivity|].
  intros b H1 H2. unfold stored, logged; cbn [mem]. unfold write_slice.
  cbn [base ss ct].
  destruct (Nat.eqb_spec b b_ss); [contradiction|].
  destruct (Nat.eqb_spec b b_ct); [contradiction|].
  unfold w1, allocated; cbn [mem].
  destruct (Nat.eqb_spec b b_ss); [contradiction|].
  destruct (Nat.eqb_spec b b_ct); [contradiction|]. reflexivity.
Qed.

Lemma scheme_Decapsulate_run (b_ss : nat) (sk : PrivateKey)
      (s : cpapke.PrivateKey) (p : cpapke.PublicKey) (ct : list byte)
      (w : World) :
  priv_sk sk = Some s -> priv_pk sk = Some p ->
  length (priv_z sk) = 32 -> length ct = CiphertextSize ->
  exists w',
    scheme_Decapsulate NIST b_ss (ThisPrivateKey sk) ct w
    = (Ok (Some (Decapsulate_spec NIST s p (priv_hpk sk) (priv_z sk) ct),
           None), w')
    /\ rng_calls w' = rng_calls w
    /\ log w' = rev (decaps_events NIST) ++ log w
    /\ forall b, b <> b_ss -> mem w' b = mem w b.
Proof.
  intros Hs Hp Lz Lct. unfold scheme_Decapsulate.
  rewrite Lct, Nat.eqb_refl. cbn [negb].
  unfold bind, alloc. cbv beta iota.
  set (w1 := allocated b_ss SharedKeySize w).
  set (ss := mkSlice b_ss 0 SharedKeySize).
  assert (Hss : slice_ok w1 ss) by apply slice_ok_alloc.
  destruct (DecapsulateTo_reads NIST sk s p ss ct w1 Hs Hp Lz Lct
              eq_refl Hss) as (w2 & Hrun & Rss & Hlog & Hrng).
  pose proof (DecapsulateTo_run NIST sk s p ss ct w1 Hs Hp Lz Lct eq_refl)
    as Hrun2.
  rewrite Hrun in Hrun2. injection Hrun2 as Ew2.
  rewrite Hrun. unfold load, ret. rewrite Rss.
  exists w2. split; [reflexivity|].
  split; [exact Hrng|]. split; [exact Hlog|].
  intros b Hb. rewrite Ew2. unfold stored, logged; cbn [mem].
  unfold write_slice. cbn [base ss].
  destruct (Nat.eqb_spec b b_ss); [contradiction|].
  unfold w1, allocated; cbn [mem].
  destruct (Nat.eqb_spec b b_ss); [contradiction|]. reflexivity.
Qed.

(** Through the scheme interface: for the key pair DeriveKeyPair returns
    for a seed of length KeySeedSize, Decapsulate on the ciphertext returned
    by EncapsulateDeterministically returns the same shared key, with nil
    errors throughout, provided decryption inverts encryption for the
    underlying key pair.  The ciphertext has CiphertextSize bytes and the
    key SharedKeySize. *)
Theorem scheme_Decapsulate_Encapsulate (seed eseed : list byte)
        (b_ct b_ss b_ss' : nat) (w : World) :
  length seed = KeySeedSize ->
  length eseed = EncapsulationSeedSize ->
  b_ct <> b_ss ->
  DecryptInvertsEncrypt (keygen NIST (firstn cpapke.KeySeedSize seed)) ->
  exists pk sk ct ss w1 w2 w3,
    scheme_DeriveKeyPair NIST seed w
    = (Ok (Pointer (Some pk), Pointer (Some sk)), w1)
    /\ scheme_EncapsulateDeterministically NIST b_ct b_ss (ThisPublicKey pk)
         (Some eseed) w1 = (Ok (Some ct, Some ss, None), w2)
    /\ scheme_Decapsulate NIST b_ss' (ThisPrivateKey sk) ct w2
       = (Ok (Some ss, None), w3)
    /\ length ct = CiphertextSize /\ length ss = SharedKeySize.
Proof.
  intros Lseed Le Hne Hdec.
  pose proof (scheme_DeriveKeyPair_run seed w Lseed) as Hgen.
  pose proof (KeySeedSize_split seed Lseed) as Lz.
  unfold KeyPairOf in Hgen.
  destruct (keygen NIST (firstn cpapke.KeySeedSize seed)) as [ppk psk].
  cbn [fst snd] in Hgen.
  set (hpk := Hash256 (cpapke.packPublic ppk)) in *.
  set (pk := mkPublicKey (Some ppk) hpk) in *.
  set (sk := mkPrivateKey (Some psk) (Some ppk) hpk
               (skipn cpapke.KeySeedSize seed)) in *.
  destruct (scheme_EncapsulateDeterministically_run b_ct b_ss pk ppk eseed
              (logged [EvKeyGen; EvAbsorb SHA3_256; EvSqueeze SHA3_256] w)
              eq_refl Le Hne) as (w2 & Henc & _).
  destruct (Encapsulate_spec_lengths NIST ppk (pub_hpk pk) eseed) as [Lc Lk].
  destruct (scheme_Decapsulate_run b_ss' sk psk ppk
              (fst (Encapsulate_spec NIST ppk (pub_hpk pk) eseed)) w2
              eq_refl eq_refl Lz Lc) as (w3 & Hdecaps & _).
  exists pk, sk. eexists. eexists. eexists. exists w2, w3.
  split; [exact Hgen|]. split; [exact Henc|]. split; [|split; assumption].
  rewrite Hdecaps. do 4 f_equal. cbn [priv_hpk priv_z sk pub_hpk pk].
  apply Decapsulate_spec_Encapsulate_spec; assumption.
Qed.

(** The scheme interface reports a wrong size and a wrong key type as
    error values, the size first: EncapsulateDeterministically with a seed
    that is nil or not of EncapsulationSeedSize bytes returns ErrSeedSize
    whatever the key is, and Decapsulate with a ciphertext not of
    CiphertextSize bytes returns ErrCiphertextSize whatever the key is, both
    with nothing done; with the right size, a key of another scheme gets
    ErrTypeMismatch.  No entropy is read and nothing is hashed, encrypted or
    decrypted on these paths. *)
Theorem scheme_reports_errors (b_ct b_ss : nat) (pk : kem_PublicKey)
        (sk : kem_PrivateKey) (seed : option (list byte))
        (good ct goodct : list byte) (w : World) :
  match seed with Some s => length s | None => 0 end
    <> EncapsulationSeedSize ->
  length good = EncapsulationSeedSize ->
  length ct <> CiphertextSize -> length goodct = CiphertextSize ->
  scheme_EncapsulateDeterministically NIST b_ct b_ss pk seed w
  = (Ok (None, None, Some ErrSeedSize), w)
  /\ scheme_EncapsulateDeterministically NIST b_ct b_ss ForeignPublicKey
       (Some good) w
     = (Ok (None, None, Some ErrTypeMismatch),
        allocated b_ss SharedKeySize (allocated b_ct CiphertextSize w))
  /\ scheme_Encapsulate NIST b_ct b_ss ForeignPublicKey w
     = (Ok (None, None, Some ErrTypeMismatch),
        allocated b_ss SharedKeySize (allocated b_ct CiphertextSize w))
  /\ scheme_Decapsulate NIST b_ss sk ct w
     = (Ok (None, Some ErrCiphertextSize), w)
  /\ scheme_Decapsulate NIST b_ss ForeignPrivateKey goodct w
     = (Ok (None, Some ErrTypeMismatch), w).
Proof.
  intros Hseed Lgood Lct Lgoodct. repeat apply conj.
  - unfold scheme_EncapsulateDeterministically.
    apply Nat.eqb_neq in Hseed. rewrite Hseed. reflexivity.
  - unfold scheme_EncapsulateDeterministically.
    rewrite Lgood, Nat.eqb_refl. reflexivity.
  - reflexivity.
  - unfold scheme_Decapsulate.
    apply Nat.eqb_neq in Lct. rewrite Lct. reflexivity.
  - unfold scheme_Decapsulate. rewrite Lgoodct, Nat.eqb_refl. reflexivity.
Qed.

(** scheme.Encapsulate on a key of this package reads the entropy source
    once, for the 32-byte seed, and then returns what
    EncapsulateDeterministically returns for that seed; when the read fails
    it panics with the error, which never reaches its error result. *)
Theorem scheme_Encapsulate_draws_seed (b_ct b_ss : nat) (pk : PublicKey)
        (w : World) :
  scheme_Encapsulate NIST b_ct b_ss (ThisPublicKey pk) w
  = match rng w (rng_calls w) with
    | Fill f =>
        scheme_EncapsulateDeterministically NIST b_ct b_ss (ThisPublicKey pk)
          (Some (fill f EncapsulationSeedSize)) (entropy_read w)
    | Fail e =>
        (Panic (PanicError e),
         entropy_read
           (allocated b_ss SharedKeySize (allocated b_ct CiphertextSize w)))
    end.
Proof.
  unfold scheme_Encapsulate, scheme_EncapsulateDeterministically.
  unfold bind at 1 2 3. unfold alloc. cbv beta iota.
  rewrite EncapsulateTo_nil_seed. cbn [allocated rng rng_calls].
  destruct (rng w (rng_calls w)) as [f|e]; [|reflexivity].
  rewrite fill_length, Nat.eqb_refl. cbn [negb].
  unfold bind at 4 5 6. cbv beta iota. reflexivity.
Qed.

(** UnmarshalBinaryPrivateKey and UnmarshalBinaryPublicKey return on
    every input, in both variants: a buffer of the wrong length gets
    ErrPrivKeySize or ErrPubKeySize and the nil interface, although the
    pre-standard Unpack methods themselves panic on it; a buffer of the
    right length gets the unpacked key, or, in the standardized variant, the
    error of the failed key check and the nil interface. *)
Theorem scheme_Unmarshal_returns (buf : list byte) (sk0 : PrivateKey)
        (pk0 : PublicKey) (w : World) :
  (exists r w',
      scheme_UnmarshalBinaryPrivateKey NIST buf w = (Ok r, w')
      /\ (length buf <> PrivateKeySize ->
          r = (NilInterface, Some ErrPrivKeySize) /\ w' = w)
      /\ (length buf = PrivateKeySize ->
          r = if NIST && negb (bytes_Equal (Hash256 (packed_pk buf))
                                           (packed_hpk buf))
              then (NilInterface, Some ErrPrivKey)
              else (Pointer (Some (PrivateKey_of_bytes buf)), None)))
  /\ (exists r w',
         scheme_UnmarshalBinaryPublicKey NIST buf w = (Ok r, w')
         /\ (length buf <> PublicKeySize ->
             r = (NilInterface, Some ErrPubKeySize) /\ w' = w)
         /\ (length buf = PublicKeySize ->
             r = match (if NIST then cpapke.unpackPublicMLKEM buf
                        else (cpapke.unpackPublic buf, None)) with
                 | (_, Some e) => (NilInterface, Some e)
                 | (p, None) =>
                     (Pointer (Some (mkPublicKey (Some p) (Hash256 buf))),
                      None)
                 end))
  /\ (length buf <> PrivateKeySize ->
      PrivateKey_Unpack false sk0 buf w
      = (Panic (PanicString "buf must be of length PrivateKeySize"), w))
  /\ (length buf <> PublicKeySize ->
      PublicKey_Unpack false pk0 buf w
      = (Panic (PanicString "buf must be of length PublicKeySize"), w)).
Proof.
  repeat apply conj.
  - unfold scheme_UnmarshalBinaryPrivateKey.
    destruct (Nat.eqb_spec (length buf) PrivateKeySize) as [L|L]; cbn [negb].
    + assert (Hwf : PrivateKey_wf PrivateKey_zero) by (split; reflexivity).
      destruct NIST; unfold bind.
      * rewrite (PrivateKey_Unpack_run_std PrivateKey_zero buf w L Hwf).
        destruct (bytes_Equal (Hash256 (packed_pk buf)) (packed_hpk buf));
          (eexists; eexists; split; [reflexivity|]);
          (split; [intros N; contradiction | intros _; reflexivity]).
      * rewrite (PrivateKey_Unpack_run_pre PrivateKey_zero buf w L Hwf).
        eexists. eexists. split; [reflexivity|].
        split; [intros N; contradiction | intros _; reflexivity].
    + eexists. eexists. split; [reflexivity|].
      split; [intros _; split; reflexivity | intros E; contradiction].
  - unfold scheme_UnmarshalBinaryPublicKey.
    destruct (Nat.eqb_spec (length buf) PublicKeySize) as [L|L].
    + destruct NIST; unfold bind.
      * rewrite (PublicKey_Unpack_run_std PublicKey_zero buf w L).
        destruct (cpapke.unpackPublicMLKEM buf) as [p [e|]];
          (eexists; eexists; split; [reflexivity|]);
          (split; [intros N; contradiction | intros _; reflexivity]).
      * cbn [negb]. rewrite (PublicKey_Unpack_run_pre PublicKey_zero buf w L).
        eexists. eexists. split; [reflexivity|].
        split; [intros N; contradiction | intros _; reflexivity].
    + destruct NIST; unfold bind.
      * unfold PublicKey_Unpack.
        rewrite (proj2 (Nat.eqb_neq _ _) L). cbn [negb].
        eexists. eexists. split; [reflexivity|].
        split; [intros _; split; reflexivity | intros E; contradiction].
      * cbn [negb].
        eexists. eexists. split; [reflexivity|].
        split; [intros _; split; reflexivity | intros E; contradiction].
  - intros L. unfold PrivateKey_Unpack.
    rewrite (proj2 (Nat.eqb_neq _ _) L). reflexivity.
  - intros L. unfold PublicKey_Unpack.
    rewrite (proj2 (Nat.eqb_neq _ _) L). reflexivity.
Qed.

(** The standardized PublicKey.Unpack on its two error paths: a buffer
    of the wrong length returns ErrPubKeySize and leaves the receiver as it
    was; a buffer the encryption scheme's key check refuses returns that
    error with the receiver already holding the refused key and still its
    previous hpk, no hash having been computed. *)
Theorem PublicKey_Unpack_refusals (pk : PublicKey) (short buf : list byte)
        (p : cpapke.PublicKey) (e : error) (w : World) :
  length short <> PublicKeySize ->
  length buf = PublicKeySize ->
  cpapke.unpackPublicMLKEM buf = (p, Some e) ->
  PublicKey_Unpack true pk short w = (Ok (pk, Some ErrPubKeySize), w)
  /\ PublicKey_Unpack true pk buf w
     = (Ok (mkPublicKey (Some p) (pub_hpk pk), Some e), w).
Proof.
  intros Ls Lb He. split.
  - unfold PublicKey_Unpack. rewrite (proj2 (Nat.eqb_neq _ _) Ls).
    reflexivity.
  - rewrite (PublicKey_Unpack_run_std pk buf w Lb), He. reflexivity.
Qed.

(** PublicKey.Equal on two unpacked keys compares the hashes of the two
    buffers and nothing else: it answers true exactly when Hash256 of the two
    encodings coincide. *)
Theorem PublicKey_Equal_unpacked (r1 r2 pk1 pk2 : PublicKey)
        (buf1 buf2 : list byte) (w1 w1' w2 w2' w : World) :
  PublicKey_Unpack NIST r1 buf1 w1 = (Ok (pk1, None), w1') ->
  PublicKey_Unpack NIST r2 buf2 w2 = (Ok (pk2, None), w2') ->
  exists b,
    PublicKey_Equal pk1 (ThisPublicKey pk2) w = (Ok b, w)
    /\ (b = true <-> Hash256 buf1 = Hash256 buf2).
Proof.
  assert (Shape : forall r buf w0 pk w0',
             PublicKey_Unpack NIST r buf w0 = (Ok (pk, None), w0') ->
             exists p, pk = mkPublicKey (Some p) (Hash256 buf)).
  { intros r buf w0 pk w0' H.
    destruct (Nat.eqb_spec (length buf) PublicKeySize) as [L|L].
    - destruct NIST.
      + rewrite (PublicKey_Unpack_run_std r buf w0 L) in H.
        destruct (cpapke.unpackPublicMLKEM buf) as [p [e|]];
          [discriminate|].
        injection H as <- _. eexists. reflexivity.
      + rewrite (PublicKey_Unpack_run_pre r buf w0 L) in H.
        injection H as <- _. eexists. reflexivity.
    - unfold PublicKey_Unpack in H.
      rewrite (proj2 (Nat.eqb_neq _ _) L) in H.
      destruct NIST; discriminate. }
  intros H1 H2.
  destruct (Shape _ _ _ _ _ H1) as [p1 ->].
  destruct (Shape _ _ _ _ _ H2) as [p2 ->].
  exists (bytes_Equal (Hash256 buf1) (Hash256 buf2)).
  split; [reflexivity | apply bytes_Equal_spec].
Qed.

(** MarshalBinary followed by UnmarshalBinary..Key gives the key back: for
    the key pair derived from a seed of length KeySeedSize, the private key
    marshals to PrivateKeySize bytes that unmarshal, with a nil error, to a
    key Equal to it, and the public key marshals to PublicKeySize bytes that
    unmarshal to the same public key; the encryption scheme's own keys are
    assumed to survive its Pack and Unpack. *)
Theorem Unmarshal_Marshal (seed : list byte) (b : nat) (w : World) :
  length seed = KeySeedSize ->
  PublicRoundTrip NIST (fst (keygen NIST (firstn cpapke.KeySeedSize seed))) ->
  PrivateRoundTrip (snd (keygen NIST (firstn cpapke.KeySeedSize seed))) ->
  exists pk sk w1,
    NewKeyFromSeed NIST seed w = (Ok (pk, sk), w1)
    /\ (exists v w2 sk' w3,
           PrivateKey_MarshalBinary b sk w1 = (Ok (v, None), w2)
           /\ length v = PrivateKeySize
           /\ scheme_UnmarshalBinaryPrivateKey NIST v w2
              = (Ok (Pointer (Some sk'), None), w3)
           /\ PrivateKey_Equal sk' (ThisPrivateKey sk) w3
              = (Ok true, logged [EvConstantTimeCompare] w3))
    /\ (exists v w2 w3,
           PublicKey_MarshalBinary b pk w1 = (Ok (v, None), w2)
           /\ length v = PublicKeySize
           /\ scheme_UnmarshalBinaryPublicKey NIST v w2
              = (Ok (Pointer (Some pk), None), w3)).
Proof.
  intros Lseed Hpub Hpriv.
  pose proof (NewKeyFromSeed_run NIST seed w Lseed) as Hgen.
  pose proof (KeySeedSize_split seed Lseed) as Lz.
  unfold KeyPairOf in Hgen.
  destruct (keygen NIST (firstn cpapke.KeySeedSize seed)) as [ppk psk].
  cbn [fst snd] in Hpub, Hpriv.
  set (hpk := Hash256 (cpapke.packPublic ppk)) in *.
  set (pk := mkPublicKey (Some ppk) hpk) in *.
  set (sk := mkPrivateKey (Some psk) (Some ppk) hpk
               (skipn cpapke.KeySeedSize seed)) in *.
  set (w1 := logged [EvKeyGen; EvAbsorb SHA3_256; EvSqueeze SHA3_256] w) in *.
  assert (Hwf0 : PrivateKey_wf PrivateKey_zero) by (split; reflexivity).
  exists pk, sk, w1. split; [exact Hgen|]. split.
  - destruct (PrivateKey_Pack_run sk psk ppk
                (mkSlice b 0 PrivateKeySize) (allocated b PrivateKeySize w1))
      as (w2 & Hpack & R & _);
      try reflexivity; try apply slice_ok_alloc.
    { split; [apply Hash256_length | exact Lz]. }
    cbn [priv_hpk priv_z sk] in R.
    set (v := cpapke.packPrivate psk ++ cpapke.packPublic ppk ++ hpk
                ++ skipn cpapke.KeySeedSize seed) in *.
    assert (Lv : length v = PrivateKeySize).
    { unfold v, PrivateKeySize.
      rewrite !length_app, cpapke.packPrivate_length,
        cpapke.packPublic_length, Lz.
      unfold hpk. rewrite Hash256_length. lia. }
    destruct (PrivateKey_Unpack_packed NIST PrivateKey_zero psk ppk
                (skipn cpapke.KeySeedSize seed) w2 Hwf0 Lz) as (w3 & Hun).
    fold hpk in Hun. fold v in Hun.
    exists v, w2. eexists. exists w3. repeat apply conj.
    + unfold PrivateKey_MarshalBinary, bind, alloc. cbv beta iota.
      rewrite Hpack. unfold load, ret. now rewrite R.
    + exact Lv.
    + unfold scheme_UnmarshalBinaryPrivateKey.
      rewrite Lv, Nat.eqb_refl. cbn [negb]. revert Hun.
      destruct NIST; intros Hun; unfold bind; rewrite Hun; reflexivity.
    + unfold PrivateKey_Equal. simpl.
      rewrite bytes_Equal_refl. cbn [negb]. unfold bind.
      rewrite subtle_ConstantTimeCompare_run, bytes_Equal_refl. simpl.
      unfold ret. unfold PrivateRoundTrip in Hpriv. now rewrite Hpriv.
  - destruct (PublicKey_Pack_run pk ppk
                (mkSlice b 0 PublicKeySize) (allocated b PublicKeySize w1))
      as (w2 & Hpack & R & _);
      try reflexivity; try apply slice_ok_alloc.
    exists (cpapke.packPublic ppk), w2. eexists. repeat apply conj.
    + unfold PublicKey_MarshalBinary, bind, alloc. cbv beta iota.
      rewrite Hpack. unfold load, ret. now rewrite R.
    + apply cpapke.packPublic_length.
    + unfold scheme_UnmarshalBinaryPublicKey.
      pose proof (PublicKey_Unpack_packed NIST PublicKey_zero ppk w2 Hpub)
        as Hun.
      destruct NIST.
      * unfold bind. rewrite Hun. reflexivity.
      * rewrite cpapke.packPublic_length. unfold PublicKeySize.
        rewrite Nat.eqb_refl. cbn [negb]. unfold bind. rewrite Hun.
        reflexivity.
Qed.

(** sk.Public() of a derived private key is the derived public key: the
    same encryption-scheme key and the same hpk, so the two are Equal and
    the cached hash is the hash of the packed key. *)
Theorem Public_of_derived (seed : list byte) (w : World) :
  length seed = KeySeedSize ->
  exists pk sk w',
    NewKeyFromSeed NIST seed w = (Ok (pk, sk), w')
    /\ Public sk = pk
    /\ PublicKey_Equal (Public sk) (ThisPublicKey pk) w' = (Ok true, w')
    /\ hpk_cached (pub_pk (Public sk)) (pub_hpk (Public sk)).
Proof.
  intros L. rewrite (NewKeyFromSeed_run NIST seed w L). unfold KeyPairOf.
  destruct (keygen NIST (firstn cpapke.KeySeedSize seed)) as [ppk psk].
  eexists. eexists. eexists. split; [reflexivity|].
  assert (E : Public (mkPrivateKey (Some psk) (Some ppk)
                        (Hash256 (cpapke.packPublic ppk))
                        (skipn cpapke.KeySeedSize seed))
              = mkPublicKey (Some ppk) (Hash256 (cpapke.packPublic ppk))).
  { unfold Public, PublicKey_zero. cbn [pub_pk pub_hpk priv_pk priv_hpk].
    f_equal. apply copy_array. apply Hash256_length. }
  rewrite E. repeat apply conj.
  - reflexivity.
  - unfold PublicKey_Equal. simpl. now rewrite bytes_Equal_refl.
  - exists ppk. split; reflexivity.
Qed.

(** GenerateKeyPair takes exactly KeySeedSize bytes from its reader and
    returns the key pair NewKeyFromSeed derives from them; when the reader
    fails it returns the error with nil keys, having derived nothing.
    scheme.GenerateKeyPair does the same on the process-wide source, and on
    a failure its two interface results hold nil pointers. *)
Theorem GenerateKeyPair_uses_reader (f : nat -> byte) (e : error)
        (w : World) :
  let kp := KeyPairOf NIST (fill f KeySeedSize) in
  (exists w',
      GenerateKeyPair NIST (Some (ReaderOf (Fill f))) w
      = (Ok (Some (fst kp), Some (snd kp), None), w')
      /\ forall w0, exists w0',
           NewKeyFromSeed NIST (fill f KeySeedSize) w0 = (Ok kp, w0'))
  /\ GenerateKeyPair NIST (Some (ReaderOf (Fail e))) w
     = (Ok (None, None, Some e), logged [EvEntropy] w)
  /\ (rng w (rng_calls w) = Fill f ->
      exists w',
        scheme_GenerateKeyPair NIST w
        = (Ok (Pointer (Some (fst kp)), Pointer (Some (snd kp)), None), w'))
  /\ (rng w (rng_calls w) = Fail e ->
      scheme_GenerateKeyPair NIST w
      = (Ok (Pointer None, Pointer None, Some e), entropy_read w)).
Proof.
  intros kp. repeat apply conj.
  - rewrite GenerateKeyPair_run. cbn [reader_outcome]. cbv zeta. fold kp.
    eexists. split; [reflexivity|].
    intros w0. eexists. apply NewKeyFromSeed_run. apply fill_length.
  - rewrite GenerateKeyPair_run. reflexivity.
  - intros Hf. unfold scheme_GenerateKeyPair, bind.
    rewrite GenerateKeyPair_run. cbn [reader_outcome]. rewrite Hf.
    cbv zeta. fold kp. eexists. reflexivity.
  - intros He. unfold scheme_GenerateKeyPair, bind.
    rewrite GenerateKeyPair_run. cbn [reader_outcome]. rewrite He.
    reflexivity.
Qed.

End Facade_Proofs.

(** ** The scheme interface on the small instance *)

(** Pack of the standardized key pair of the instance into a 68-byte
    buffer. *)
Lemma PrivateKey_Pack_layout_witness :
  exists w',
    PrivateKey_Pack (snd (Toy.keys true)) Toy.key_buf Toy.world = (Ok tt, w')
    /\ read_slice (mem w') Toy.key_buf
       = Toy.inner true ++ Toy.inner true
           ++ priv_hpk (snd (Toy.keys true)) ++ priv_z (snd (Toy.keys true))
    /\ same_outside Toy.key_buf (mem Toy.world) (mem w')
    /\ log w' = log Toy.world /\ rng_calls w' = rng_calls Toy.world.
Proof.
  apply (@PrivateKey_Pack_layout Toy.pke (snd (Toy.keys true))
           (Toy.inner true) (Toy.inner true) Toy.key_buf Toy.world);
    try reflexivity.
  - split; reflexivity.
  - vm_compute; lia.
Defined.

(** Encapsulation into two caller buffers, and decapsulation into a slice
    that starts at offset 4 of its array. *)
Lemma writes_stay_inside_witness :
  (exists w',
      EncapsulateTo true (fst (Toy.keys true)) Toy.ct_buf Toy.ss_buf
        (Some (Toy.counting 32)) Toy.world = (Ok tt, w')
      /\ (forall b, b <> 0 -> b <> 1 -> mem w' b = mem Toy.world b)
      /\ rng_calls w' = rng_calls Toy.world)
  /\ (exists w',
         DecapsulateTo true (snd (Toy.keys true)) Toy.ss_buf2 (make 34)
           Toy.world = (Ok tt, w')
         /\ same_outside Toy.ss_buf2 (mem Toy.world) (mem w')
         /\ rng_calls w' = rng_calls Toy.world).
Proof.
  destruct (@writes_stay_inside Toy.sponge Toy.pke true
              (fst (Toy.keys true)) (Toy.inner true)
              (snd (Toy.keys true)) (Toy.inner true) (Toy.inner true)
              Toy.ct_buf Toy.ss_buf Toy.ss_buf2 (Toy.counting 32) (make 34)
              Toy.world)
    as [(w1 & E1 & O1 & _ & _ & _ & _ & R1) H2];
    try reflexivity; try (vm_compute; lia); try discriminate.
  split; [exists w1; repeat split; assumption | exact H2].
Defined.

(** The round trip through the scheme interface, pre-standard variant. *)
Lemma scheme_Decapsulate_Encapsulate_witness :
  exists pk sk ct ss w1 w2 w3,
    scheme_DeriveKeyPair false (Toy.counting 34) Toy.world
    = (Ok (Pointer (Some pk), Pointer (Some sk)), w1)
    /\ scheme_EncapsulateDeterministically false 10 11 (ThisPublicKey pk)
         (Some (Toy.counting 32)) w1 = (Ok (Some ct, Some ss, None), w2)
    /\ scheme_Decapsulate false 12 (ThisPrivateKey sk) ct w2
       = (Ok (Some ss, None), w3)
    /\ length ct = 34 /\ length ss = 32.
Proof.
  apply (@scheme_Decapsulate_Encapsulate Toy.sponge Toy.pke false
           (Toy.counting 34) (Toy.counting 32) 10 11 12 Toy.world);
    try reflexivity; try discriminate.
  apply toy_decrypt_encrypt.
Defined.

(** A nil seed, an empty ciphertext, and keys of another scheme. *)
Lemma scheme_reports_errors_witness :
  scheme_EncapsulateDeterministically true 10 11
    (ThisPublicKey (fst (Toy.keys true))) None Toy.world
  = (Ok (None, None, Some ErrSeedSize), Toy.world)
  /\ scheme_EncapsulateDeterministically true 10 11 ForeignPublicKey
       (Some (Toy.counting 32)) Toy.world
     = (Ok (None, None, Some ErrTypeMismatch),
        allocated 11 32 (allocated 10 34 Toy.world))
  /\ scheme_Encapsulate true 10 11 ForeignPublicKey Toy.world
     = (Ok (None, None, Some ErrTypeMismatch),
        allocated 11 32 (allocated 10 34 Toy.world))
  /\ scheme_Decapsulate true 11 (ThisPrivateKey (snd (Toy.keys true))) []
       Toy.world
     = (Ok (None, Some ErrCiphertextSize), Toy.world)
  /\ scheme_Decapsulate true 11 ForeignPrivateKey (make 34) Toy.world
     = (Ok (None, Some ErrTypeMismatch), Toy.world).
Proof.
  apply (@scheme_reports_errors Toy.sponge Toy.pke true 10 11
           (ThisPublicKey (fst (Toy.keys true)))
           (ThisPrivateKey (snd (Toy.keys true))) None
           (Toy.counting 32) [] (make 34) Toy.world);
    try reflexivity; vm_compute; discriminate.
Defined.

(** The unmarshalling functions on a buffer that is one byte short, and
    the pre-standard Unpack methods on the same buffers. *)
Lemma scheme_Unmarshal_returns_witness :
  scheme_UnmarshalBinaryPrivateKey false (make 67) Toy.world
  = (Ok (NilInterface, Some ErrPrivKeySize), Toy.world)
  /\ scheme_UnmarshalBinaryPublicKey false (make 1) Toy.world
     = (Ok (NilInterface, Some ErrPubKeySize), Toy.world)
  /\ PrivateKey_Unpack false PrivateKey_zero (make 67) Toy.world
     = (Panic (PanicString "buf must be of length PrivateKeySize"), Toy.world)
  /\ PublicKey_Unpack false PublicKey_zero (make 1) Toy.world
     = (Panic (PanicString "buf must be of length PublicKeySize"), Toy.world).
Proof.
  destruct (@scheme_Unmarshal_returns Toy.sponge Toy.pke false (make 67)
              PrivateKey_zero PublicKey_zero Toy.world)
    as [(r1 & w1 & E1 & S1 & _) [_ [P1 _]]].
  destruct (@scheme_Unmarshal_returns Toy.sponge Toy.pke false (make 1)
              PrivateKey_zero PublicKey_zero Toy.world)
    as [_ [(r2 & w2 & E2 & S2 & _) [_ P2]]].
  destruct S1 as [-> ->]; [vm_compute; discriminate|].
  destruct S2 as [-> ->]; [vm_compute; discriminate|].
  split; [exact E1|]. split; [exact E2|].
  split; [apply P1 | apply P2]; vm_compute; discriminate.
Defined.

(** A one-byte buffer, and a buffer whose first byte is 0xff, which the
    key check of the instance refuses. *)
Lemma PublicKey_Unpack_refusals_witness :
  PublicKey_Unpack true PublicKey_zero [x00] Toy.world
  = (Ok (PublicKey_zero, Some ErrPubKeySize), Toy.world)
  /\ PublicKey_Unpack true PublicKey_zero [xff; x00] Toy.world
     = (Ok (mkPublicKey (Some [xff; x00]) (pub_hpk PublicKey_zero),
            Some (ErrOther "public key not normalized")), Toy.world).
Proof.
  apply (@PublicKey_Unpack_refusals Toy.sponge Toy.pke PublicKey_zero
           [x00] [xff; x00] [xff; x00]
           (ErrOther "public key not normalized") Toy.world);
    try reflexivity.
  vm_compute; discriminate.
Defined.

(** Two different encodings, unpacked and compared. *)
Lemma PublicKey_Equal_unpacked_witness :
  exists b,
    PublicKey_Equal (@mkPublicKey Toy.pke (Some [x01; x00]) (Hash256 [x01; x00]))
      (ThisPublicKey (@mkPublicKey Toy.pke (Some [x02; x00]) (Hash256 [x02; x00])))
      Toy.world = (Ok b, Toy.world)
    /\ (b = true <-> Hash256 [x01; x00] = Hash256 [x02; x00]).
Proof.
  apply (@PublicKey_Equal_unpacked Toy.sponge Toy.pke true
           PublicKey_zero PublicKey_zero
           (@mkPublicKey Toy.pke (Some [x01; x00]) (Hash256 [x01; x00]))
           (@mkPublicKey Toy.pke (Some [x02; x00]) (Hash256 [x02; x00]))
           [x01; x00] [x02; x00]
           Toy.world
           (snd (PublicKey_Unpack true PublicKey_zero [x01; x00] Toy.world))
           Toy.world
           (snd (PublicKey_Unpack true PublicKey_zero [x02; x00] Toy.world))
           Toy.world);
    vm_compute; reflexivity.
Defined.

(** Both keys of the standardized key pair of the instance, marshalled
    and unmarshalled. *)
Lemma Unmarshal_Marshal_witness :
  exists pk sk w1,
    NewKeyFromSeed true (Toy.counting 34) Toy.world = (Ok (pk, sk), w1)
    /\ (exists v w2 sk' w3,
           PrivateKey_MarshalBinary 20 sk w1 = (Ok (v, None), w2)
           /\ length v = 68
           /\ scheme_UnmarshalBinaryPrivateKey true v w2
              = (Ok (Pointer (Some sk'), None), w3)
           /\ PrivateKey_Equal sk' (ThisPrivateKey sk) w3
              = (Ok true, logged [EvConstantTimeCompare] w3))
    /\ (exists v w2 w3,
           PublicKey_MarshalBinary 20 pk w1 = (Ok (v, None), w2)
           /\ length v = 2
           /\ scheme_UnmarshalBinaryPublicKey true v w2
              = (Ok (Pointer (Some pk), None), w3)).
Proof.
  apply (@Unmarshal_Marshal Toy.sponge Toy.pke true (Toy.counting 34) 20
           Toy.world); reflexivity.
Defined.

(** The public half of the derived private key, both variants. *)
Lemma Public_of_derived_witness :
  (exists pk sk w',
      NewKeyFromSeed true (Toy.counting 34) Toy.world = (Ok (pk, sk), w')
      /\ Public sk = pk
      /\ PublicKey_Equal (Public sk) (ThisPublicKey pk) w' = (Ok true, w')
      /\ hpk_cached (pub_pk (Public sk)) (pub_hpk (Public sk)))
  /\ (exists pk sk w',
         NewKeyFromSeed false (Toy.counting 34) Toy.world = (Ok (pk, sk), w')
         /\ Public sk = pk
         /\ PublicKey_Equal (Public sk) (ThisPublicKey pk) w' = (Ok true, w')
         /\ hpk_cached (pub_pk (Public sk)) (pub_hpk (Public sk))).
Proof.
  split.
  - apply (@Public_of_derived Toy.sponge Toy.pke true (Toy.counting 34)
             Toy.world); reflexivity.
  - apply (@Public_of_derived Toy.sponge Toy.pke false (Toy.counting 34)
             Toy.world); reflexivity.
Defined.

(** The process-wide source working, and failing. *)
Lemma GenerateKeyPair_uses_reader_witness :
  (exists w',
      scheme_GenerateKeyPair true Toy.world
      = (Ok (Pointer (Some (fst (Toy.keys true))),
             Pointer (Some (snd (Toy.keys true))), None), w'))
  /\ scheme_GenerateKeyPair true Toy.starved
     = (Ok (Pointer None, Pointer None,
            Some (ErrOther "entropy source failed")),
        entropy_read Toy.starved).
Proof.
  split.
  - apply (@GenerateKeyPair_uses_reader Toy.sponge Toy.pke true
             (fun i => byte_of_Z (Z.of_nat i))
             (ErrOther "entropy source failed") Toy.world).
    reflexivity.
  - apply (@GenerateKeyPair_uses_reader Toy.sponge Toy.pke true
             (fun i => byte_of_Z (Z.of_nat i))
             (ErrOther "entropy source failed") Toy.starved).
    reflexivity.
Defined.

(** * Secret sharing *)

Lemma nth_map_seq (A : Type) (g : nat -> A) (n j : nat) (d : A) :
  j < n -> nth j (map g (seq 0 n)) d = g j.
Proof.
  intros H. rewrite (nth_indep _ d (g 0)) by (now rewrite length_map, length_seq).
  rewrite map_nth, seq_nth by exact H. reflexivity.
Qed.

Lemma int_of_uint_succ (th : Z) :
  (0 <= th < 2 ^ 63 - 1)%Z -> int_of_uint (uint_add th 1) = (th + 1)%Z.
Proof.
  intros H. unfold int_of_uint, uint_add.
  rewrite Z.mod_small by lia.
  destruct (Z.ltb_spec (th + 1) (2 ^ 63)) as [_|N]; [reflexivity | lia].
Qed.

Lemma makeslice_succ (th : Z) :
  (0 <= th < 2 ^ 63 - 1)%Z ->
  makeslice (uint_add th 1) = Ok (S (Z.to_nat th)).
Proof.
  intros H. unfold makeslice, uint_add.
  rewrite Z.mod_small by lia.
  destruct (Z.ltb_spec (th + 1) (2 ^ 63)) as [_|N]; [|lia].
  f_equal. lia.
Qed.

Lemma firstn_seq_le (m : nat) :
  forall i k, m <= k -> firstn m (seq i k) = seq i m.
Proof.
  induction m as [|m IH]; intros i k H; [reflexivity|].
  destruct k as [|k]; [lia|]. simpl. f_equal. apply IH. lia.
Qed.

Section SS_Proofs.

Import group polynomial secretsharing.

Context `{G : group.Group} `{P : @polynomial.Polynomials G}.

(** The share [ShareWithID] builds for [id]. *)
Local Notation "'share_of' ss id" :=
  (mkShare id (Evaluate (poly ss) id))
  (at level 10, ss at level 9, id at level 9).

(** The commitments [CommitSecret] builds: one per coefficient. *)
Local Notation "'commitments' ss n" :=
  (map (fun i => Element_MulGen (Coefficient (poly ss) (Z.of_nat i)))
       (seq 0 n))
  (at level 10, ss at level 9, n at level 9).

Lemma IsEqual_right (a b c : Element) :
  Element_IsEqual b c = true -> Element_IsEqual a b = Element_IsEqual a c.
Proof.
  intros H.
  destruct (Element_IsEqual a b) eqn:E1, (Element_IsEqual a c) eqn:E2;
    try reflexivity.
  - rewrite (IsEqual_trans a b c E1 H) in E2. discriminate.
  - rewrite (IsEqual_trans a c b E2 (IsEqual_sym b c H)) in E1. discriminate.
Qed.

(** The loop of [Verify] is Horner's rule under [MulGen]. *)
Lemma Verify_loop_Horner (c : SecretCommitment) (coef : nat -> Scalar)
      (id : Scalar) (i : nat) :
  forall (sum : Element) (acc : Scalar),
    (forall j, j < i -> nth j c NewElement = Element_MulGen (coef j)) ->
    Element_IsEqual sum (Element_MulGen acc) = true ->
    Element_IsEqual (Verify_loop c id i sum)
                    (Element_MulGen (Horner coef id i acc)) = true.
Proof.
  induction i as [|j IH]; intros sum acc Hc Hs; simpl; [exact Hs|].
  apply IH; [intros k Hk; apply Hc; lia|].
  rewrite (Hc j) by lia.
  eapply IsEqual_trans; [|apply MulGen_Add].
  apply Add_IsEqual.
  eapply IsEqual_trans; [|apply MulGen_Mul].
  apply Mul_IsEqual. exact Hs.
Qed.

Lemma SecretSharing_CommitSecret_run (ss : SecretSharing) :
  (0 <= Degree (poly ss) < 2 ^ 63 - 1)%Z ->
  SecretSharing_CommitSecret ss
  = Ok (commitments ss (S (Z.to_nat (Degree (poly ss))))).
Proof.
  intros H. unfold SecretSharing_CommitSecret.
  now rewrite (makeslice_succ _ H).
Qed.

(** [Verify] on the commitments of [ss], for any share. *)
Lemma Verify_commitments (ss : SecretSharing) (s : Share) :
  (0 <= t ss < 2 ^ 63 - 1)%Z ->
  Degree (poly ss) = t ss ->
  Scalar_IsZero (ID s) = false ->
  Evaluates (poly ss) (ID s) ->
  Verify (t ss) s (commitments ss (S (Z.to_nat (t ss))))
  = Ok (Element_IsEqual (Element_MulGen (Value s))
          (Element_MulGen (Evaluate (poly ss) (ID s)))).
Proof.
  intros Ht Hd Hz He. unfold Verify.
  rewrite length_map, length_seq, (int_of_uint_succ _ Ht), Hz.
  replace (Z.of_nat (S (Z.to_nat (t ss))) =? t ss + 1)%Z with true
    by (symmetry; apply Z.eqb_eq; lia).
  cbn [negb]. unfold Element_Set. f_equal.
  apply IsEqual_right.
  rewrite He. unfold value_at. rewrite Hd.
  apply Verify_loop_Horner.
  - intros j Hj. apply nth_map_seq. lia.
  - rewrite nth_map_seq by lia. apply IsEqual_refl.
Qed.

Lemma Share_loop_run (ss : SecretSharing) (k : nat) :
  forall i,
    (forall j, i <= j < i + k ->
               Scalar_IsZero (Scalar_SetUint64 (Z.of_nat j + 1)) = false) ->
    Share_loop ss i k
    = Ok (map (fun j => share_of ss (Scalar_SetUint64 (Z.of_nat j + 1)))
              (seq i k)).
Proof.
  induction k as [|k IH]; intros i H; simpl; [reflexivity|].
  unfold SecretSharing_ShareWithID at 1.
  rewrite (H i) by lia.
  rewrite IH by (intros j Hj; apply H; lia).
  reflexivity.
Qed.

Lemma Share_loop_zero (ss : SecretSharing) (k : nat) :
  forall i j,
    i <= j < i + k ->
    Scalar_IsZero (Scalar_SetUint64 (Z.of_nat j + 1)) = true ->
    Share_loop ss i k = Panic (PanicString "secretsharing: id cannot be zero").
Proof.
  induction k as [|k IH]; intros i j Hj Hz; [lia|]. simpl.
  unfold SecretSharing_ShareWithID at 1.
  destruct (Scalar_IsZero (Scalar_SetUint64 (Z.of_nat i + 1))) eqn:E;
    [reflexivity|].
  assert (N : j <> i) by (intros ->; congruence).
  rewrite (IH (S i) j) by (lia || exact Hz). reflexivity.
Qed.

(** Feldman's check is exact: against the commitments [CommitSecret]
    returns, [Verify] accepts a share with a nonzero ID exactly when the
    generator times its value is the generator times the value of the
    polynomial at the ID.  So the share [ShareWithID] makes is accepted,
    provided the polynomial has degree [t] and [Evaluate] is its value. *)
Theorem Verify_CommitSecret (ss : SecretSharing) (id v : Scalar) :
  (0 <= t ss < 2 ^ 63 - 1)%Z ->
  Degree (poly ss) = t ss ->
  Scalar_IsZero id = false ->
  Evaluates (poly ss) id ->
  exists c s,
    SecretSharing_CommitSecret ss = Ok c
    /\ Z.of_nat (length c) = (t ss + 1)%Z
    /\ Verify (t ss) (mkShare id v) c
       = Ok (Element_IsEqual (Element_MulGen v)
               (Element_MulGen (Evaluate (poly ss) id)))
    /\ SecretSharing_ShareWithID ss id = Ok s
    /\ Verify (t ss) s c = Ok true.
Proof.
  intros Ht Hd Hz He.
  exists (commitments ss (S (Z.to_nat (t ss)))), (share_of ss id).
  repeat apply conj.
  - rewrite SecretSharing_CommitSecret_run by (rewrite Hd; exact Ht).
    now rewrite Hd.
  - rewrite length_map, length_seq. lia.
  - apply (Verify_commitments ss (mkShare id v) Ht Hd Hz He).
  - unfold SecretSharing_ShareWithID. now rewrite Hz.
  - rewrite (Verify_commitments ss (share_of ss id) Ht Hd Hz He).
    cbn [Value ID]. now rewrite IsEqual_refl.
Qed.

(** [Verify] answers false, without a group operation, when the number
    of commitments is not [t+1] or the share's ID is zero.  It returns on
    every input unless [t] is the largest [uint]: then [t+1] wraps to 0, an
    empty commitment passes the length check, and indexing it panics. *)
Theorem Verify_refuses (th : Z) (s : Share) (c : SecretCommitment) :
  (0 <= th < 2 ^ 64)%Z ->
  (Z.of_nat (length c) <> int_of_uint (uint_add th 1) ->
   Verify th s c = Ok false)
  /\ (Scalar_IsZero (ID s) = true -> Verify th s c = Ok false)
  /\ (th <> (2 ^ 64 - 1)%Z -> exists b, Verify th s c = Ok b)
  /\ (th = (2 ^ 64 - 1)%Z -> Scalar_IsZero (ID s) = false ->
      Verify th s [] = Panic (runtime_error "index out of range [-1]")).
Proof.
  intros Hth. repeat apply conj.
  - intros N. unfold Verify.
    now rewrite (proj2 (Z.eqb_neq _ _) N).
  - intros Hz. unfold Verify. rewrite Hz.
    now destruct (negb _).
  - intros N. unfold Verify.
    destruct (Z.eqb_spec (Z.of_nat (length c)) (int_of_uint (uint_add th 1)))
      as [E|E]; cbn [negb]; [|eexists; reflexivity].
    destruct (Scalar_IsZero (ID s)); [eexists; reflexivity|].
    destruct (length c) as [|lc] eqn:L; [|eexists; reflexivity].
    exfalso. revert E. unfold int_of_uint, uint_add.
    rewrite Z.mod_small by lia.
    destruct (Z.ltb_spec (th + 1) (2 ^ 63)); simpl; lia.
  - intros -> Hz. unfold Verify. rewrite Hz. reflexivity.
Qed.

(** [Share(n)] returns [n] shares, the [i]-th (from 0) with the ID
    [i+1] and the value of the polynomial there, and [Verify] accepts each of
    them against the commitments of [CommitSecret]; this needs the scalars
    1, ..., [n] to be nonzero in the group. *)
Theorem SecretSharing_Share_verifies (ss : SecretSharing) (n : Z) :
  (0 <= n < 2 ^ 63)%Z ->
  (forall k, (1 <= k <= n)%Z -> Scalar_IsZero (Scalar_SetUint64 k) = false) ->
  (0 <= t ss < 2 ^ 63 - 1)%Z ->
  Degree (poly ss) = t ss ->
  (forall k, (1 <= k <= n)%Z -> Evaluates (poly ss) (Scalar_SetUint64 k)) ->
  exists shares c,
    SecretSharing_Share ss n = Ok shares
    /\ SecretSharing_CommitSecret ss = Ok c
    /\ length shares = Z.to_nat n
    /\ (forall i, i < Z.to_nat n ->
          nth_error shares i
          = Some (share_of ss (Scalar_SetUint64 (Z.of_nat i + 1))))
    /\ (forall s, In s shares -> Verify (t ss) s c = Ok true).
Proof.
  intros Hn Hz Ht Hd He.
  eexists. exists (commitments ss (S (Z.to_nat (t ss)))).
  assert (Hrun : SecretSharing_Share ss n
                 = Ok (map (fun j => share_of ss
                                       (Scalar_SetUint64 (Z.of_nat j + 1)))
                           (seq 0 (Z.to_nat n)))).
  { unfold SecretSharing_Share, makeslice.
    destruct (Z.ltb_spec n (2 ^ 63)) as [_|N]; [|lia].
    apply Share_loop_run. intros j Hj. apply Hz. lia. }
  repeat apply conj.
  - exact Hrun.
  - rewrite SecretSharing_CommitSecret_run by (rewrite Hd; exact Ht).
    now rewrite Hd.
  - now rewrite length_map, length_seq.
  - intros i Hi. rewrite nth_error_map, nth_error_seq.
    destruct (Nat.ltb_spec i (Z.to_nat n)) as [_|N]; [reflexivity | lia].
  - intros s Hs. apply in_map_iff in Hs. destruct Hs as (j & <- & Hj).
    apply in_seq in Hj.
    rewrite (Verify_commitments ss _ Ht Hd); cbn [ID Value].
    + now rewrite IsEqual_refl.
    + apply Hz. lia.
    + apply He. lia.
Qed.

(** [Share(n)] panics, with the message of [ShareWithID], as soon as one
    of the scalars 1, ..., [n] is zero in the group, and with the runtime's
    error when [n] is not an [int]. *)
Theorem SecretSharing_Share_panics (ss : SecretSharing) (n k : Z) :
  ((1 <= k <= n)%Z -> (n < 2 ^ 63)%Z ->
   Scalar_IsZero (Scalar_SetUint64 k) = true ->
   SecretSharing_Share ss n
   = Panic (PanicString "secretsharing: id cannot be zero"))
  /\ ((2 ^ 63 <= n)%Z ->
      SecretSharing_Share ss n
      = Panic (runtime_error "makeslice: len out of range")).
Proof.
  split.
  - intros Hk Hn Hz. unfold SecretSharing_Share, makeslice.
    destruct (Z.ltb_spec n (2 ^ 63)) as [_|N]; [|lia].
    apply (Share_loop_zero ss (Z.to_nat n) 0 (Z.to_nat (k - 1))); [lia|].
    replace (Z.of_nat (Z.to_nat (k - 1)) + 1)%Z with k by lia. exact Hz.
  - intros Hn. unfold SecretSharing_Share, makeslice.
    destruct (Z.ltb_spec n (2 ^ 63)) as [N|_]; [lia | reflexivity].
Qed.

Lemma Recover_run (th : Z) (shares : list Share) :
  (0 <= th < 2 ^ 63 - 1)%Z ->
  (th < Z.of_nat (length shares))%Z ->
  Recover th shares
  = match NewLagrangePolynomial
            (map ID (firstn (S (Z.to_nat th)) shares))
            (map Value (firstn (S (Z.to_nat th)) shares)) with
    | Panic p => Panic p
    | Ok l => Ok (Some (LagrangePolynomial_Evaluate l NewScalar), None)
    end.
Proof.
  intros Hth Hl. unfold Recover.
  assert (I : int_of_uint th = th).
  { unfold int_of_uint.
    destruct (Z.ltb_spec th (2 ^ 63)) as [_|N]; [reflexivity | lia]. }
  rewrite I, (proj2 (Z.leb_gt _ _) Hl), (makeslice_succ th Hth).
  destruct (NewLagrangePolynomial _ _); [|reflexivity].
  destruct shares; [simpl in Hl; lia | reflexivity].
Qed.

(** [Recover] returns the threshold error, which names the number of
    shares and [t], exactly when it is given at most [t] shares, and then
    interpolates nothing.  Given more, it interpolates through the first
    [t+1] shares only, IDs as abscissas and values as ordinates, and returns
    the value at zero: the shares after the first [t+1] are neither used nor
    checked. *)
Theorem Recover_threshold (th : Z) (shares extra : list Share) :
  (0 <= th < 2 ^ 63 - 1)%Z ->
  ((Z.of_nat (length shares) <= th)%Z ->
   Recover th shares
   = Ok (None, Some (errThreshold th (Z.of_nat (length shares)))))
  /\ (Z.of_nat (length shares) = (th + 1)%Z ->
      Recover th (shares ++ extra) = Recover th shares
      /\ Recover th shares
         = match NewLagrangePolynomial (map ID shares) (map Value shares) with
           | Panic p => Panic p
           | Ok l => Ok (Some (LagrangePolynomial_Evaluate l NewScalar), None)
           end).
Proof.
  intros Hth. split.
  - intros Hl. unfold Recover.
    assert (I : int_of_uint th = th).
    { unfold int_of_uint.
      destruct (Z.ltb_spec th (2 ^ 63)) as [_|N]; [reflexivity | lia]. }
    rewrite I, (proj2 (Z.leb_le _ _) Hl).
    unfold uint_of_int. rewrite Z.mod_small by lia. reflexivity.
  - intros Hl.
    assert (L : length shares = S (Z.to_nat th)) by lia.
    rewrite (Recover_run th (shares ++ extra) Hth)
      by (rewrite length_app; lia).
    rewrite (Recover_run th shares Hth) by lia.
    rewrite <- L, firstn_app, Nat.sub_diag, firstn_all, firstn_O, app_nil_r.
    split; reflexivity.
Qed.

(** For a threshold that is not an [int], [Recover] never returns the
    threshold error although no slice holds that many shares: [int(t)] is
    negative, so the test passes; for the largest [uint], [t+1] wraps to 0
    and [Recover] returns the value at zero of the interpolation through no
    point at all (or panics indexing an empty slice), and below it [make]
    panics. *)
Theorem Recover_huge_threshold (th : Z) (s : Share) (shares : list Share) :
  ((2 ^ 63 <= th < 2 ^ 64 - 1)%Z ->
   Recover th shares = Panic (runtime_error "makeslice: len out of range"))
  /\ (th = (2 ^ 64 - 1)%Z ->
      Recover th (s :: shares)
      = match NewLagrangePolynomial [] [] with
        | Panic p => Panic p
        | Ok l => Ok (Some (LagrangePolynomial_Evaluate l NewScalar), None)
        end
      /\ Recover th []
         = match NewLagrangePolynomial [] [] with
           | Panic p => Panic p
           | Ok l =>
               Panic (runtime_error "index out of range [0] with length 0")
           end).
Proof.
  split.
  - intros Hth. unfold Recover.
    assert (I : int_of_uint th = (th - 2 ^ 64)%Z).
    { unfold int_of_uint.
      destruct (Z.ltb_spec th (2 ^ 63)) as [N|_]; [lia | reflexivity]. }
    rewrite I.
    destruct (Z.leb_spec (Z.of_nat (length shares)) (th - 2 ^ 64)) as [N|_];
      [lia|].
    unfold makeslice, uint_add. rewrite Z.mod_small by lia.
    destruct (Z.ltb_spec (th + 1) (2 ^ 63)) as [N|_]; [lia | reflexivity].
  - intros ->. split; reflexivity.
Qed.

(** Sharing and recovering: [Recover] on the shares [Share(n)] returns,
    for [n] above the threshold, is the value of the polynomial at zero,
    provided the interpolation through the first [t+1] of these points is
    right at zero. *)
Theorem Recover_Share (ss : SecretSharing) (n : Z) :
  (0 <= t ss < 2 ^ 63 - 1)%Z ->
  (t ss < n < 2 ^ 63)%Z ->
  (forall k, (1 <= k <= n)%Z -> Scalar_IsZero (Scalar_SetUint64 k) = false) ->
  InterpolatesAtZero (poly ss)
    (map (fun i => Scalar_SetUint64 (Z.of_nat i + 1))
         (seq 0 (S (Z.to_nat (t ss))))) ->
  exists shares,
    SecretSharing_Share ss n = Ok shares
    /\ Recover (t ss) shares = Ok (Some (Evaluate (poly ss) NewScalar), None).
Proof.
  intros Ht Hn Hz (l & Hl & Hv).
  eexists. split.
  - unfold SecretSharing_Share, makeslice.
    destruct (Z.ltb_spec n (2 ^ 63)) as [_|N]; [|lia].
    apply Share_loop_run. intros j Hj. apply Hz. lia.
  - rewrite (Recover_run _ _ Ht) by (rewrite length_map, length_seq; lia).
    rewrite firstn_map, firstn_seq_le by lia.
    rewrite !map_map. cbn [ID Value].
    rewrite map_map in Hl. rewrite Hl, Hv. reflexivity.
Qed.

End SS_Proofs.

(** ** Secret sharing on the small group *)

Lemma toy_ids_nonzero (k : Z) :
  (1 <= k <= 4)%Z ->
  @group.Scalar_IsZero ToyGroup.Zq (group.Scalar_SetUint64 k) = false.
Proof.
  intros H.
  assert (E : k = 1%Z \/ k = 2%Z \/ k = 3%Z \/ k = 4%Z) by lia.
  destruct E as [-> | [-> | [-> | ->]]]; reflexivity.
Qed.

Lemma toy_evaluates (k : Z) :
  (1 <= k <= 4)%Z ->
  @secretsharing.Evaluates ToyGroup.Zq ToyGroup.polys
    (secretsharing.poly ToyGroup.sharing) (group.Scalar_SetUint64 k).
Proof.
  intros H.
  assert (E : k = 1%Z \/ k = 2%Z \/ k = 3%Z \/ k = 4%Z) by lia.
  destruct E as [-> | [-> | [-> | ->]]]; reflexivity.
Qed.

(** The share with ID 5 of the sharing of 42, and the same share with
    another value. *)
Lemma Verify_CommitSecret_witness :
  exists c s,
    secretsharing.SecretSharing_CommitSecret ToyGroup.sharing = Ok c
    /\ Z.of_nat (length c) = 3%Z
    /\ secretsharing.Verify 2 (ToyGroup.share 5 7) c = Ok false
    /\ secretsharing.SecretSharing_ShareWithID ToyGroup.sharing 5%Z = Ok s
    /\ secretsharing.Verify 2 s c = Ok true.
Proof.
  apply (@Verify_CommitSecret ToyGroup.Zq ToyGroup.polys ToyGroup.sharing
           5%Z 7%Z).
  - vm_compute. split; [discriminate | reflexivity].
  - reflexivity.
  - reflexivity.
  - reflexivity.
Defined.

(** Two commitments where three are due, the ID zero, and the largest
    threshold. *)
Lemma Verify_refuses_witness :
  secretsharing.Verify 2 (ToyGroup.share 5 7)
    [25; 21]%Z = Ok false
  /\ secretsharing.Verify 2 (ToyGroup.share 0 42)
       [25; 21; 39]%Z = Ok false
  /\ secretsharing.Verify (2 ^ 64 - 1)
       (ToyGroup.share 5 7) []
     = Panic (runtime_error "index out of range [-1]").
Proof.
  assert (R2 : (0 <= 2 < 2 ^ 64)%Z)
    by (vm_compute; split; [discriminate | reflexivity]).
  assert (Rmax : (0 <= 2 ^ 64 - 1 < 2 ^ 64)%Z)
    by (vm_compute; split; [discriminate | reflexivity]).
  split; [|split].
  - apply (proj1 (@Verify_refuses ToyGroup.Zq 2%Z
                    (ToyGroup.share 5 7)
                    [25; 21]%Z R2)).
    vm_compute. discriminate.
  - apply (proj1 (proj2 (@Verify_refuses ToyGroup.Zq 2%Z
                           (ToyGroup.share 0 42)
                           [25; 21; 39]%Z R2))).
    reflexivity.
  - apply (proj2 (proj2 (proj2 (@Verify_refuses ToyGroup.Zq (2 ^ 64 - 1)%Z
                                  (ToyGroup.share 5 7)
                                  [] Rmax))));
      reflexivity.
Defined.

(** Four shares of the sharing of 42 with threshold 2. *)
Lemma SecretSharing_Share_verifies_witness :
  exists shares c,
    secretsharing.SecretSharing_Share ToyGroup.sharing 4 = Ok shares
    /\ secretsharing.SecretSharing_CommitSecret ToyGroup.sharing = Ok c
    /\ length shares = 4
    /\ (forall s, In s shares -> secretsharing.Verify 2 s c = Ok true).
Proof.
  destruct (@SecretSharing_Share_verifies ToyGroup.Zq ToyGroup.polys
              ToyGroup.sharing 4%Z)
    as (shares & c & E1 & E2 & L & _ & V).
  - vm_compute. split; [discriminate | reflexivity].
  - apply toy_ids_nonzero.
  - vm_compute. split; [discriminate | reflexivity].
  - reflexivity.
  - apply toy_evaluates.
  - exists shares, c. repeat split; assumption.
Defined.

(** The group has 101 scalars: the share with ID 101 cannot be made. *)
Lemma SecretSharing_Share_panics_witness :
  secretsharing.SecretSharing_Share ToyGroup.sharing 200
  = Panic (PanicString "secretsharing: id cannot be zero")
  /\ secretsharing.SecretSharing_Share ToyGroup.sharing (2 ^ 63)
     = Panic (runtime_error "makeslice: len out of range").
Proof.
  split.
  - apply (proj1 (@SecretSharing_Share_panics ToyGroup.Zq ToyGroup.polys
                    ToyGroup.sharing 200%Z 101%Z));
      [lia | reflexivity | reflexivity].
  - apply (proj2 (@SecretSharing_Share_panics ToyGroup.Zq ToyGroup.polys
                    ToyGroup.sharing (2 ^ 63)%Z 1%Z)).
    vm_compute. discriminate.
Defined.

(** Two shares where three are needed; and three shares followed by a
    fourth that lies. *)
Lemma Recover_threshold_witness :
  @secretsharing.Recover ToyGroup.Zq ToyGroup.polys 2
    [ToyGroup.share 1 62; ToyGroup.share 2 7]%Z
  = Ok (None,
        Some (ErrOther "secretsharing: number of shares (n=2) must be above the threshold (t=2)"))
  /\ @secretsharing.Recover ToyGroup.Zq ToyGroup.polys 2
       ([ToyGroup.share 1 62; ToyGroup.share 2 7;
         ToyGroup.share 3 79] ++ [ToyGroup.share 4 0])%Z
     = @secretsharing.Recover ToyGroup.Zq ToyGroup.polys 2
         [ToyGroup.share 1 62; ToyGroup.share 2 7;
          ToyGroup.share 3 79]%Z.
Proof.
  split.
  - apply (proj1 (@Recover_threshold ToyGroup.Zq ToyGroup.polys 2%Z
                    [ToyGroup.share 1 62; ToyGroup.share 2 7]%Z
                    []
                    ltac:(vm_compute; split; [discriminate | reflexivity]))).
    vm_compute. discriminate.
  - apply (proj2 (@Recover_threshold ToyGroup.Zq ToyGroup.polys 2%Z
                    [ToyGroup.share 1 62; ToyGroup.share 2 7;
                     ToyGroup.share 3 79]%Z
                    [ToyGroup.share 4 0]%Z
                    ltac:(vm_compute; split; [discriminate | reflexivity]))).
    reflexivity.
Defined.

(** The largest threshold, with one share and with none, and 2^63. *)
Lemma Recover_huge_threshold_witness :
  @secretsharing.Recover ToyGroup.Zq ToyGroup.polys (2 ^ 63)
    [ToyGroup.share 1 62]%Z
  = Panic (runtime_error "makeslice: len out of range")
  /\ @secretsharing.Recover ToyGroup.Zq ToyGroup.polys (2 ^ 64 - 1)
       [ToyGroup.share 1 62]%Z
     = Ok (Some 0%Z, None)
  /\ @secretsharing.Recover ToyGroup.Zq ToyGroup.polys (2 ^ 64 - 1) []
     = Panic (runtime_error "index out of range [0] with length 0").
Proof.
  split; [|split].
  - apply (proj1 (@Recover_huge_threshold ToyGroup.Zq ToyGroup.polys
                    (2 ^ 63)%Z (ToyGroup.share 1 62)%Z
                    [ToyGroup.share 1 62]%Z)).
    vm_compute. split; [discriminate | reflexivity].
  - apply (proj1 (proj2 (@Recover_huge_threshold ToyGroup.Zq ToyGroup.polys
                           (2 ^ 64 - 1)%Z (ToyGroup.share 1 62)%Z [])
                        eq_refl)).
  - apply (proj2 (proj2 (@Recover_huge_threshold ToyGroup.Zq ToyGroup.polys
                           (2 ^ 64 - 1)%Z (ToyGroup.share 1 62)%Z [])
                        eq_refl)).
Defined.

(** Four shares of 42 with threshold 2, recovered. *)
Lemma Recover_Share_witness :
  exists shares,
    secretsharing.SecretSharing_Share ToyGroup.sharing 4 = Ok shares
    /\ @secretsharing.Recover ToyGroup.Zq ToyGroup.polys 2 shares
       = Ok (Some 42%Z, None).
Proof.
  apply (@Recover_Share ToyGroup.Zq ToyGroup.polys ToyGroup.sharing 4%Z).
  - vm_compute. split; [discriminate | reflexivity].
  - vm_compute. split; reflexivity.
  - apply toy_ids_nonzero.
  - eexists. split; [vm_compute; reflexivity|]. vm_compute. reflexivity.
Defined.
